(** * bnp: extraction of account operations from bank statement reports

    A shallow embedding of the report parser (walk, stripValue, stripDate,
    parseTotalLine, parseOpLine, parseOps, filterOnSourceColumn, hashOp,
    extractPDFOps, convertOpsToValues) followed by the properties proved
    about it.

    Modelling conventions.
    - [int64] values are integers of [Z]; every operation that can leave the
      64-bit range in the source is wrapped with [wrap64].
    - Go strings are byte strings: [string] of the standard library.
    - A [float64] column is only ever compared ([==], [<], [>=]) and used
      as a map key, never computed with; columns are modelled as integers
      of [Z] (no NaN).
    - A pair [(result, error)] returned by a Go function is a pair whose
      second component is [None] for a [nil] error.
    - [pdf.Value], [regexp], [strconv], [fmt] and [time] are libraries the
      program calls; the part of their behaviour the program relies on is
      written out below. *)

From Stdlib Require Import ZArith String Ascii List Lia.
From Stdlib Require Import DecimalString DecimalN DecimalPos.
From stdpp Require Import gmap strings list.

Local Open Scope string_scope.
Local Open Scope list_scope.
Local Open Scope Z_scope.

(* ================================================================== *)
(** ** Machine integers *)

Definition minInt64 : Z := - 2 ^ 63.
Definition maxInt64 : Z := 2 ^ 63 - 1.

(** Two's complement wrap-around of a 64-bit signed integer. *)
Definition wrap64 (z : Z) : Z := (z + 2 ^ 63) mod 2 ^ 64 - 2 ^ 63.

Definition inInt64 (z : Z) : Prop := minInt64 <= z <= maxInt64.

(* ================================================================== *)
(** ** Strings, digits and decimal numbers *)

Definition isDigit (c : ascii) : bool :=
  ((48 <=? N_of_ascii c) && (N_of_ascii c <=? 57))%N.

Definition digitValue (c : ascii) : Z := Z.of_N (N_of_ascii c) - 48.

Fixpoint allDigits (s : string) : bool :=
  match s with
  | EmptyString => true
  | String c r => isDigit c && allDigits r
  end.

(** [reDigits] is the regular expression [^\d+$]: one or more ASCII digits
    and nothing else. *)
Definition reDigits (s : string) : bool :=
  match s with
  | EmptyString => false
  | _ => allDigits s
  end.

(** Value of a digit string read from the left, [acc] being the value of
    the digits already consumed. *)
Fixpoint digitsValue (s : string) (acc : Z) : Z :=
  match s with
  | EmptyString => acc
  | String c r => digitsValue r (acc * 10 + digitValue c)
  end.

(** [strconv.ParseInt(s, 10, 64)]; [None] stands for a non-nil error
    (syntax or range), the only thing the callers look at. *)
Definition ParseInt (s : string) : option Z :=
  match s with
  | EmptyString => None
  | String c r =>
      let neg := Ascii.eqb c "-" in
      let body := if Ascii.eqb c "+" || neg then r else s in
      if negb (reDigits body) then None
      else
        let un := digitsValue body 0 in
        if negb neg && (2 ^ 63 <=? un) then None
        else if neg && (2 ^ 63 <? un) then None
        else Some (if neg then - un else un)
  end.

(** Decimal rendering of an integer, as the verbs [%d] and [%v] print it. *)
Definition itoa (z : Z) : string :=
  if z <? 0
  then "-" +:+ NilEmpty.string_of_uint (N.to_uint (Z.to_N (- z)))
  else NilEmpty.string_of_uint (N.to_uint (Z.to_N z)).

(** [strings.HasPrefix(s, prefix)]. *)
Definition HasPrefix (s prefix : string) : bool := String.prefix prefix s.

(** [strings.Join(parts, sep)]. *)
Fixpoint Join (parts : list string) (sep : string) : string :=
  match parts with
  | [] => ""
  | [p] => p
  | p :: rest => p +:+ sep +:+ Join rest sep
  end.

(* ================================================================== *)
(** ** Graph walk *)

(** The kinds of [pdf.Value] the walk distinguishes. *)
Inductive ValueKind := Dict | Array | Stream | Scalar.

(** The part of the [pdf.Value] interface that [walk] uses.  Identities
    ([KeyId], [IndexId]) are [uint32] numbers attached to the entries of a
    dictionary or of an array. *)
Class PdfValue (V : Type) := {
  Kind : V -> ValueKind;
  Keys : V -> list string;
  KeyId : V -> string -> N;
  Key : V -> string -> V;
  Len : V -> nat;
  IndexId : V -> nat -> N;
  Index : V -> nat -> V
}.

Section Walk.
Context {V E S : Type} `{PdfValue V}.

(** The callback is a closure: [S] is the state it captures. *)
Variable callback : V -> S -> S * option E.

(** The entries the two [for] loops of [walkNode] range over, each with
    its identity and the value it leads to. *)
Definition entries (v : V) : list (N * V) :=
  match Kind v with
  | Dict => map (fun k => (KeyId v k, Key v k)) (Keys v)
  | Array => map (fun i => (IndexId v i, Index v i)) (seq 0 (Len v))
  | _ => []
  end.

(** One [for] loop of [walkNode]: [rec] is the recursive call, [seen]
    the shared map of identities, threaded through. [None] is only
    returned when [rec] gives up. *)
Fixpoint walkChildren
    (rec : V -> gset N -> S -> option (gset N * S * option E))
    (children : list (N * V)) (seen : gset N) (s : S)
    : option (gset N * S * option E) :=
  match children with
  | [] => Some (seen, s, None)
  | (id, child) :: rest =>
      if decide (id ∈ seen) then walkChildren rec rest seen s
      else
        match rec child ({[id]} ∪ seen) s with
        | None => None
        | Some (seen1, s1, err) =>
            let seen2 := seen1 ∖ {[id]} in
            match err with
            | Some e => Some (seen2, s1, Some e)
            | None => walkChildren rec rest seen2 s1
            end
        end
  end.

(** [walkNode], with the recursion depth bounded by [fuel]; [None] means
    the bound was reached. *)
Fixpoint walkNode (fuel : nat) (v : V) (depth : Z) (seen : gset N) (s : S)
    : option (gset N * S * option E) :=
  match fuel with
  | O => None
  | Datatypes.S fuel' =>
      let '(s1, err) := callback v s in
      match err with
      | Some e => Some (seen, s1, Some e)
      | None =>
          walkChildren (fun c => walkNode fuel' c (depth + 1))
                       (entries v) seen s1
      end
  end.

Definition walk (fuel : nat) (root : V) (s : S) : option (S * option E) :=
  match walkNode fuel root 0 ∅ s with
  | None => None
  | Some (_, s1, err) => Some (s1, err)
  end.

(** Calling the callback on a list of values in order, up to and
    including the first failure. *)
Fixpoint runCallbacks (vs : list V) (s : S) : S * option E :=
  match vs with
  | [] => (s, None)
  | v :: rest =>
      let '(s1, err) := callback v s in
      match err with
      | Some e => (s1, Some e)
      | None => runCallbacks rest s1
      end
  end.

(** The traversal as the design describes it: the pre-order listing of
    the values reached from [v], each with the identities on the path
    that leads to it (innermost first); an entry whose identity is on
    the current path is skipped. *)
Inductive Preorder : V -> list N -> list (V * list N) -> Prop :=
| preorder_node v path visits :
    PreorderEntries (entries v) path visits ->
    Preorder v path ((v, path) :: visits)
with PreorderEntries : list (N * V) -> list N -> list (V * list N) -> Prop :=
| preorder_done path : PreorderEntries [] path []
| preorder_skip id child rest path visits :
    id ∈ path ->
    PreorderEntries rest path visits ->
    PreorderEntries ((id, child) :: rest) path visits
| preorder_descend id child rest path visits1 visits2 :
    id ∉ path ->
    Preorder child (id :: path) visits1 ->
    PreorderEntries rest path visits2 ->
    PreorderEntries ((id, child) :: rest) path (visits1 ++ visits2).
End Walk.

Scheme Preorder_mut := Minimality for Preorder Sort Prop
  with PreorderEntries_mut := Minimality for PreorderEntries Sort Prop.

(* ================================================================== *)
(** ** Words and lines *)

(** [Word]: a text command with its column.  The field [S] of the source
    is named [Str] here. *)
Record Word := { Column : Z; Str : string }.

(** [Line]: the field [Value] of the source is named [LineValue] here. *)
Record Line := { LineValue : string; Words : list Word }.

Definition noWord : Word := {| Column := 0; Str := "" |}.

(** [words[i]], for an index that the caller has checked. *)
Definition wordAt (words : list Word) (i : nat) : Word := nth i words noWord.

(** [stripValue]: extracts a trailing amount like "123,45" or "12.345,67". *)
Definition stripValue (line : string) (words : list Word)
    : list Word * Z * bool :=
  if (length words <? 3)%nat then (words, 0, false)
  else
    let lw := length words in
    let head := Str (wordAt words (lw - 3)) in
    let dot := Str (wordAt words (lw - 2)) in
    let tail := Str (wordAt words (lw - 1)) in
    if reDigits head && String.eqb dot "," && reDigits tail
       && (String.length tail =? 2)%nat
    then
      let '(num, n) :=
        if (4 <? lw)%nat && String.eqb (Str (wordAt words (lw - 4))) "."
           && reDigits (Str (wordAt words (lw - 5)))
        then (Str (wordAt words (lw - 5)) +:+ (head +:+ tail), 5%nat)
        else (head +:+ tail, 3%nat) in
      match ParseInt num with
      | None => (words, 0, false)
      | Some v =>
          let v1 :=
            if Column (wordAt words (lw - n)) <? 500 then wrap64 (- v)
            else v in
          (take (lw - n) words, v1, true)
      end
    else (words, 0, false).

(** [stripDate]: extracts a leading date like "13.06". *)
Definition stripDate (line : string) (words : list Word)
    : list Word * string :=
  let lw := length words in
  if (lw <? 3)%nat then (words, "")
  else
    let head := Str (wordAt words 0) in
    let dot := Str (wordAt words 1) in
    let tail := Str (wordAt words 2) in
    if negb (reDigits head) || negb (String.eqb dot ".")
       || negb (reDigits tail)
    then (words, "")
    else (drop 3 words, head +:+ dot +:+ tail).

Definition joinWords (words : list Word) : string :=
  Join (map Str words) " ".

(* ================================================================== *)
(** ** Operations *)

(** [Op]: a line of the report, an account state when [IsTotal] holds and
    an account change otherwise. *)
Record Op := {
  Date : string;
  Source : string;
  SourceCol : Z;
  Value : Z;
  HasValue : bool;
  IsTotal : bool
}.

(** The zero value [&Op{}]. *)
Definition emptyOp : Op :=
  {| Date := ""; Source := ""; SourceCol := 0; Value := 0;
     HasValue := false; IsTotal := false |}.

(** Assignments to the fields of an operation: [op.Date = date],
    [op.Value = v; op.HasValue = true], [op.SourceCol = col] and
    [op.Source += text]. *)
Definition setDate (date : string) (op : Op) : Op :=
  {| Date := date; Source := Source op; SourceCol := SourceCol op;
     Value := Value op; HasValue := HasValue op; IsTotal := IsTotal op |}.

Definition setValue (v : Z) (op : Op) : Op :=
  {| Date := Date op; Source := Source op; SourceCol := SourceCol op;
     Value := v; HasValue := true; IsTotal := IsTotal op |}.

Definition setSourceCol (col : Z) (op : Op) : Op :=
  {| Date := Date op; Source := Source op; SourceCol := col;
     Value := Value op; HasValue := HasValue op; IsTotal := IsTotal op |}.

Definition addSource (text : string) (op : Op) : Op :=
  {| Date := Date op; Source := Source op +:+ text;
     SourceCol := SourceCol op; Value := Value op;
     HasValue := HasValue op; IsTotal := IsTotal op |}.

(** [Value] of the source (a point of the output series), named
    [AccountValue] here, and the calendar date of a [time.Time] obtained
    from the layout "02.01.2006" (midnight, UTC). *)
Record Time := { year : Z; month : Z; day : Z }.

Record AccountValue := { VDate : Time; VSource : string; VValue : Z }.

(** The errors of the program, one constructor per place that builds
    one. *)
Inductive Err :=
| ErrTotalLine (line : string)
| ErrNotEnough (n : nat)
| ErrFirstNotTotal (first : Op)
| ErrLastNotTotal (last : Op)
| ErrTotalMismatch (op : Op) (total : Z)
| ErrOrphan (op : Op)
| ErrTimeParse (value : string)
| ErrPage (msg : string).

(** *** The account state pattern

    [reStart] is [^SOLDE\s+.*(\d{2}\.\d{2}\.\d{4})]. *)

(** [\s]: tab, line feed, form feed, carriage return, space. *)
Definition isSpace (c : ascii) : bool :=
  let n := N_of_ascii c in
  ((n =? 9) || (n =? 10) || (n =? 12) || (n =? 13) || (n =? 32))%N.

Definition isNewline (c : ascii) : bool := (N_of_ascii c =? 10)%N.

Fixpoint skipSpaces (s : string) : string :=
  match s with
  | String c r => if isSpace c then skipSpaces r else s
  | EmptyString => s
  end.

(** The text up to the first line feed: what [.*] can run over. *)
Fixpoint firstLine (s : string) : string :=
  match s with
  | String c r => if isNewline c then "" else String c (firstLine r)
  | EmptyString => ""
  end.

(** [\d{2}\.\d{2}\.\d{4}] at the start of [s]. *)
Definition dateAtStart (s : string) : bool :=
  match s with
  | String d1 (String d2 (String p1 (String m1 (String m2 (String p2
      (String y1 (String y2 (String y3 (String y4 _))))))))) =>
      isDigit d1 && isDigit d2 && Ascii.eqb p1 "." && isDigit m1
      && isDigit m2 && Ascii.eqb p2 "." && isDigit y1 && isDigit y2
      && isDigit y3 && isDigit y4
  | _ => false
  end.

(** The rightmost place of [s] where the date pattern matches: the one a
    greedy [.*] stops at. *)
Fixpoint lastDate (s : string) : option string :=
  match s with
  | EmptyString => None
  | String c r =>
      match lastDate r with
      | Some d => Some d
      | None => if dateAtStart s then Some (substring 0 10 s) else None
      end
  end.

(** [reStart.FindStringSubmatch(s)], reduced to its first group; [None]
    when there is no match. *)
Definition reStartFind (s : string) : option string :=
  if HasPrefix s "SOLDE" then
    let r := substring 5 (String.length s - 5) s in
    match r with
    | String c _ =>
        if isSpace c then lastDate (firstLine (skipSpaces r)) else None
    | EmptyString => None
    end
  else None.

(** [parseTotalLine]: an account state line; no operation when the line
    does not look like one. *)
Definition parseTotalLine (line : Line) : option Op * option Err :=
  match reStartFind (LineValue line) with
  | None => (None, None)
  | Some date =>
      let '(w, v, ok) := stripValue (LineValue line) (Words line) in
      if negb ok then (None, Some (ErrTotalLine (LineValue line)))
      else
        (Some {| Source := joinWords w; SourceCol := -1; Date := date;
                 Value := v; HasValue := true; IsTotal := true |}, None)
  end.

(** [parseOpLine]: an account change line, possibly partial. *)
Definition parseOpLine (line : Line) : option Op * option Err :=
  let op := emptyOp in
  let words := Words line in
  let '(w, date) := stripDate (LineValue line) words in
  let words := w in
  let op := if negb (String.eqb date "") then setDate date op else op in
  let '(w, v, offset) := stripValue (LineValue line) words in
  let words := w in
  let op := if offset then setValue v op else op in
  let '(_, _, offset) := stripValue (LineValue line) words in
  if offset then (None, None)
  else
    let op :=
      if (0 <? length words)%nat
      then setSourceCol (Column (wordAt words 0)) op
      else op in
    (Some (addSource (joinWords words) op), None).

(** The operation a line yields: the account state if the line is one,
    the account change otherwise. *)
Definition parseLine (line : Line) : option Op * option Err :=
  match parseTotalLine line with
  | (_, Some err) => (None, Some err)
  | (Some op, None) => (Some op, None)
  | (None, None) => parseOpLine line
  end.

(** The end of the loop body of [parseOps]: [op] is appended when it has
    a date, and merged into the last operation of [ops] otherwise.  The
    last operation is updated in place in the source (through its
    pointer); here the last element of the list is replaced. *)
Definition consolidate (ops : list Op) (op : Op) : list Op :=
  if negb (String.eqb (Date op) "") then ops ++ [op]
  else
    match last ops with
    | Some prev =>
        if HasValue op || negb (String.eqb (Source op) "") then
          let prev1 :=
            if HasValue op then setValue (Value op) prev else prev in
          let prev2 :=
            if negb (String.eqb (Source op) "")
               && (SourceCol op =? SourceCol prev1)
            then addSource (Source op) prev1
            else prev1 in
          removelast ops ++ [prev2]
        else ops
    | None => ops
    end.

(** The loop of [parseOps], [ops] being the operations collected so
    far. *)
Fixpoint parseOpsFrom (lines : list Line) (ops : list Op)
    : list Op * option Err :=
  match lines with
  | [] => (ops, None)
  | line :: rest =>
      if HasPrefix (LineValue line) "TOTAL DES MONTANTS"
      then parseOpsFrom rest ops
      else if HasPrefix (LineValue line) "BNP PARIBAS SA : capital de"
              || HasPrefix (LineValue line) "Montant de votre autorisation"
      then (ops, None)
      else
        match parseLine line with
        | (_, Some err) => ([], Some err)
        | (None, None) => parseOpsFrom rest ops
        | (Some op, None) => parseOpsFrom rest (consolidate ops op)
        end
  end.

Definition parseOps (lines : list Line) : list Op * option Err :=
  parseOpsFrom lines [].

(* ================================================================== *)
(** ** Filtering on the source column *)

(** The first loop of [filterOnSourceColumn]: the state is the map of
    counts, [maxCol] and [maxCount].  A count never exceeds the number of
    operations, so the [int] counters are not wrapped. *)
Definition voteStep (st : gmap Z Z * Z * Z) (op : Op) : gmap Z Z * Z * Z :=
  let '(cols, maxCol, maxCount) := st in
  if 0 <=? SourceCol op then
    let n := default 0 (cols !! SourceCol op) + 1 in
    let '(maxCol1, maxCount1) :=
      if maxCount <? n then (SourceCol op, n) else (maxCol, maxCount) in
    (<[SourceCol op := n]> cols, maxCol1, maxCount1)
  else st.

Definition vote (ops : list Op) : gmap Z Z * Z * Z :=
  fold_left voteStep ops (∅, -1, -1).

(** [maxCol] at the end of the first loop. *)
Definition dominantColumn (ops : list Op) : Z := snd (fst (vote ops)).

Definition keptBy (maxCol : Z) (op : Op) : bool :=
  (SourceCol op <? 0) || (SourceCol op =? maxCol).

Definition filterOnSourceColumn (ops : list Op) : list Op :=
  List.filter (keptBy (dominantColumn ops)) ops.

(* ================================================================== *)
(** ** Deduplication across pages *)

(** [hashOp]: [Value] is an [int64], which the verb [%f] does not accept;
    [fmt] then prints the verb, the type and the value. *)
Definition hashOp (op : Op) : string :=
  Date op +:+ "-" +:+ Source op +:+ "-"
  +:+ ("%!f(int64=" +:+ itoa (Value op) +:+ ")").

(** The inner loop of [extractPDFOps], over the operations of a page. *)
Fixpoint dedupPage (ops : list Op) (seen : gmap string bool)
    (allOps : list Op) : gmap string bool * list Op :=
  match ops with
  | [] => (seen, allOps)
  | op :: rest =>
      let h := hashOp op in
      if default false (seen !! h) then dedupPage rest seen allOps
      else dedupPage rest (<[h := true]> seen) (allOps ++ [op])
  end.

(** The outer loop of [extractPDFOps]; a page is given by what
    [extractOps] returns for it. *)
Fixpoint extractPDFOpsFrom (pages : list (list Op * option Err))
    (seen : gmap string bool) (allOps : list Op) : list Op * option Err :=
  match pages with
  | [] => (allOps, None)
  | (ops, err) :: rest =>
      match err with
      | Some e => ([], Some e)
      | None =>
          let '(seen1, allOps1) := dedupPage ops seen allOps in
          extractPDFOpsFrom rest seen1 allOps1
      end
  end.

Definition extractPDFOps (pages : list (list Op * option Err))
    : list Op * option Err :=
  extractPDFOpsFrom pages ∅ [].

(* ================================================================== *)
(** ** Dates *)

Definition isLeap (y : Z) : bool :=
  (y mod 4 =? 0) && (negb (y mod 100 =? 0) || (y mod 400 =? 0)).

Definition daysIn (m y : Z) : Z :=
  if (m =? 2) && isLeap y then 29
  else if m =? 2 then 28
  else if (m =? 4) || (m =? 6) || (m =? 9) || (m =? 11) then 30
  else 31.

(** A number of exactly two digits at the start of the text ([getnum]
    with [fixed] set), and the rest of the text. *)
Definition getnum2 (s : string) : option (Z * string) :=
  match s with
  | String a (String b r) =>
      if isDigit a && isDigit b
      then Some (digitValue a * 10 + digitValue b, r)
      else None
  | _ => None
  end.

(** A literal dot of the layout. *)
Definition skipDot (s : string) : option string :=
  match s with
  | String c r => if Ascii.eqb c "." then Some r else None
  | EmptyString => None
  end.

(** A year of four digits at the start of the text, and the rest. *)
Definition getyear4 (s : string) : option (Z * string) :=
  match s with
  | String a (String b (String c (String d r))) =>
      if isDigit a && isDigit b && isDigit c && isDigit d
      then Some (digitsValue (String a (String b (String c (String d ""))))
                             0, r)
      else None
  | _ => None
  end.

(** [time.Parse("02.01.2006", value)]; [None] stands for a non-nil
    error. *)
Definition timeParse (value : string) : option Time :=
  match getnum2 value with
  | None => None
  | Some (d, r1) =>
  match skipDot r1 with
  | None => None
  | Some r2 =>
  match getnum2 r2 with
  | None => None
  | Some (m, r3) =>
  if (m <=? 0) || (12 <? m) then None else
  match skipDot r3 with
  | None => None
  | Some r4 =>
  match getyear4 r4 with
  | None => None
  | Some (y, r5) =>
  match r5 with
  | String _ _ => None
  | EmptyString =>
      if (d <? 1) || (daysIn m y <? d) then None
      else Some {| year := y; month := m; day := d |}
  end end end end end end.

(** [t.After(u)]. *)
Definition After (t u : Time) : bool :=
  (year u <? year t)
  || ((year u =? year t)
      && ((month u <? month t)
          || ((month u =? month t) && (day u <? day t)))).

(* ================================================================== *)
(** ** Conversion of the operations into account values *)

(** The date of an account change: its day and month with the year of the
    previous value, or with the next year when that falls before the
    previous value.  A year has four digits, so the [int] addition is not
    wrapped. *)
Definition resolveDate (opDate : string) (prevDate : Time) : Time + Err :=
  let s := opDate +:+ "." +:+ itoa (year prevDate) in
  match timeParse s with
  | None => inr (ErrTimeParse s)
  | Some date =>
      if After prevDate date then
        let s1 := opDate +:+ "." +:+ itoa (year prevDate + 1) in
        match timeParse s1 with
        | None => inr (ErrTimeParse s1)
        | Some date1 => inl date1
        end
      else inl date
  end.

(** The loop of [convertOpsToValues]. *)
Fixpoint convertFrom (ops : list Op) (values : list AccountValue)
    (total : Z) : list AccountValue * option Err :=
  match ops with
  | [] => (values, None)
  | op :: rest =>
      if IsTotal op then
        if negb (Value op =? total)
        then ([], Some (ErrTotalMismatch op total))
        else
          match timeParse (Date op) with
          | None => ([], Some (ErrTimeParse (Date op)))
          | Some date =>
              convertFrom rest
                (values ++ [{| VDate := date; VSource := Source op;
                               VValue := total |}]) total
          end
      else
        let total1 := wrap64 (total + Value op) in
        match last values with
        | None => ([], Some (ErrOrphan op))
        | Some prev =>
            match resolveDate (Date op) (VDate prev) with
            | inl date =>
                convertFrom rest
                  (values ++ [{| VDate := date; VSource := Source op;
                                 VValue := total1 |}]) total1
            | inr err => ([], Some err)
            end
        end
  end.

(** [ops[i]], for an index that the caller has checked. *)
Definition opAt (ops : list Op) (i : nat) : Op := nth i ops emptyOp.

Definition convertOpsToValues (ops : list Op)
    : list AccountValue * option Err :=
  if (length ops <? 2)%nat then ([], Some (ErrNotEnough (length ops)))
  else
    let first := opAt ops 0 in
    if negb (IsTotal first) then ([], Some (ErrFirstNotTotal first))
    else
      let lst := opAt ops (length ops - 1) in
      if negb (IsTotal lst) then ([], Some (ErrLastNotTotal lst))
      else convertFrom ops [] (Value first).

(* ================================================================== *)
(** ** Notions used to state the properties *)

(** The errors of [convertOpsToValues] raised before any operation is
    processed: too few operations, or no account state at either end. *)
Definition boundaryError (e : Err) : Prop :=
  match e with
  | ErrNotEnough _ | ErrFirstNotTotal _ | ErrLastNotTotal _ => True
  | _ => False
  end.

(** What one turn of the loop of [convertOpsToValues] establishes between
    the operation [op], the value [v] emitted for it, the previous value
    [prev] and the running total [total] before the turn. *)
Definition stepOk (prev : option AccountValue) (total : Z) (op : Op)
    (v : AccountValue) : Prop :=
  VSource v = Source op /\
  if IsTotal op
  then Value op = total /\ VValue v = total
       /\ timeParse (Date op) = Some (VDate v)
  else VValue v = wrap64 (total + Value op)
       /\ exists pv, prev = Some pv
            /\ resolveDate (Date op) (VDate pv) = inl (VDate v).

Fixpoint follows (prev : option AccountValue) (total : Z) (ops : list Op)
    (vals : list AccountValue) : Prop :=
  match ops, vals with
  | [], [] => True
  | op :: ops', v :: vals' =>
      stepOk prev total op v /\ follows (Some v) (VValue v) ops' vals'
  | _, _ => False
  end.

(** Sample operations: an account state and an account change as the
    parser builds them. *)
Definition accountState (date : string) (value : Z) : Op :=
  {| Date := date; Source := "SOLDE CREDITEUR AU"; SourceCol := -1;
     Value := value; HasValue := true; IsTotal := true |}.

Definition accountChange (date source : string) (value : Z) : Op :=
  {| Date := date; Source := source; SourceCol := 100;
     Value := value; HasValue := true; IsTotal := false |}.

Definition civil (y m d : Z) : Time := {| year := y; month := m; day := d |}.

(** *** Amounts as the reports print them *)

Definition digitChar (d : Z) : ascii := ascii_of_N (Z.to_N (48 + d)).

(** A number below 100 on two digits, a number below 1000 on three. *)
Definition pad2 (n : Z) : string :=
  String (digitChar (n / 10)) (String (digitChar (n mod 10)) "").

Definition pad3 (n : Z) : string :=
  String (digitChar (n / 100)) (pad2 (n mod 100)).

(** The amount [N], in cents, as the fragments "H" "," "LL". *)
Definition formatShort (N c1 c2 c3 : Z) : list Word :=
  [ {| Column := c1; Str := itoa (N / 100) |};
    {| Column := c2; Str := "," |};
    {| Column := c3; Str := pad2 (N mod 100) |} ].

(** The amount [N], in cents, as the fragments "T" "." "H" "," "LL", [H]
    being the three digits of the hundreds. *)
Definition formatLong (N c1 c2 c3 c4 c5 : Z) : list Word :=
  [ {| Column := c1; Str := itoa (N / 100000) |};
    {| Column := c2; Str := "." |};
    {| Column := c3; Str := pad3 ((N / 100) mod 1000) |};
    {| Column := c4; Str := "," |};
    {| Column := c5; Str := pad2 (N mod 100) |} ].

(** The words end with a number and a dot: what [stripValue] takes for
    the thousands of an amount. *)
Definition endsWithThousands (words : list Word) : bool :=
  match rev words with
  | d :: t :: _ => String.eqb (Str d) "." && reDigits (Str t)
  | _ => false
  end.

(** *** Lines as the reports have them *)

Definition word (c : Z) (s : string) : Word := {| Column := c; Str := s |}.

(** A line as [extractStreamLines] builds it: its text is its words
    joined by spaces. *)
Definition lineOf (words : list Word) : Line :=
  {| LineValue := joinWords words; Words := words |}.

(** The words of a line that [parseOpLine] keeps for the source label:
    those left once a leading date and a trailing amount are removed. *)
Definition remainingWords (line : Line) : list Word :=
  let '(w, _) := stripDate (LineValue line) (Words line) in
  let '(w1, _, _) := stripValue (LineValue line) w in
  w1.

(** The operation a dateless operation [op] with an amount leaves at the
    end of the list, [prev] being the last operation before it. *)
Definition mergedInto (prev op : Op) : Op :=
  {| Date := Date prev;
     Source := if negb (String.eqb (Source op) "")
                  && (SourceCol op =? SourceCol prev)
               then Source prev +:+ Source op else Source prev;
     SourceCol := SourceCol prev;
     Value := Value op;
     HasValue := true;
     IsTotal := IsTotal prev |}.

(** *** Counting columns *)

(** The number of operations of [ops] whose source column is [c]. *)
Definition countCol (c : Z) (ops : list Op) : Z :=
  Z.of_nat (length (List.filter (fun op => SourceCol op =? c) ops)).

(** No operation of [ops] has a defined (non-negative) source column. *)
Definition noColumn (ops : list Op) : Prop :=
  forall op, In op ops -> SourceCol op < 0.

(** The state of the first loop of [filterOnSourceColumn] once the
    operations [p] have been scanned. *)
Definition voteInv (p : list Op) (st : gmap Z Z * Z * Z) : Prop :=
  let '(cols, maxCol, maxCount) := st in
  (forall c, 0 <= c -> default 0 (cols !! c) = countCol c p)
  /\ ((noColumn p /\ maxCol = -1 /\ maxCount = -1)
      \/ (0 <= maxCol /\ 1 <= maxCount /\ maxCount = countCol maxCol p
          /\ (forall c, 0 <= c -> countCol c p <= maxCount)
          /\ (forall c, 0 <= c -> c <> maxCol -> countCol c p = maxCount ->
              exists q s, p = q ++ s /\ countCol maxCol q = maxCount
                          /\ countCol c q < maxCount))).

(** *** Keys seen so far *)

(** [seen[h]]: a missing key reads as [false]. *)
Definition isSeen (seen : gmap string bool) (h : string) : bool :=
  default false (seen !! h).

(** The pages of a document that [extractOps] handled without error. *)
Definition okPages (pages : list (list Op)) : list (list Op * option Err) :=
  map (fun ops => (ops, None)) pages.

(** The operations of [ops] that the inner loop of [extractPDFOps]
    appends, and the keys it has marked at the end. *)
Fixpoint newOps (seen : gmap string bool) (ops : list Op) : list Op :=
  match ops with
  | [] => []
  | op :: rest =>
      if isSeen seen (hashOp op) then newOps seen rest
      else op :: newOps (<[hashOp op := true]> seen) rest
  end.

Definition markAll (seen : gmap string bool) (ops : list Op)
    : gmap string bool :=
  fold_left (fun s op => <[hashOp op := true]> s) ops seen.

(** *** A sample object graph

    Four objects: the root 0 is a dictionary with the entries A (identity
    1, object 1) and B (identity 2, object 2); object 1 is an array whose
    entries are object 3 (identity 3) and object 1 itself (identity 1);
    object 2 is a dictionary with the entry C (identity 3, object 3);
    object 3 is a dictionary with the entry Parent (identity 2, object
    2).  Object 3 is shared, and the graph has two cycles. *)
Definition sampleGraph : PdfValue nat :=
  {| Kind v := match v with
               | 0%nat | 2%nat | 3%nat => Dict
               | 1%nat => Array
               | _ => Scalar
               end;
     Keys v := match v with
               | 0%nat => ["A"; "B"]
               | 2%nat => ["C"]
               | 3%nat => ["Parent"]
               | _ => []
               end;
     KeyId v k := match v with
                  | 0%nat => if String.eqb k "A" then 1%N else 2%N
                  | 2%nat => 3%N
                  | _ => 2%N
                  end;
     Key v k := match v with
                | 0%nat => if String.eqb k "A" then 1%nat else 2%nat
                | 2%nat => 3%nat
                | _ => 2%nat
                end;
     Len v := match v with 1%nat => 2%nat | _ => 0%nat end;
     IndexId v i := match i with 0%nat => 3%N | _ => 1%N end;
     Index v i := match i with 0%nat => 3%nat | _ => 1%nat end |}.

(** A callback that records the objects it is given and fails on the
    object [stop]. *)
Definition recordUntil (stop : nat) (v : nat) (s : list nat)
    : list nat * option string :=
  (s ++ [v], if Nat.eqb v stop then Some "stop" else None).

(** The result of [walkNode]: the map of identities with what the
    callbacks left. *)
Definition withSeen {E S : Type} (seen : gset N) (r : S * option E)
    : gset N * S * option E :=
  (seen, fst r, snd r).

(** A dictionary whose only entry, of identity 7, leads back to the
    dictionary itself. *)
Definition selfGraph : PdfValue nat :=
  {| Kind _ := Dict;
     Keys _ := ["Self"];
     KeyId _ _ := 7%N;
     Key v _ := v;
     Len _ := 0%nat;
     IndexId _ _ := 0%N;
     Index v _ := v |}.

(* ================================================================== *)
(** ** Notions used to state further properties *)

(** The text is made of digits and dots only. *)
Fixpoint dateChars (s : string) : bool :=
  match s with
  | EmptyString => true
  | String c r => (isDigit c || Ascii.eqb c ".") && dateChars r
  end.

(** The words begin with a number, a dot and a number: what [stripDate]
    takes for a date. *)
Definition startsWithDate (words : list Word) : bool :=
  match words with
  | h :: d :: t :: _ =>
      reDigits (Str h) && String.eqb (Str d) "." && reDigits (Str t)
  | _ => false
  end.

(** The digits of an amount held by the three or five words [tail]. *)
Definition amountDigits (tail : list Word) : string :=
  match tail with
  | [h; _; t] => Str h +:+ Str t
  | [k; _; h; _; t] => Str k +:+ (Str h +:+ Str t)
  | _ => ""
  end.

(** What [parseOps] guarantees of an operation it returns. *)
Definition wellFormedOp (op : Op) : Prop :=
  Date op <> "" /\ dateChars (Date op) = true
  /\ - maxInt64 <= Value op <= maxInt64
  /\ (HasValue op = false -> Value op = 0)
  /\ (IsTotal op = true ->
      SourceCol op = -1 /\ HasValue op = true
      /\ String.length (Date op) = 10%nat).

(** A line that ends the lines of a page for [parseOps], and a line that
    [parseOps] passes over. *)
Definition isFooter (line : Line) : bool :=
  HasPrefix (LineValue line) "BNP PARIBAS SA : capital de"
  || HasPrefix (LineValue line) "Montant de votre autorisation".

Definition isSummary (line : Line) : bool :=
  HasPrefix (LineValue line) "TOTAL DES MONTANTS".

(** The operations that the lines yield one by one, before any
    consolidation: those of the lines before the first footer, summary
    lines and lines without operation left out. *)
Fixpoint lineOps (lines : list Line) : list Op :=
  match lines with
  | [] => []
  | line :: rest =>
      if isSummary line then lineOps rest
      else if isFooter line then []
      else
        match parseLine line with
        | (Some op, None) => op :: lineOps rest
        | (None, None) => lineOps rest
        | (_, Some _) => []
        end
  end.

Definition hasDate (op : Op) : bool := negb (String.eqb (Date op) "").

(** What consolidation never changes of an operation. *)
Definition opFrame (op : Op) : string * Z * bool :=
  (Date op, SourceCol op, IsTotal op).


(** The text has no hyphen. *)
Fixpoint noDash (s : string) : bool :=
  match s with
  | EmptyString => true
  | String c r => negb (Ascii.eqb c "-") && noDash r
  end.

(** What [hashOp] reads of an operation. *)
Definition opTriple (op : Op) : string * string * Z :=
  (Date op, Source op, Value op).

(** The key as a function of what [hashOp] reads. *)
Definition tripleKey (t : string * string * Z) : string :=
  let '(date, source, value) := t in
  date +:+ "-" +:+ source +:+ "-"
  +:+ ("%!f(int64=" +:+ itoa value +:+ ")").

(** The characters of the end of a key: those of a number, and the
    closing parenthesis. *)
Definition numberChar (c : ascii) : bool :=
  isDigit c || Ascii.eqb c "-" || Ascii.eqb c ")".


(** *** Calendar dates *)

(** The date is one of the calendar, in the years 0 to 9999. *)
Definition validDate (t : Time) : Prop :=
  0 <= year t <= 9999 /\ 1 <= month t <= 12
  /\ 1 <= day t <= daysIn (month t) (year t).

Definition pad4 (n : Z) : string :=
  String (digitChar (n / 1000)) (pad3 (n mod 1000)).

(** The date in the layout "02.01.2006". *)
Definition formatDate (t : Time) : string :=
  pad2 (day t) +:+ "." +:+ pad2 (month t) +:+ "." +:+ pad4 (year t).

(** The sum of the amounts of the account changes of [ops]. *)
Fixpoint sumChanges (ops : list Op) : Z :=
  match ops with
  | [] => 0
  | op :: rest => (if IsTotal op then 0 else Value op) + sumChanges rest
  end.

(* ================================================================== *)
(** ** Charts (web frontend) *)

(** [Matcher]: the predicate on sources built from the ignore file. *)
Definition Matcher := string -> bool.

(** The loop of [filterValues]. [i] is the index in [values] of the head
    of [todo]; [None] is an index out of range. *)
Fixpoint filterLoop (m : Matcher) (values : list AccountValue) (i : nat)
    (todo kept : list AccountValue) : option (list AccountValue) :=
  match todo with
  | [] => Some kept
  | v :: rest =>
      if m (VSource v) then filterLoop m values (Datatypes.S i) rest kept
      else
        match last kept with
        | None => filterLoop m values (Datatypes.S i) rest (kept ++ [v])
        | Some k =>
            match i with
            | O => None
            | Datatypes.S j =>
                match values !! j with
                | None => None
                | Some p =>
                    let delta := wrap64 (VValue v - VValue p) in
                    filterLoop m values (Datatypes.S i) rest
                      (kept ++ [{| VDate := VDate v; VSource := VSource v;
                                   VValue := wrap64 (VValue k + delta) |}])
                end
            end
        end
  end.

Definition filterValues (values : list AccountValue) (m : Matcher)
    : option (list AccountValue) :=
  if (length values =? 0)%nat then Some values
  else filterLoop m values 0 values [].

Record WebValue := { WX : Z; WY : Z; WSource : string; WDelta : Z }.

(** The loop of [embedJson] that builds [webs]; [Unix] is
    [time.Time.Unix]. [None] is an index out of range. *)
Fixpoint websLoop (Unix : Time -> Z) (values : list AccountValue) (i : nat)
    (todo : list AccountValue) (webs : list WebValue)
    : option (list WebValue) :=
  match todo with
  | [] => Some webs
  | v :: rest =>
      let delta :=
        match i with
        | O => Some 0
        | Datatypes.S j =>
            match values !! j with
            | None => None
            | Some p => Some (wrap64 (VValue v - VValue p))
            end
        end in
      match delta with
      | None => None
      | Some d =>
          websLoop Unix values (Datatypes.S i) rest
            (webs ++ [{| WX := Unix (VDate v); WY := VValue v;
                         WSource := VSource v; WDelta := d |}])
      end
  end.

Definition webValues (Unix : Time -> Z) (values : list AccountValue)
    : option (list WebValue) :=
  websLoop Unix values 0 values [].

(** *** Notions used to state the properties of the charts *)

(** The chart points of [todo] when the balance before it is [prev]. *)
Fixpoint websAfter (Unix : Time -> Z) (prev : option Z)
    (todo : list AccountValue) : list WebValue :=
  match todo with
  | [] => []
  | v :: rest =>
      {| WX := Unix (VDate v); WY := VValue v; WSource := VSource v;
         WDelta := match prev with
                   | None => 0
                   | Some p => wrap64 (VValue v - p)
                   end |}
      :: websAfter Unix (Some (VValue v)) rest
  end.

(** The values [filterValues] keeps from [todo] when the input balance
    before it is [prevIn] and the last balance kept is [lastKept]. *)
Fixpoint rebase (m : Matcher) (prevIn : Z) (lastKept : option Z)
    (todo : list AccountValue) : list AccountValue :=
  match todo with
  | [] => []
  | v :: rest =>
      if m (VSource v) then rebase m (VValue v) lastKept rest
      else
        let v' :=
          match lastKept with
          | None => v
          | Some k =>
              {| VDate := VDate v; VSource := VSource v;
                 VValue := wrap64 (k + wrap64 (VValue v - prevIn)) |}
          end in
        v' :: rebase m (VValue v) (Some (VValue v')) rest
  end.

(** A chart point without its balance. *)
Definition chartPoint (w : WebValue) : Z * string * Z :=
  (WX w, WSource w, WDelta w).

Definition shown (m : Matcher) (w : WebValue) : bool := negb (m (WSource w)).

(** The first point of a chart has no change. *)
Definition resetFirst (webs : list WebValue) : list WebValue :=
  match webs with
  | [] => []
  | w :: rest =>
      {| WX := WX w; WY := WY w; WSource := WSource w; WDelta := 0 |} :: rest
  end.

(** The change a chart shows for an operation. *)
Definition chartChange (op : Op) (w : WebValue) : Prop :=
  WSource w = Source op
  /\ WDelta w = if IsTotal op then 0 else wrap64 (Value op).

(* ================================================================== *)
(** ** Stream filters *)

Section Streams.
(** [R] stands for [io.ReadCloser]: [NewReader] is [flate.NewReader] and
    [CloseOf r] is what [r.Close()] returns. *)
Context {R E : Type}.
Variable NewReader : R -> R.
Variable CloseOf : R -> option E.

Record MultiCloser := { Readers : list R }.

(** [MultiCloser.Read]: the reader the call is delegated to; [None] is an
    index out of range. *)
Definition MultiCloser_Read (r : MultiCloser) : option R :=
  match length (Readers r) with
  | O => None
  | Datatypes.S n => Readers r !! n
  end.

(** The loop of [MultiCloser.Close]; [closed] lists the readers closed so
    far, in order. *)
Fixpoint closeLoop (readers closed : list R) (err : option E)
    : list R * option E :=
  match readers with
  | [] => (closed, err)
  | r :: rest =>
      match CloseOf r with
      | Some e => closeLoop rest (closed ++ [r]) (Some e)
      | None => closeLoop rest (closed ++ [r]) err
      end
  end.

Definition MultiCloser_Close (r : MultiCloser) : list R * option E :=
  closeLoop (Readers r) [] None.

(** The loop of [extractStream]. *)
Fixpoint extractStreamFrom (r : R) (readers : list R) (filters : list string)
    : MultiCloser + Err :=
  match filters with
  | [] => inl {| Readers := readers |}
  | f :: rest =>
      if String.eqb f "FlateDecode"
      then let r' := NewReader r in
           extractStreamFrom r' (readers ++ [r']) rest
      else inr (ErrPage ("unknown stream filter: " +:+ f))
  end.

Definition extractStream (r : R) (filters : list string)
    : MultiCloser + Err :=
  extractStreamFrom r [r] filters.

(** [r] under [n] decoders. *)
Definition stacked (r : R) (n : nat) : R := Nat.iter n NewReader r.
End Streams.

Arguments MultiCloser : clear implicits.

(* ================================================================== *)
(** ** Actions of a stream *)

(** A token of [pdf.Tokenize]; [A] stands for the values a token
    carries. *)
Record Token (A : Type) := { TKind : string; TValue : A }.
Arguments TKind {A} _.
Arguments TValue {A} _.

Section Tokenize.
Context {A S E : Type}.
(** The type assertion [t.Value.(string)]. *)
Variable asString : A -> option string.
(** The callback is a closure: [S] is the state it captures; it reads
    [args] during the call only. *)
Variable callback : string -> list A -> S -> S * option E.

(** The loop of [tokenize] over the tokens [pdf.Tokenize] returns;
    [None] is a failed type assertion. *)
Fixpoint tokenizeLoop (tokens : list (Token A)) (args : list A) (s : S)
    : option (S * option E) :=
  match tokens with
  | [] => Some (s, None)
  | t :: rest =>
      if String.eqb (TKind t) "keyword" then
        match asString (TValue t) with
        | None => None
        | Some keyword =>
            let '(s1, err) := callback keyword args s in
            match err with
            | Some e => Some (s1, Some e)
            | None => tokenizeLoop rest [] s1
            end
        end
      else tokenizeLoop rest (args ++ [TValue t]) s
  end.

Definition tokenize (tokens : list (Token A)) (s : S)
    : option (S * option E) :=
  tokenizeLoop tokens [] s.

(** An action is a keyword token after its operands.  Running the
    actions in order: the callback receives the name of the keyword and
    the values of the operands. *)
Fixpoint runActions (actions : list (list (Token A) * Token A)) (s : S)
    : option (S * option E) :=
  match actions with
  | [] => Some (s, None)
  | (operands, keyword) :: rest =>
      match asString (TValue keyword) with
      | None => None
      | Some name =>
          let '(s1, err) := callback name (map TValue operands) s in
          match err with
          | Some e => Some (s1, Some e)
          | None => runActions rest s1
          end
      end
  end.
End Tokenize.

Definition isOperand {A} (t : Token A) : Prop := TKind t <> "keyword".

Definition isAction {A} (a : list (Token A) * Token A) : Prop :=
  Forall isOperand (fst a) /\ TKind (snd a) = "keyword".

(** The tokens of a list of actions. *)
Definition actionTokens {A} (actions : list (list (Token A) * Token A))
    : list (Token A) :=
  flat_map (fun a => fst a ++ [snd a]) actions.

(* ================================================================== *)
(** ** Reports *)

(** The operands of one [fmt.Printf] of [extractFileValues]: balance and
    change, each as euros and cents.  [int] has 64 bits; the date is kept
    as the date [Format] prints. *)
Record ReportLine := {
  RDate : Time; RH : Z; RL : Z; RDh : Z; RDl : Z; RSource : string
}.

Definition reportLine (prev : Z) (v : AccountValue) : ReportLine :=
  let h := Z.quot (VValue v) 100 in
  let l := Z.rem (VValue v) 100 in
  let '(dh, dl) :=
    if 0 <=? prev then
      let delta := wrap64 (VValue v - prev) in
      if 0 <? delta then (Z.quot delta 100, Z.rem delta 100)
      else (wrap64 (- Z.quot (wrap64 (- delta)) 100),
            Z.rem (wrap64 (- delta)) 100)
    else (0, 0) in
  {| RDate := VDate v; RH := h; RL := l; RDh := dh; RDl := dl;
     RSource := VSource v |}.

(** The loop over the values of one report. *)
Fixpoint reportLines (values : list AccountValue) (prev : Z)
    : list ReportLine :=
  match values with
  | [] => []
  | v :: rest => reportLine prev v :: reportLines rest (VValue v)
  end.

(** What [extractFileValues] returns, with what it writes on the
    standard error and on the standard output. *)
Record FilesResult := {
  FValues : list AccountValue;
  FErr : option Err;
  FStderr : list (string * Err);
  FStdout : list ReportLine
}.

(** A file is given by its name and by what [pdf.Open] returns for it:
    an error, or a reader, given by its pages. *)
Definition File : Type := string * (Err + list (list Op * option Err)).

Definition newline : string := String (ascii_of_N 10) "".

(** [failed] counts files, whose number is an [int]. *)
Fixpoint extractFilesFrom (files : list File) (failed : nat)
    (stderr : list (string * Err)) (stdout : list ReportLine)
    (allValues : list AccountValue) : FilesResult :=
  match files with
  | [] =>
      if (0 <? failed)%nat
      then {| FValues := [];
              FErr := Some (ErrPage (itoa (Z.of_nat failed)
                                     +:+ " reports failed" +:+ newline));
              FStderr := stderr; FStdout := stdout |}
      else {| FValues := allValues; FErr := None;
              FStderr := stderr; FStdout := stdout |}
  | (file, opened) :: rest =>
      match opened with
      | inl e => {| FValues := []; FErr := Some e;
                    FStderr := stderr; FStdout := stdout |}
      | inr pages =>
          match extractPDFOps pages with
          | (_, Some e) =>
              extractFilesFrom rest (Datatypes.S failed)
                (stderr ++ [(file, e)]) stdout allValues
          | (ops, None) =>
              match convertOpsToValues ops with
              | (_, Some e) =>
                  extractFilesFrom rest (Datatypes.S failed)
                    (stderr ++ [(file, e)]) stdout allValues
              | (values, None) =>
                  extractFilesFrom rest failed stderr
                    (stdout ++ reportLines values (-1))
                    (allValues ++ values)
              end
          end
      end
  end.

Definition extractFileValues (files : list File) : FilesResult :=
  extractFilesFrom files 0 [] [] [].

(** *** Notions used to state the properties of reports *)

(** What one report gives: its values, or the error of its extraction
    or of its conversion. *)
Definition reportValues (pages : list (list Op * option Err))
    : list AccountValue * option Err :=
  match extractPDFOps pages with
  | (_, Some e) => ([], Some e)
  | (ops, None) =>
      match convertOpsToValues ops with
      | (_, Some e) => ([], Some e)
      | (values, None) => (values, None)
      end
  end.

Definition opens (f : File) : Prop :=
  match snd f with inl _ => False | inr _ => True end.

Definition accepted (f : File) : Prop :=
  match snd f with
  | inl _ => False
  | inr pages => snd (reportValues pages) = None
  end.

Definition fileValues (f : File) : list AccountValue :=
  match snd f with
  | inl _ => []
  | inr pages => fst (reportValues pages)
  end.

(** The reports that open and fail, with their errors. *)
Definition failure (f : File) : option (string * Err) :=
  match snd f with
  | inl _ => None
  | inr pages =>
      match snd (reportValues pages) with
      | Some e => Some (fst f, e)
      | None => None
      end
  end.

(* ================================================================== *)
(** ** Operations of a page *)

Section ExtractOps.
Context {V R : Type} `{PdfValue V}.
(** [pdf.Value.Name] and [pdf.Value.Reader]; [flate.NewReader]. *)
Variable Name : V -> string.
Variable Reader : V -> R.
Variable NewReader : R -> R.
(** [extractStreamLines] reads the stream through the tokenizer of the
    PDF library: what is proved of [extractOps] holds whatever lines it
    returns. *)
Variable extractStreamLines : MultiCloser R -> list Line * option Err.
(** The error [extractOps] builds from the error of [extractStreamLines]
    and from the keys of the stream. *)
Variable parseError : Err -> V -> Err.

(** The loop of the callback over the keys of a stream: the names of the
    filters, or [None] when the callback returns from inside the loop. *)
Fixpoint streamFilters (v : V) (keys : list string) (filters : list string)
    : option (list string) :=
  match keys with
  | [] => Some filters
  | k :: rest =>
      if String.eqb k "Length1"
         || (String.eqb k "Subtype" && String.eqb (Name (Key v k)) "Image")
      then None
      else if negb (String.eqb k "Filters") then streamFilters v rest filters
      else
        let values := Key v k in
        streamFilters v rest
          (filters ++ map (fun i => Name (Index values i))
                        (seq 0 (Len values)))
  end.

(** The callback [extractOps] gives to [walk]; its state is [allOps].
    The call [r.Close()], whose result the callback drops, is left out. *)
Definition collectOps (v : V) (allOps : list Op) : list Op * option Err :=
  match Kind v with
  | Stream =>
      match streamFilters v (Keys v) [] with
      | None => (allOps, None)
      | Some filters =>
          match extractStream NewReader (Reader v) filters with
          | inr e => (allOps, Some e)
          | inl r =>
              match extractStreamLines r with
              | (_, Some e) => (allOps, Some (parseError e v))
              | (lines, None) =>
                  match parseOps lines with
                  | (_, Some e) => (allOps, Some e)
                  | (ops, None) => (allOps ++ ops, None)
                  end
              end
          end
      end
  | _ => (allOps, None)
  end.

(** [None]: the bound on the depth of the walk was reached. *)
Definition extractOps (fuel : nat) (v : V) : option (list Op * option Err) :=
  match walk collectOps fuel v [] with
  | None => None
  | Some (allOps, err) => Some (filterOnSourceColumn allOps, err)
  end.

(** What one value of the page contributes. *)
Definition streamOps (v : V) : list Op * option Err := collectOps v [].

Definition parsed (v : V) : Prop := snd (streamOps v) = None.
End ExtractOps.

(** A page with a content stream (object 1) and a font program
    (object 2). *)
Definition samplePage : PdfValue nat :=
  {| Kind v := match v with 0%nat => Dict | _ => Stream end;
     Keys v := match v with
               | 0%nat => ["Contents"; "FontFile"]
               | 1%nat => ["Length"]
               | _ => ["Length1"]
               end;
     KeyId v k := if String.eqb k "Contents" then 1%N else 2%N;
     Key v k := if String.eqb k "Contents" then 1%nat else 2%nat;
     Len _ := 0%nat;
     IndexId _ _ := 0%N;
     Index v _ := v |}.

(* ================================================================== *)
(** * Properties *)

(** ** The conversion into account values *)

Lemma opAt_head ops first : head ops = Some first -> opAt ops 0 = first.
Proof. unfold opAt. destruct ops; simpl; congruence. Qed.

Lemma opAt_last ops lst :
  last ops = Some lst -> opAt ops (length ops - 1) = lst.
Proof.
  rewrite last_lookup. unfold opAt. rewrite nth_lookup.
  replace (length ops - 1)%nat with (pred (length ops)) by lia.
  by intros ->.
Qed.

Lemma convertFrom_follows ops : forall values total out,
  convertFrom ops values total = (out, None) ->
  exists new, out = values ++ new /\ follows (last values) total ops new.
Proof.
  induction ops as [|op rest IH]; intros values total out Hc; simpl in Hc.
  - inversion Hc; subst. exists []. rewrite app_nil_r. by simpl.
  - destruct (IsTotal op) eqn:Htot.
    + destruct (Value op =? total) eqn:Hv; simpl in Hc; [| inversion Hc].
      destruct (timeParse (Date op)) as [date|] eqn:Hd; [| inversion Hc].
      apply IH in Hc as (new & -> & Hf).
      rewrite last_snoc in Hf. simpl in Hf.
      eexists (_ :: new). split; [by rewrite <- app_assoc |].
      simpl. split; [| exact Hf].
      unfold stepOk. rewrite Htot. simpl.
      apply Z.eqb_eq in Hv. auto.
    + destruct (last values) as [pv|] eqn:Hl; [| inversion Hc].
      destruct (resolveDate (Date op) (VDate pv)) as [t | e] eqn:Hr;
        [| inversion Hc].
      apply IH in Hc as (new & -> & Hf).
      rewrite last_snoc in Hf. simpl in Hf.
      eexists (_ :: new). split; [by rewrite <- app_assoc |].
      simpl. split; [| exact Hf].
      unfold stepOk. rewrite Htot. simpl. eauto.
Qed.

Lemma follows_length ops : forall prev total vals,
  follows prev total ops vals -> length vals = length ops.
Proof.
  induction ops as [|op rest IH]; intros prev total [|v vals] Hf; simpl in *;
    try done.
  destruct Hf as [_ Hf]. f_equal. eauto.
Qed.

Lemma follows_lookup ops : forall prev total vals i op pv v,
  follows prev total ops vals ->
  ops !! (S i) = Some op -> vals !! i = Some pv -> vals !! (S i) = Some v ->
  stepOk (Some pv) (VValue pv) op v.
Proof.
  induction ops as [|o rest IH]; intros prev total [|v0 vals] i op pv v Hf Ho Hp Hv;
    simpl in *; try done.
  destruct Hf as [_ Hf].
  destruct i as [|i]; simpl in *.
  - inversion Hp; subst.
    destruct rest as [|o1 rest], vals as [|v1 vals]; simpl in *; try done.
    inversion Ho; inversion Hv; subst. tauto.
  - eapply IH; eauto.
Qed.

Lemma convert_accepted ops values :
  convertOpsToValues ops = (values, None) ->
  exists first, head ops = Some first /\ IsTotal first = true
    /\ (exists lst, last ops = Some lst /\ IsTotal lst = true)
    /\ (2 <= length ops)%nat
    /\ follows None (Value first) ops values.
Proof.
  unfold convertOpsToValues. intros Hc.
  destruct (length ops <? 2)%nat eqn:Hlen; [inversion Hc |].
  apply Nat.ltb_ge in Hlen.
  destruct (head ops) as [first|] eqn:Hh;
    [| destruct ops; simpl in *; [lia | done]].
  destruct (last ops) as [lst|] eqn:Hl;
    [| apply last_None in Hl; subst ops; simpl in Hlen; lia].
  rewrite (opAt_head _ _ Hh), (opAt_last _ _ Hl) in Hc.
  destruct (IsTotal first) eqn:Hf; simpl in Hc; [| inversion Hc].
  destruct (IsTotal lst) eqn:Hlt; simpl in Hc; [| inversion Hc].
  apply convertFrom_follows in Hc as (new & -> & Hfo). simpl in *.
  exists first. eauto 10.
Qed.

(** C6: [convertOpsToValues] fails, and returns no value, on every
    sequence of fewer than two operations and on every sequence whose first
    or last operation is not an account state; the error is one of the
    three raised before the loop. *)
Theorem convert_boundary_failure (ops : list Op) :
  (length ops < 2)%nat
  \/ (exists first, head ops = Some first /\ IsTotal first = false)
  \/ (exists lst, last ops = Some lst /\ IsTotal lst = false) ->
  exists e, convertOpsToValues ops = ([], Some e) /\ boundaryError e.
Proof.
  intros Hb. unfold convertOpsToValues.
  destruct (length ops <? 2)%nat eqn:Hlen;
    [eexists; split; [reflexivity | exact I] |].
  apply Nat.ltb_ge in Hlen.
  destruct Hb as [Hb | [(first & Hh & Hf) | (lst & Hl & Hf)]]; [lia | |].
  - rewrite (opAt_head _ _ Hh), Hf. simpl.
    eexists; (split; [reflexivity | exact I]).
  - rewrite (opAt_last _ _ Hl), Hf.
    destruct (IsTotal (opAt ops 0)); simpl;
      eexists; (split; [reflexivity | exact I]).
Qed.

Lemma convert_boundary_failure_witness :
  let ops := [accountChange "02.01" "CHEQUE" 500;
              accountState "03.01.2021" 500] in
  (exists first, head ops = Some first /\ IsTotal first = false)
  /\ exists e, convertOpsToValues ops = ([], Some e) /\ boundaryError e.
Proof.
  split.
  - eexists; split; reflexivity.
  - apply convert_boundary_failure. right; left.
    eexists; split; reflexivity.
Defined.

Lemma wrap64_small z : inInt64 z -> wrap64 z = z.
Proof.
  unfold inInt64, wrap64, minInt64, maxInt64. intros Hz.
  rewrite Z.mod_small; lia.
Qed.

(** C3 (as stated, refuted): a sequence accepted by [convertOpsToValues]
    whose second operation is an account change of 1 while the second
    balance is not the first balance plus 1: the running total has left
    the 64-bit range and wrapped around. *)
Lemma convert_balance_wraps :
  let ops := [accountState "31.12.2020" maxInt64;
              accountChange "02.01" "VIREMENT" 1;
              accountState "03.01.2021" minInt64] in
  exists v0 v1 v2,
    convertOpsToValues ops = ([v0; v1; v2], None)
    /\ VValue v1 - VValue v0 <> 1.
Proof.
  do 3 eexists. split; [vm_compute; reflexivity |]. vm_compute. discriminate.
Qed.

(** C3 (amended): for every sequence accepted by [convertOpsToValues]
    there is one value per operation; for all i > 0 the i-th balance is
    the (i-1)-th balance plus the amount of the i-th operation in 64-bit
    wrap-around arithmetic when that operation is an account change, and
    exactly so whenever the sum stays in the 64-bit range; it is the
    stated amount of the i-th operation, which equals the running total,
    when that operation is an account state; and the balance of the last
    value is the amount of the last account state. *)
Theorem convert_balances (ops : list Op) (values : list AccountValue) :
  convertOpsToValues ops = (values, None) ->
  length values = length ops
  /\ (forall i op pv v,
        ops !! (S i) = Some op -> values !! i = Some pv ->
        values !! (S i) = Some v ->
        if IsTotal op
        then VValue v = Value op /\ VValue v = VValue pv
        else VValue v = wrap64 (VValue pv + Value op)
             /\ (inInt64 (VValue pv + Value op) ->
                 VValue v - VValue pv = Value op))
  /\ (exists lst v, last ops = Some lst /\ last values = Some v
        /\ IsTotal lst = true /\ VValue v = Value lst).
Proof.
  intros Hc.
  destruct (convert_accepted _ _ Hc)
    as (first & Hh & Hft & (lst & Hl & Hlt) & Hlen & Hf).
  pose proof (follows_length _ _ _ _ Hf) as Hlv.
  split; [exact Hlv |]. split.
  - intros i op pv v Ho Hp Hv.
    pose proof (follows_lookup _ _ _ _ _ _ _ _ Hf Ho Hp Hv) as [_ Hs].
    destruct (IsTotal op).
    + destruct Hs as (-> & -> & _). auto.
    + destruct Hs as (-> & _). split; [reflexivity |].
      intros Hr. rewrite wrap64_small by exact Hr. lia.
  - destruct (last values) as [v|] eqn:Hlast.
    2:{ apply last_None in Hlast. subst values. simpl in Hlv. lia. }
    exists lst, v. repeat split; auto.
    rewrite last_lookup in Hl. rewrite last_lookup in Hlast.
    destruct (length ops) as [|[|n]] eqn:Hn; [lia | lia |].
    rewrite Hlv in Hlast. simpl in Hl, Hlast.
    destruct (lookup_lt_is_Some_2 values n) as [pv Hpv]; [lia |].
    pose proof (follows_lookup _ _ _ _ _ _ _ _ Hf Hl Hpv Hlast) as [_ Hs].
    rewrite Hlt in Hs. destruct Hs as (-> & -> & _). reflexivity.
Qed.

Lemma convert_balances_witness :
  let ops := [accountState "31.12.2020" 10000;
              accountChange "02.01" "VIREMENT" (-2500);
              accountState "03.01.2021" 7500] in
  let values := [{| VDate := civil 2020 12 31;
                    VSource := "SOLDE CREDITEUR AU"; VValue := 10000 |};
                 {| VDate := civil 2021 1 2;
                    VSource := "VIREMENT"; VValue := 7500 |};
                 {| VDate := civil 2021 1 3;
                    VSource := "SOLDE CREDITEUR AU"; VValue := 7500 |}] in
  convertOpsToValues ops = (values, None)
  /\ length values = length ops
  /\ (forall i op pv v,
        ops !! (S i) = Some op -> values !! i = Some pv ->
        values !! (S i) = Some v ->
        if IsTotal op
        then VValue v = Value op /\ VValue v = VValue pv
        else VValue v = wrap64 (VValue pv + Value op)
             /\ (inInt64 (VValue pv + Value op) ->
                 VValue v - VValue pv = Value op))
  /\ (exists lst v, last ops = Some lst /\ last values = Some v
        /\ IsTotal lst = true /\ VValue v = Value lst).
Proof.
  split; [vm_compute; reflexivity |].
  apply convert_balances. vm_compute. reflexivity.
Defined.



(** ** Decimal numbers *)

Lemma allDigits_app s1 s2 :
  allDigits (s1 +:+ s2) = allDigits s1 && allDigits s2.
Proof.
  induction s1 as [|c s1 IH]; simpl; [reflexivity |].
  rewrite IH. by rewrite andb_assoc.
Qed.

Lemma digitsValue_app s1 s2 acc :
  digitsValue (s1 +:+ s2) acc = digitsValue s2 (digitsValue s1 acc).
Proof.
  revert acc. induction s1 as [|c s1 IH]; intros acc; simpl; [reflexivity |].
  apply IH.
Qed.

Lemma reDigits_app s1 s2 :
  reDigits s1 = true -> allDigits s2 = true -> reDigits (s1 +:+ s2) = true.
Proof.
  destruct s1 as [|c s1]; [discriminate |]. intros H1 H2.
  change (allDigits (String c s1 +:+ s2) = true).
  rewrite allDigits_app, H2, andb_true_r. exact H1.
Qed.

Lemma reDigits_all s : reDigits s = true -> allDigits s = true.
Proof. destruct s; [discriminate | auto]. Qed.

Lemma allDigits_uint d : allDigits (NilEmpty.string_of_uint d) = true.
Proof. induction d; simpl; auto. Qed.

Lemma digitsValue_uint_acc d : forall acc : positive,
  digitsValue (NilEmpty.string_of_uint d) (Z.pos acc)
  = Z.pos (Pos.of_uint_acc d acc).
Proof.
  induction d; intros acc; simpl; try reflexivity;
    unfold digitValue; simpl; rewrite <- IHd; f_equal; lia.
Qed.

Lemma digitsValue_uint d :
  digitsValue (NilEmpty.string_of_uint d) 0 = Z.of_N (Pos.of_uint d).
Proof.
  induction d; simpl; try reflexivity; try exact IHd;
    unfold digitValue; simpl; apply digitsValue_uint_acc.
Qed.

Lemma string_of_uint_nonempty d :
  d <> Decimal.Nil -> NilEmpty.string_of_uint d <> "".
Proof. destruct d; simpl; congruence. Qed.

Lemma to_uint_nonnil n : N.to_uint n <> Decimal.Nil.
Proof.
  destruct n; simpl; [discriminate | apply Unsigned.to_uint_nonnil].
Qed.

Lemma itoa_digits n : 0 <= n -> reDigits (itoa n) = true.
Proof.
  intros Hn. unfold itoa. destruct (n <? 0) eqn:Hneg; [lia |].
  unfold reDigits.
  pose proof (string_of_uint_nonempty _ (to_uint_nonnil (Z.to_N n))) as Hne.
  destruct (NilEmpty.string_of_uint (N.to_uint (Z.to_N n))) eqn:Hs;
    [congruence |].
  rewrite <- Hs. apply allDigits_uint.
Qed.

Lemma itoa_value n : 0 <= n -> digitsValue (itoa n) 0 = n.
Proof.
  intros Hn. unfold itoa. destruct (n <? 0) eqn:Hneg; [lia |].
  rewrite digitsValue_uint.
  change (Pos.of_uint (N.to_uint (Z.to_N n))) with (N.of_uint (N.to_uint (Z.to_N n))).
  rewrite DecimalN.Unsigned.of_to. lia.
Qed.

Lemma digitChar_spec d :
  0 <= d <= 9 -> isDigit (digitChar d) = true /\ digitValue (digitChar d) = d.
Proof.
  intros Hd.
  assert (Hc : d = 0 \/ d = 1 \/ d = 2 \/ d = 3 \/ d = 4 \/ d = 5 \/ d = 6
               \/ d = 7 \/ d = 8 \/ d = 9) by lia.
  repeat (destruct Hc as [-> | Hc]; [split; reflexivity |]).
  subst. split; reflexivity.
Qed.

Lemma pad2_spec n acc :
  0 <= n < 100 ->
  allDigits (pad2 n) = true /\ String.length (pad2 n) = 2%nat
  /\ digitsValue (pad2 n) acc = acc * 100 + n.
Proof.
  intros Hn. unfold pad2.
  destruct (digitChar_spec (n / 10)) as [Hd1 Hv1].
  { split; [apply Z.div_pos; lia | apply Z.lt_succ_r, Z.div_lt_upper_bound; lia]. }
  destruct (digitChar_spec (n mod 10)) as [Hd2 Hv2].
  { pose proof (Z.mod_pos_bound n 10). lia. }
  simpl. rewrite Hd1, Hd2, Hv1, Hv2. repeat split.
  pose proof (Z.div_mod n 10). lia.
Qed.

Lemma pad3_spec n acc :
  0 <= n < 1000 ->
  reDigits (pad3 n) = true
  /\ digitsValue (pad3 n) acc = acc * 1000 + n.
Proof.
  intros Hn. unfold pad3.
  destruct (digitChar_spec (n / 100)) as [Hd1 Hv1].
  { split; [apply Z.div_pos; lia | apply Z.lt_succ_r, Z.div_lt_upper_bound; lia]. }
  destruct (pad2_spec (n mod 100) (acc * 10 + n / 100)) as (Ha & _ & Hv).
  { pose proof (Z.mod_pos_bound n 100). lia. }
  split.
  - simpl. simpl in Ha. rewrite Hd1. exact Ha.
  - cbn [digitsValue]. rewrite Hv1, Hv.
    pose proof (Z.div_mod n 100). lia.
Qed.

(** On a text made of digits [ParseInt] fails exactly when the number is
    above the largest [int64]. *)
Lemma ParseInt_digits s :
  reDigits s = true ->
  ParseInt s
  = if digitsValue s 0 <=? maxInt64 then Some (digitsValue s 0) else None.
Proof.
  intros Hd. unfold ParseInt.
  destruct s as [|c r]; [discriminate |].
  assert (Hc : isDigit c = true).
  { simpl in Hd. by apply andb_prop in Hd as [? _]. }
  assert (Hm : Ascii.eqb c "-" = false).
  { destruct (Ascii.eqb_spec c "-") as [-> |]; [discriminate | reflexivity]. }
  assert (Hp : Ascii.eqb c "+" = false).
  { destruct (Ascii.eqb_spec c "+") as [-> |]; [discriminate | reflexivity]. }
  rewrite Hm, Hp. cbn [orb negb andb]. rewrite Hd. cbn [negb].
  unfold maxInt64.
  destruct (2 ^ 63 <=? digitsValue (String c r) 0) eqn:Hle;
    destruct (digitsValue (String c r) 0 <=? 2 ^ 63 - 1) eqn:Hge;
    try reflexivity; lia.
Qed.

(** ** Amounts *)

Lemma wordAt_app (pre l : list Word) (k : nat) :
  wordAt (pre ++ l) (length pre + k) = wordAt l k.
Proof. unfold wordAt. apply app_nth2_plus. Qed.

Lemma take_app_exact (pre l : list Word) : take (length pre) (pre ++ l) = pre.
Proof. by rewrite take_app_length. Qed.

Lemma list_end_cases (l : list Word) :
  l = [] \/ (exists a, l = [a]) \/ exists l' t d, l = l' ++ [t; d].
Proof.
  destruct (rev l) as [|d [|t r]] eqn:Hr.
  - left. apply (f_equal (@rev Word)) in Hr. by rewrite rev_involutive in Hr.
  - right; left. exists d.
    apply (f_equal (@rev Word)) in Hr. by rewrite rev_involutive in Hr.
  - right; right. exists (rev r), t, d.
    apply (f_equal (@rev Word)) in Hr. rewrite rev_involutive in Hr.
    rewrite Hr. simpl. by rewrite <- app_assoc.
Qed.

Lemma stripValue_long line pre w1 w2 w3 w4 w5 :
  reDigits (Str w1) = true -> Str w2 = "." -> reDigits (Str w3) = true ->
  Str w4 = "," -> reDigits (Str w5) = true ->
  String.length (Str w5) = 2%nat ->
  stripValue line (pre ++ [w1; w2; w3; w4; w5])
  = match ParseInt (Str w1 +:+ (Str w3 +:+ Str w5)) with
    | None => (pre ++ [w1; w2; w3; w4; w5], 0, false)
    | Some v => (pre, if Column w1 <? 500 then wrap64 (- v) else v, true)
    end.
Proof.
  intros H1 H2 H3 H4 H5 H6. unfold stripValue.
  rewrite length_app. cbn [length].
  destruct (length pre + 5 <? 3)%nat eqn:Hlt; [apply Nat.ltb_lt in Hlt; lia |].
  replace (length pre + 5 - 3)%nat with (length pre + 2)%nat by lia.
  replace (length pre + 5 - 2)%nat with (length pre + 3)%nat by lia.
  replace (length pre + 5 - 1)%nat with (length pre + 4)%nat by lia.
  replace (length pre + 5 - 4)%nat with (length pre + 1)%nat by lia.
  replace (length pre + 5 - 5)%nat with (length pre + 0)%nat by lia.
  rewrite !wordAt_app. cbn [wordAt nth].
  rewrite H1, H2, H3, H4, H5, H6. cbn [String.eqb Ascii.eqb Bool.eqb andb Nat.eqb].
  destruct (4 <? length pre + 5)%nat eqn:H4lt; [| apply Nat.ltb_ge in H4lt; lia].
  cbn [andb].
  destruct (ParseInt _) as [v|]; [| reflexivity].
  replace (length pre + 5 - 5)%nat with (length pre + 0)%nat by lia.
  rewrite wordAt_app. cbn [wordAt nth].
  rewrite Nat.add_0_r, take_app_exact. reflexivity.
Qed.

Lemma stripValue_short line pre w1 w2 w3 :
  endsWithThousands pre = false ->
  reDigits (Str w1) = true -> Str w2 = "," -> reDigits (Str w3) = true ->
  String.length (Str w3) = 2%nat ->
  stripValue line (pre ++ [w1; w2; w3])
  = match ParseInt (Str w1 +:+ Str w3) with
    | None => (pre ++ [w1; w2; w3], 0, false)
    | Some v => (pre, if Column w1 <? 500 then wrap64 (- v) else v, true)
    end.
Proof.
  intros He H1 H2 H3 H4. unfold stripValue.
  rewrite length_app. cbn [length].
  destruct (length pre + 3 <? 3)%nat eqn:Hlt; [apply Nat.ltb_lt in Hlt; lia |].
  replace (length pre + 3 - 3)%nat with (length pre + 0)%nat by lia.
  replace (length pre + 3 - 2)%nat with (length pre + 1)%nat by lia.
  replace (length pre + 3 - 1)%nat with (length pre + 2)%nat by lia.
  rewrite !wordAt_app. cbn [wordAt nth].
  rewrite H1, H2, H3, H4. cbn [String.eqb Ascii.eqb Bool.eqb andb Nat.eqb].
  assert (Hno : (4 <? length pre + 3)%nat
                && String.eqb (Str (wordAt (pre ++ [w1; w2; w3])
                                           (length pre + 3 - 4))) "."
                && reDigits (Str (wordAt (pre ++ [w1; w2; w3])
                                         (length pre + 3 - 5))) = false).
  { destruct (list_end_cases pre) as [-> | [[a ->] | (l' & t & d & ->)]];
      [reflexivity | reflexivity |].
    unfold endsWithThousands in He. rewrite rev_app_distr in He. simpl in He.
    rewrite <- app_assoc. cbn [app]. rewrite length_app. cbn [length].
    replace (length l' + 2 + 3 - 4)%nat with (length l' + 1)%nat by lia.
    replace (length l' + 2 + 3 - 5)%nat with (length l' + 0)%nat by lia.
    rewrite !wordAt_app. cbn [wordAt nth].
    by rewrite <- andb_assoc, He, andb_false_r. }
  rewrite Hno.
  destruct (ParseInt _) as [v|]; [| reflexivity].
  replace (length pre + 3 - 3)%nat with (length pre + 0)%nat by lia.
  rewrite wordAt_app. cbn [wordAt nth].
  rewrite Nat.add_0_r, take_app_exact. reflexivity.
Qed.

Lemma wrap64_neg N : 0 <= N <= maxInt64 -> wrap64 (- N) = - N.
Proof.
  intros HN. apply wrap64_small. unfold inInt64, minInt64, maxInt64 in *. lia.
Qed.

Lemma short_digits N :
  0 <= N ->
  reDigits (itoa (N / 100)) = true
  /\ reDigits (pad2 (N mod 100)) = true
  /\ String.length (pad2 (N mod 100)) = 2%nat
  /\ digitsValue (itoa (N / 100) +:+ pad2 (N mod 100)) 0 = N
  /\ reDigits (itoa (N / 100) +:+ pad2 (N mod 100)) = true.
Proof.
  intros HN.
  assert (Hq : 0 <= N / 100) by (apply Z.div_pos; lia).
  assert (Hm : 0 <= N mod 100 < 100) by (apply Z.mod_pos_bound; lia).
  pose proof (itoa_digits _ Hq) as Hd.
  destruct (pad2_spec (N mod 100) (N / 100) Hm) as (Ha & Hl & Hv).
  repeat split; auto.
  - rewrite digitsValue_app, itoa_value by exact Hq. rewrite Hv.
    pose proof (Z.div_mod N 100). lia.
  - by apply reDigits_app.
Qed.

Lemma long_digits N :
  0 <= N ->
  reDigits (itoa (N / 100000)) = true
  /\ reDigits (pad3 ((N / 100) mod 1000)) = true
  /\ reDigits (pad2 (N mod 100)) = true
  /\ String.length (pad2 (N mod 100)) = 2%nat
  /\ digitsValue (itoa (N / 100000)
                  +:+ (pad3 ((N / 100) mod 1000) +:+ pad2 (N mod 100))) 0 = N
  /\ reDigits (itoa (N / 100000)
               +:+ (pad3 ((N / 100) mod 1000) +:+ pad2 (N mod 100))) = true.
Proof.
  intros HN.
  assert (Hq : 0 <= N / 100000) by (apply Z.div_pos; lia).
  assert (Hh : 0 <= (N / 100) mod 1000 < 1000) by (apply Z.mod_pos_bound; lia).
  assert (Hm : 0 <= N mod 100 < 100) by (apply Z.mod_pos_bound; lia).
  pose proof (itoa_digits _ Hq) as Hd.
  destruct (pad3_spec ((N / 100) mod 1000) (N / 100000) Hh) as (Hp3 & Hv3).
  destruct (pad2_spec (N mod 100)
              (N / 100000 * 1000 + (N / 100) mod 1000) Hm) as (Ha & Hl & Hv).
  repeat split; auto.
  - rewrite !digitsValue_app, itoa_value by exact Hq. rewrite Hv3, Hv.
    pose proof (Z.div_mod N 100). pose proof (Z.div_mod (N / 100) 1000).
    replace (N / 100000) with (N / 100 / 1000)
      by (rewrite Z.div_div by lia; reflexivity).
    lia.
  - apply reDigits_app; [exact Hd |].
    rewrite allDigits_app, Ha. by rewrite (reDigits_all _ Hp3).
Qed.

(** C4 (as stated, refuted): the amount 2^63, printed "92233720368547758,08",
    is not recovered: [stripValue] reports that there is no amount. *)
Lemma stripValue_amount_out_of_range :
  0 <= 2 ^ 63
  /\ stripValue "92233720368547758 , 08" (formatShort (2 ^ 63) 600 601 602)
     = (formatShort (2 ^ 63) 600 601 602, 0, false).
Proof. split; [lia | vm_compute; reflexivity]. Qed.

(** C4 (amended): for every amount N of cents with 0 <= N <= 2^63 - 1,
    printed as the fragments "H" "," "LL" (not preceded by a number and a
    dot) or "T" "." "H" "," "LL" at the end of a line, [stripValue] removes
    these fragments and returns N, negated when the column of the first
    of them is below 500; for a larger N it removes nothing and reports
    that there is no amount. *)
Theorem stripValue_roundtrip (line : string) (pre : list Word)
    (N c1 c2 c3 c4 c5 : Z) :
  0 <= N ->
  stripValue line (pre ++ formatLong N c1 c2 c3 c4 c5)
  = (if N <=? maxInt64
     then (pre, if c1 <? 500 then - N else N, true)
     else (pre ++ formatLong N c1 c2 c3 c4 c5, 0, false))
  /\ (endsWithThousands pre = false ->
      stripValue line (pre ++ formatShort N c1 c2 c3)
      = (if N <=? maxInt64
         then (pre, if c1 <? 500 then - N else N, true)
         else (pre ++ formatShort N c1 c2 c3, 0, false))).
Proof.
  intros HN. split.
  - destruct (long_digits N HN) as (H1 & H3 & H5 & Hl & Hv & Hd).
    unfold formatLong at 1. rewrite stripValue_long by auto.
    cbn [Str Column]. rewrite ParseInt_digits, Hv by exact Hd.
    destruct (N <=? maxInt64) eqn:Hr; [| reflexivity].
    apply Z.leb_le in Hr. by rewrite wrap64_neg.
  - intros He.
    destruct (short_digits N HN) as (H1 & H3 & Hl & Hv & Hd).
    unfold formatShort at 1. rewrite stripValue_short by auto.
    cbn [Str Column]. rewrite ParseInt_digits, Hv by exact Hd.
    destruct (N <=? maxInt64) eqn:Hr; [| reflexivity].
    apply Z.leb_le in Hr. by rewrite wrap64_neg.
Qed.

Lemma stripValue_roundtrip_witness :
  let pre := [ {| Column := 100; Str := "VIREMENT" |} ] in
  0 <= 1234567
  /\ stripValue "" (pre ++ formatLong 1234567 420 421 422 423 424)
     = (pre, -1234567, true)
  /\ (endsWithThousands pre = false ->
      stripValue "" (pre ++ formatShort 1234567 420 421 422)
      = (pre, -1234567, true)).
Proof.
  split; [lia |].
  apply (stripValue_roundtrip "" [ {| Column := 100; Str := "VIREMENT" |} ]
           1234567 420 421 422 423 424).
  lia.
Defined.

(** ** Consolidation of partial operations *)

(** C1 (as stated, refuted): the line "05.03 CARTE 10,00" yields an
    operation with the amount 1000; the next line "20,00" has no date and
    an amount, and the operation ends with the amount 2000: the amount it
    already carried is not kept. *)
Lemma merge_overwrites_amount :
  let l1 := lineOf [word 40 "05"; word 45 "."; word 50 "03";
                    word 100 "CARTE";
                    word 520 "10"; word 530 ","; word 535 "00"] in
  let l2 := lineOf [word 520 "20"; word 530 ","; word 535 "00"] in
  exists prev op merged,
    parseOps [l1] = ([prev], None) /\ HasValue prev = true
    /\ parseLine l2 = (Some op, None) /\ Date op = "" /\ HasValue op = true
    /\ parseOps [l1; l2] = ([merged], None)
    /\ Value merged <> Value prev.
Proof.
  do 3 eexists.
  repeat split; try (vm_compute; reflexivity). vm_compute. discriminate.
Qed.

(** C1 (amended): during the consolidation in [parseOps], for every parsed
    operation that has no date of its own and supplies an amount, the last
    operation appended so far takes that amount, whether or not it already
    carried one; it keeps its date, its column and its kind, and its
    source label is extended when the operation has a label in the same
    column. *)
Theorem merge_adopts_amount (line : Line) (rest : list Line)
    (ops : list Op) (op prev : Op) :
  HasPrefix (LineValue line) "TOTAL DES MONTANTS" = false ->
  HasPrefix (LineValue line) "BNP PARIBAS SA : capital de" = false ->
  HasPrefix (LineValue line) "Montant de votre autorisation" = false ->
  parseLine line = (Some op, None) ->
  Date op = "" -> HasValue op = true -> last ops = Some prev ->
  consolidate ops op = removelast ops ++ [mergedInto prev op]
  /\ parseOpsFrom (line :: rest) ops
     = parseOpsFrom rest (removelast ops ++ [mergedInto prev op])
  /\ Value (mergedInto prev op) = Value op
  /\ HasValue (mergedInto prev op) = true.
Proof.
  intros Hs Hb1 Hb2 Hp Hd Hv Hl.
  assert (Hc : consolidate ops op = removelast ops ++ [mergedInto prev op]).
  { unfold consolidate, mergedInto, addSource, setValue. rewrite Hd, Hl, Hv.
    cbn [String.eqb negb orb SourceCol Date Source Value HasValue IsTotal].
    destruct (negb (String.eqb (Source op) "")
              && (SourceCol op =? SourceCol prev)); reflexivity. }
  split; [exact Hc |]. split; [| split; reflexivity].
  cbn [parseOpsFrom]. rewrite Hs, Hb1, Hb2, Hp. cbn [orb]. by rewrite Hc.
Qed.

Lemma merge_adopts_amount_witness :
  let l1 := lineOf [word 40 "05"; word 45 "."; word 50 "03";
                    word 100 "CARTE";
                    word 520 "10"; word 530 ","; word 535 "00"] in
  let l2 := lineOf [word 100 "SUITE";
                    word 520 "20"; word 530 ","; word 535 "00"] in
  let prev := {| Date := "05.03"; Source := "CARTE"; SourceCol := 100;
                 Value := 1000; HasValue := true; IsTotal := false |} in
  let op := {| Date := ""; Source := "SUITE"; SourceCol := 100;
               Value := 2000; HasValue := true; IsTotal := false |} in
  parseOps [l1] = ([prev], None)
  /\ parseLine l2 = (Some op, None)
  /\ consolidate [prev] op = removelast [prev] ++ [mergedInto prev op]
  /\ parseOpsFrom [l2] [prev]
     = parseOpsFrom [] (removelast [prev] ++ [mergedInto prev op])
  /\ Value (mergedInto prev op) = Value op
  /\ HasValue (mergedInto prev op) = true.
Proof.
  split; [vm_compute; reflexivity |].
  split; [vm_compute; reflexivity |].
  apply (merge_adopts_amount
           (lineOf [word 100 "SUITE";
                    word 520 "20"; word 530 ","; word 535 "00"]) []);
    vm_compute; reflexivity.
Defined.

(** ** Operations without a source label *)

(** C2 (as stated, refuted): the line "05.03" alone has no fragment left
    once its date is removed; the operation built for it has the column 0,
    which is not negative, and [filterOnSourceColumn] drops it from a page
    whose other operations are in column 100. *)
Lemma bare_record_is_filtered :
  let bare := lineOf [word 40 "05"; word 45 "."; word 50 "03"] in
  let l1 := lineOf [word 40 "04"; word 45 "."; word 50 "03";
                    word 100 "CARTE";
                    word 520 "10"; word 530 ","; word 535 "00"] in
  let l2 := lineOf [word 40 "06"; word 45 "."; word 50 "03";
                    word 100 "CHEQUE";
                    word 520 "20"; word 530 ","; word 535 "00"] in
  exists op o1 o2,
    parseOpLine bare = (Some op, None) /\ remainingWords bare = []
    /\ SourceCol op = 0 /\ ~ SourceCol op < 0
    /\ parseOps [l1; bare; l2] = ([o1; op; o2], None)
    /\ filterOnSourceColumn [o1; op; o2] = [o1; o2].
Proof.
  do 3 eexists.
  repeat split; try (vm_compute; reflexivity). vm_compute. discriminate.
Qed.

Lemma stripValue_nil line : stripValue line [] = ([], 0, false).
Proof. reflexivity. Qed.

(** C2 (amended): for every operation that [parseOpLine] builds from a
    line with no fragment left once a leading date and a trailing amount
    are removed, the source column is 0, the zero value of the field;
    [filterOnSourceColumn] treats it as the column 0 and keeps the
    operation exactly when the dominant column of the page is 0. *)
Theorem bare_record_column (line : Line) (op : Op) :
  parseOpLine line = (Some op, None) ->
  remainingWords line = [] ->
  SourceCol op = 0
  /\ Source op = ""
  /\ forall ops, In op ops ->
       (In op (filterOnSourceColumn ops) <-> dominantColumn ops = 0).
Proof.
  unfold parseOpLine, remainingWords.
  destruct (stripDate (LineValue line) (Words line)) as [w date].
  destruct (stripValue (LineValue line) w) as [[w1 v] offset].
  intros Hp Hw. subst w1. rewrite stripValue_nil in Hp. cbn in Hp.
  assert (Hcol : SourceCol op = 0 /\ Source op = "").
  { destruct (negb (String.eqb date "")), offset; inversion Hp; split; reflexivity. }
  destruct Hcol as [Hcol Hsrc]. split; [exact Hcol |]. split; [exact Hsrc |].
  intros ops Hin. unfold filterOnSourceColumn.
  rewrite filter_In. unfold keptBy. rewrite Hcol. cbn [Z.ltb Z.compare orb].
  split.
  - intros [_ He]. symmetry. by apply Z.eqb_eq.
  - intros ->. split; [exact Hin | reflexivity].
Qed.

Lemma bare_record_column_witness :
  let bare := lineOf [word 40 "05"; word 45 "."; word 50 "03"] in
  let op := {| Date := "05.03"; Source := ""; SourceCol := 0; Value := 0;
               HasValue := false; IsTotal := false |} in
  parseOpLine bare = (Some op, None)
  /\ remainingWords bare = []
  /\ SourceCol op = 0
  /\ Source op = ""
  /\ forall ops, In op ops ->
       (In op (filterOnSourceColumn ops) <-> dominantColumn ops = 0).
Proof.
  split; [vm_compute; reflexivity |].
  split; [vm_compute; reflexivity |].
  apply (bare_record_column
           (lineOf [word 40 "05"; word 45 "."; word 50 "03"]));
    vm_compute; reflexivity.
Defined.

(** ** The dominant column *)

Lemma countCol_snoc c p op :
  countCol c (p ++ [op])
  = countCol c p + (if SourceCol op =? c then 1 else 0).
Proof.
  unfold countCol. rewrite List.filter_app, length_app. simpl.
  destruct (SourceCol op =? c); simpl; lia.
Qed.

Lemma countCol_nonneg c p : 0 <= countCol c p.
Proof. unfold countCol. lia. Qed.

Lemma countCol_noColumn c p : noColumn p -> 0 <= c -> countCol c p = 0.
Proof.
  intros Hn Hc. unfold countCol.
  induction p as [|op p IH]; [reflexivity |]. simpl.
  assert (Ho : SourceCol op < 0) by (apply Hn; by left).
  destruct (SourceCol op =? c) eqn:He; [apply Z.eqb_eq in He; lia |].
  apply IH. intros o Hin. apply Hn. by right.
Qed.

Lemma countCol_pos_In c p :
  1 <= countCol c p -> exists op, In op p /\ SourceCol op = c.
Proof.
  unfold countCol. induction p as [|op p IH]; simpl; [lia |].
  destruct (SourceCol op =? c) eqn:He.
  - intros _. exists op. split; [by left | by apply Z.eqb_eq].
  - intros Hc. destruct (IH Hc) as (o & Hin & Ho). exists o. split; [by right | done].
Qed.

Lemma vote_snoc p op : vote (p ++ [op]) = voteStep (vote p) op.
Proof. unfold vote. by rewrite fold_left_app. Qed.

Lemma voteStep_inv p st op :
  voteInv p st -> voteInv (p ++ [op]) (voteStep st op).
Proof.
  destruct st as [[cols maxCol] maxCount]. unfold voteInv, voteStep.
  intros [Hcols Hmax].
  destruct (0 <=? SourceCol op) eqn:Hdef.
  - apply Z.leb_le in Hdef.
    set (c0 := SourceCol op) in *.
    assert (Hn : default 0 (cols !! c0) + 1 = countCol c0 (p ++ [op])).
    { rewrite countCol_snoc, Hcols by exact Hdef. fold c0.
      by rewrite Z.eqb_refl. }
    assert (Hother : forall c, c <> c0 ->
                       countCol c (p ++ [op]) = countCol c p).
    { intros c Hc. rewrite countCol_snoc. fold c0.
      destruct (c0 =? c) eqn:He; [apply Z.eqb_eq in He; congruence | lia]. }
    assert (Hcols' : forall c, 0 <= c ->
              default 0 (<[c0 := default 0 (cols !! c0) + 1]> cols !! c)
              = countCol c (p ++ [op])).
    { intros c Hc. destruct (decide (c = c0)) as [-> | Hne].
      - by rewrite lookup_insert_eq.
      - rewrite lookup_insert_ne by congruence.
        rewrite Hother by exact Hne. by apply Hcols. }
    rewrite Hn in *.
    assert (Hp1 : countCol c0 (p ++ [op]) = countCol c0 p + 1).
    { rewrite countCol_snoc. fold c0. by rewrite Z.eqb_refl. }
    pose proof (countCol_nonneg c0 p) as Hnn.
    destruct Hmax as [(Hno & -> & ->) | (Hm0 & Hm1 & Hmc & Hle & Htie)].
    + destruct (-1 <? countCol c0 (p ++ [op])) eqn:Hlt;
        [| apply Z.ltb_ge in Hlt; lia].
      split; [exact Hcols' |]. right.
      repeat split; try lia.
      * intros c Hc. destruct (decide (c = c0)) as [-> | Hne]; [lia |].
        rewrite Hother, countCol_noColumn by auto. lia.
      * intros c Hc Hne He. rewrite Hother, countCol_noColumn in He by auto.
        lia.
    + destruct (maxCount <? countCol c0 (p ++ [op])) eqn:Hlt.
      * apply Z.ltb_lt in Hlt.
        split; [exact Hcols' |]. right.
        repeat split; try lia.
        -- intros c Hc. destruct (decide (c = c0)) as [-> | Hne]; [lia |].
           rewrite Hother by exact Hne. specialize (Hle c Hc). lia.
        -- intros c Hc Hne He. rewrite Hother in He by exact Hne.
           specialize (Hle c Hc). lia.
      * apply Z.ltb_ge in Hlt.
        assert (Hne0 : maxCol <> c0) by (intros ->; lia).
        split; [exact Hcols' |]. right.
        repeat split; try lia.
        -- rewrite Hother by exact Hne0. exact Hmc.
        -- intros c Hc. destruct (decide (c = c0)) as [-> | Hne]; [lia |].
           rewrite Hother by exact Hne. by apply Hle.
        -- intros c Hc Hne He.
           destruct (decide (c = c0)) as [-> | Hne1].
           ++ exists p, [op]. repeat split; lia.
           ++ rewrite Hother in He by exact Hne1.
              destruct (Htie c Hc Hne He) as (q & s & -> & Hq1 & Hq2).
              exists q, (s ++ [op]). rewrite <- app_assoc. repeat split; lia.
  - apply Z.leb_gt in Hdef.
    assert (Hsame : forall c, 0 <= c ->
                      countCol c (p ++ [op]) = countCol c p).
    { intros c Hc. rewrite countCol_snoc.
      destruct (SourceCol op =? c) eqn:He; [apply Z.eqb_eq in He; lia | lia]. }
    split.
    + intros c Hc. rewrite Hsame by exact Hc. by apply Hcols.
    + destruct Hmax as [(Hno & -> & ->) | (Hm0 & Hm1 & Hmc & Hle & Htie)].
      * left. repeat split; try reflexivity.
        intros o Hin. apply in_app_or in Hin as [Hin | [<- | []]]; auto.
      * right. repeat split; try lia.
        -- rewrite Hsame by exact Hm0. exact Hmc.
        -- intros c Hc. rewrite Hsame by exact Hc. by apply Hle.
        -- intros c Hc Hne He. rewrite Hsame in He by exact Hc.
           destruct (Htie c Hc Hne He) as (q & s & -> & Hq1 & Hq2).
           exists q, (s ++ [op]). rewrite <- app_assoc. repeat split; lia.
Qed.

Lemma vote_inv ops : voteInv ops (vote ops).
Proof.
  induction ops as [|op p IH] using rev_ind.
  - unfold vote, voteInv. simpl. split.
    + intros c _. by rewrite lookup_empty.
    + left. repeat split. intros op [].
  - rewrite vote_snoc. by apply voteStep_inv.
Qed.

(** C7: [filterOnSourceColumn] keeps exactly the operations whose source
    column is negative (no source column) and those whose column is the
    dominant one.  When no operation has a column the dominant column is
    -1; otherwise it is a column with the largest number of operations,
    and any other column with as many operations reached that number
    later in the scan, so that it did not replace the dominant one.  With
    operations in columns 100, 100, 100 and 250 and an account state,
    the three operations in column 100 and the account state are kept. *)
Theorem filter_keeps_dominant (ops : list Op) :
  (forall op, In op (filterOnSourceColumn ops)
     <-> In op ops /\ (SourceCol op < 0 \/ SourceCol op = dominantColumn ops))
  /\ filterOnSourceColumn ops
     = List.filter (fun op => (SourceCol op <? 0)
                              || (SourceCol op =? dominantColumn ops)) ops
  /\ (noColumn ops -> dominantColumn ops = -1)
  /\ ((exists op, In op ops /\ 0 <= SourceCol op) ->
      0 <= dominantColumn ops
      /\ (exists op, In op ops /\ SourceCol op = dominantColumn ops)
      /\ (forall c, 0 <= c ->
            countCol c ops <= countCol (dominantColumn ops) ops)
      /\ (forall c, 0 <= c -> c <> dominantColumn ops ->
            countCol c ops = countCol (dominantColumn ops) ops ->
            exists q s, ops = q ++ s
              /\ countCol (dominantColumn ops) q
                 = countCol (dominantColumn ops) ops
              /\ countCol c q < countCol c ops))
  /\ (forall a b c d t,
        SourceCol a = 100 -> SourceCol b = 100 -> SourceCol c = 100 ->
        SourceCol d = 250 -> SourceCol t = -1 ->
        ops = [a; b; c; d; t] ->
        filterOnSourceColumn ops = [a; b; c; t]).
Proof.
  pose proof (vote_inv ops) as Hinv.
  unfold dominantColumn.
  destruct (vote ops) as [[cols maxCol] maxCount] eqn:Hvote.
  assert (Hdom : dominantColumn ops = maxCol)
    by (unfold dominantColumn; by rewrite Hvote).
  cbn [fst snd]. destruct Hinv as [Hcols Hmax].
  split; [| split; [| split; [| split]]].
  - intros op. unfold filterOnSourceColumn. rewrite filter_In, Hdom.
    unfold keptBy. rewrite orb_true_iff, Z.ltb_lt, Z.eqb_eq. reflexivity.
  - unfold filterOnSourceColumn. by rewrite Hdom.
  - intros Hno. destruct Hmax as [(_ & -> & _) | (Hm0 & Hm1 & Hmc & _)];
      [reflexivity |].
    rewrite countCol_noColumn in Hmc by auto. lia.
  - intros (op & Hin & Hdef).
    destruct Hmax as [(Hno & _) | (Hm0 & Hm1 & Hmc & Hle & Htie)].
    { specialize (Hno op Hin). lia. }
    split; [exact Hm0 |]. split; [apply countCol_pos_In; lia |].
    split.
    + intros c Hc. rewrite <- Hmc. by apply Hle.
    + intros c Hc Hne He. rewrite <- Hmc in He.
      destruct (Htie c Hc Hne He) as (q & s & -> & Hq1 & Hq2).
      exists q, s. repeat split; lia.
  - intros a b c d t Ha Hb Hc Hd Ht ->.
    assert (Hm : maxCol = 100).
    { rewrite <- Hdom. unfold dominantColumn, vote. cbn [fold_left].
      unfold voteStep. rewrite Ha, Hb, Hc, Hd, Ht. vm_compute. reflexivity. }
    unfold filterOnSourceColumn. rewrite Hdom, Hm. unfold keptBy.
    cbn [List.filter]. rewrite Ha, Hb, Hc, Hd, Ht. reflexivity.
Qed.

Lemma filter_keeps_dominant_witness :
  let op c s := {| Date := "05.03"; Source := s; SourceCol := c;
                   Value := 0; HasValue := false; IsTotal := false |} in
  let ops := [op 250 "A"; op 100 "B"; op 250 "C"; op 100 "D";
              accountState "31.03.2021" 0] in
  (exists o, In o ops /\ 0 <= SourceCol o)
  /\ dominantColumn ops = 250
  /\ 0 <= dominantColumn ops
  /\ (exists o, In o ops /\ SourceCol o = dominantColumn ops)
  /\ (forall c, 0 <= c ->
        countCol c ops <= countCol (dominantColumn ops) ops)
  /\ (forall c, 0 <= c -> c <> dominantColumn ops ->
        countCol c ops = countCol (dominantColumn ops) ops ->
        exists q s, ops = q ++ s
          /\ countCol (dominantColumn ops) q
             = countCol (dominantColumn ops) ops
          /\ countCol c q < countCol c ops).
Proof.
  intros op ops.
  assert (He : exists o, In o ops /\ 0 <= SourceCol o).
  { exists (op 250 "A"). split; [by left | vm_compute; discriminate]. }
  split; [exact He |]. split; [vm_compute; reflexivity |].
  destruct (filter_keeps_dominant ops) as (_ & _ & _ & Hd & _).
  exact (Hd He).
Defined.

(** ** Deduplication *)

Lemma isSeen_insert seen h k :
  isSeen (<[h := true]> seen) k = true <-> h = k \/ isSeen seen k = true.
Proof.
  unfold isSeen. destruct (decide (h = k)) as [-> | Hne].
  - rewrite lookup_insert_eq. simpl. tauto.
  - rewrite lookup_insert_ne by exact Hne. split; [tauto | intros [? | ?]; done].
Qed.

Lemma isSeen_insert_id seen h :
  isSeen seen h = true -> <[h := true]> seen = seen.
Proof.
  unfold isSeen. intros Hs. apply insert_id.
  destruct (seen !! h) as [[|]|]; simpl in Hs; congruence.
Qed.

Lemma isSeen_markAll ops : forall seen k,
  isSeen (markAll seen ops) k = true
  <-> isSeen seen k = true \/ In k (map hashOp ops).
Proof.
  induction ops as [|op rest IH]; intros seen k; simpl.
  - tauto.
  - unfold markAll in *. simpl. rewrite IH, isSeen_insert. tauto.
Qed.

Lemma dedupPage_newOps ops : forall seen allOps,
  dedupPage ops seen allOps = (markAll seen ops, allOps ++ newOps seen ops).
Proof.
  induction ops as [|op rest IH]; intros seen allOps; simpl.
  - by rewrite app_nil_r.
  - fold (isSeen seen (hashOp op)). unfold markAll. simpl.
    destruct (isSeen seen (hashOp op)) eqn:Hs.
    + rewrite IH. by rewrite (isSeen_insert_id _ _ Hs).
    + rewrite IH. by rewrite <- app_assoc.
Qed.

Lemma newOps_app l1 : forall seen l2,
  newOps seen (l1 ++ l2) = newOps seen l1 ++ newOps (markAll seen l1) l2.
Proof.
  induction l1 as [|op rest IH]; intros seen l2; simpl; [reflexivity |].
  unfold markAll. simpl. destruct (isSeen seen (hashOp op)) eqn:Hs.
  - rewrite IH. by rewrite (isSeen_insert_id _ _ Hs).
  - rewrite IH. reflexivity.
Qed.

Lemma newOps_sublist ops : forall seen, sublist (newOps seen ops) ops.
Proof.
  induction ops as [|op rest IH]; intros seen; simpl; [constructor |].
  destruct (isSeen seen (hashOp op)); [apply sublist_cons | apply sublist_skip];
    apply IH.
Qed.

Lemma newOps_unseen ops : forall seen op,
  In op (newOps seen ops) -> isSeen seen (hashOp op) = false.
Proof.
  induction ops as [|o rest IH]; intros seen op; simpl; [tauto |].
  destruct (isSeen seen (hashOp o)) eqn:Hs.
  - apply IH.
  - intros [<- | Hin]; [exact Hs |].
    apply IH in Hin. destruct (isSeen seen (hashOp op)) eqn:Hs'; [| reflexivity].
    assert (Ht : isSeen (<[hashOp o := true]> seen) (hashOp op) = true)
      by (apply isSeen_insert; by right).
    congruence.
Qed.

Lemma newOps_NoDup ops : forall seen, NoDup (map hashOp (newOps seen ops)).
Proof.
  induction ops as [|o rest IH]; intros seen; simpl; [constructor |].
  destruct (isSeen seen (hashOp o)) eqn:Hs; [apply IH |].
  simpl. apply NoDup_cons_2; [| apply IH].
  rewrite list_elem_of_In, in_map_iff. intros (op & Hk & Hin).
  apply newOps_unseen in Hin.
  assert (Ht : isSeen (<[hashOp o := true]> seen) (hashOp op) = true)
    by (apply isSeen_insert; by left).
  congruence.
Qed.

Lemma newOps_covers ops : forall seen op,
  In op ops ->
  isSeen seen (hashOp op) = true \/ In (hashOp op) (map hashOp (newOps seen ops)).
Proof.
  induction ops as [|o rest IH]; intros seen op; simpl; [tauto |].
  intros [-> | Hin].
  - destruct (isSeen seen (hashOp op)) eqn:Hs; [by left | right; by left].
  - destruct (isSeen seen (hashOp o)) eqn:Hs; [by apply IH |].
    destruct (IH (<[hashOp o := true]> seen) op Hin) as [Ht | Ht].
    + apply isSeen_insert in Ht as [He | Ht]; [| by left].
      right. simpl. by left.
    + right. simpl. by right.
Qed.

Lemma newOps_all_seen ops : forall seen,
  (forall op, In op ops -> isSeen seen (hashOp op) = true) ->
  newOps seen ops = [].
Proof.
  induction ops as [|o rest IH]; intros seen Hall; simpl; [reflexivity |].
  rewrite (Hall o) by (by left). apply IH. intros op Hin. apply Hall. by right.
Qed.

Lemma newOps_fresh ops : forall seen,
  (forall op, In op ops -> isSeen seen (hashOp op) = false) ->
  NoDup (map hashOp ops) -> newOps seen ops = ops.
Proof.
  induction ops as [|o rest IH]; intros seen Hall Hnd; simpl; [reflexivity |].
  rewrite (Hall o) by (by left). f_equal.
  simpl in Hnd. apply NoDup_cons in Hnd as [Hni Hnd].
  apply IH; [| exact Hnd].
  intros op Hin. destruct (isSeen _ (hashOp op)) eqn:Hs; [| reflexivity].
  apply isSeen_insert in Hs as [He | Hs].
  - exfalso. apply Hni. rewrite He, list_elem_of_In. by apply in_map.
  - rewrite Hall in Hs by (by right). discriminate.
Qed.

Lemma isSeen_empty k : isSeen ∅ k = false.
Proof. unfold isSeen. by rewrite lookup_empty. Qed.

Lemma extractPDFOpsFrom_ok pages : forall seen allOps,
  extractPDFOpsFrom (okPages pages) seen allOps
  = (allOps ++ newOps seen (concat pages), None).
Proof.
  induction pages as [|p rest IH]; intros seen allOps; simpl.
  - by rewrite app_nil_r.
  - rewrite dedupPage_newOps. fold (okPages rest). rewrite IH.
    by rewrite newOps_app, app_assoc.
Qed.

Lemma extractPDFOps_ok pages :
  extractPDFOps (okPages pages) = (newOps ∅ (concat pages), None).
Proof. unfold extractPDFOps. by rewrite extractPDFOpsFrom_ok. Qed.

(** C10: the key [hashOp] depends on the date, the source label and the
    stored amount only: two operations that agree on these have the same
    key, whatever their flags [IsTotal] and [HasValue]; the later one is
    then dropped by [extractPDFOps], which returns what it returns for
    the document without it. *)
Theorem dedup_ignores_flags :
  (forall op1 op2,
     Date op1 = Date op2 -> Source op1 = Source op2 ->
     Value op1 = Value op2 -> hashOp op1 = hashOp op2)
  /\ forall pages1 pa pb pages2 op1 op2,
       In op1 (concat pages1 ++ pa) ->
       Date op1 = Date op2 -> Source op1 = Source op2 ->
       Value op1 = Value op2 ->
       extractPDFOps (okPages (pages1 ++ [pa ++ op2 :: pb] ++ pages2))
       = extractPDFOps (okPages (pages1 ++ [pa ++ pb] ++ pages2)).
Proof.
  assert (Hkey : forall op1 op2,
     Date op1 = Date op2 -> Source op1 = Source op2 ->
     Value op1 = Value op2 -> hashOp op1 = hashOp op2).
  { intros op1 op2 Hd Hs Hv. unfold hashOp. by rewrite Hd, Hs, Hv. }
  split; [exact Hkey |].
  intros pages1 pa pb pages2 op1 op2 Hin Hd Hs Hv.
  rewrite !extractPDFOps_ok. f_equal.
  rewrite !concat_app. simpl. rewrite !app_nil_r.
  replace (concat pages1 ++ (pa ++ op2 :: pb) ++ concat pages2)
    with ((concat pages1 ++ pa) ++ op2 :: (pb ++ concat pages2))
    by (by rewrite <- !app_assoc).
  replace (concat pages1 ++ (pa ++ pb) ++ concat pages2)
    with ((concat pages1 ++ pa) ++ (pb ++ concat pages2))
    by (by rewrite <- !app_assoc).
  rewrite (newOps_app (concat pages1 ++ pa) ∅ (op2 :: _)).
  rewrite (newOps_app (concat pages1 ++ pa) ∅ (pb ++ _)).
  f_equal. cbn [newOps].
  assert (Hseen : isSeen (markAll ∅ (concat pages1 ++ pa)) (hashOp op2) = true).
  { apply isSeen_markAll. right. rewrite <- (Hkey op1 op2) by assumption.
    by apply in_map. }
  by rewrite Hseen.
Qed.

Lemma dedup_ignores_flags_witness :
  let total := {| Date := "31.03.2021"; Source := "SOLDE"; SourceCol := -1;
                  Value := 0; HasValue := true; IsTotal := true |} in
  let change := {| Date := "31.03.2021"; Source := "SOLDE"; SourceCol := 100;
                   Value := 0; HasValue := false; IsTotal := false |} in
  hashOp total = hashOp change
  /\ extractPDFOps (okPages ([] ++ [[total] ++ change :: []] ++ []))
     = extractPDFOps (okPages ([] ++ [[total] ++ []] ++ []))
  /\ extractPDFOps (okPages [[total; change]]) = ([total], None).
Proof.
  intros total change.
  destruct dedup_ignores_flags as [Hkey Hdrop].
  split; [apply Hkey; reflexivity |].
  split; [| vm_compute; reflexivity].
  apply (Hdrop [] [total] [] [] total change); try reflexivity.
  by left.
Defined.

(** ** The graph walk *)

Section WalkProperties.
Context {V E S : Type} `{PdfValue V}.
Variable callback : V -> S -> S * option E.

(** The graph is finite: the identities of its entries belong to a
    finite set. *)
Variable universe : gset N.
Hypothesis entries_in_universe :
  forall v id child, (id, child) ∈ entries v -> id ∈ universe.

Lemma runCallbacks_app vs1 vs2 s :
  runCallbacks callback (vs1 ++ vs2) s
  = match runCallbacks callback vs1 s with
    | (s1, Some e) => (s1, Some e)
    | (s1, None) => runCallbacks callback vs2 s1
    end.
Proof.
  revert s. induction vs1 as [|v vs1 IH]; intros s; simpl; [reflexivity |].
  destruct (callback v s) as [s1 [e|]]; [reflexivity | apply IH].
Qed.

Lemma path_length_bound (path : list N) :
  NoDup path -> (forall id, id ∈ path -> id ∈ universe) ->
  (length path <= size universe)%nat.
Proof.
  intros Hnd Hsub. rewrite <- (size_list_to_set (C := gset N) path Hnd).
  apply subseteq_size. intros id Hid.
  apply Hsub. by apply elem_of_list_to_set in Hid.
Qed.

(** A pre-order listing exists for every value and every path. *)
Lemma preorder_exists (n : nat) : forall v path,
  NoDup path -> (forall id, id ∈ path -> id ∈ universe) ->
  (size universe < n + length path)%nat ->
  exists visits, Preorder v path visits.
Proof.
  induction n as [|n IH]; intros v path Hnd Hsub Hsize.
  - pose proof (path_length_bound path Hnd Hsub). simpl in Hsize. lia.
  - assert (Hes : forall es,
              (forall id child, (id, child) ∈ es -> id ∈ universe) ->
              exists visits, PreorderEntries es path visits).
    { induction es as [|[id child] rest IHes]; intros Hu.
      - eexists. constructor.
      - destruct IHes as [visits2 Hrest].
        { intros i c Hin. apply (Hu i c). by right. }
        destruct (decide (id ∈ path)) as [Hin | Hni].
        + exists visits2. by constructor.
        + destruct (IH child (id :: path)) as [visits1 Hchild].
          * by constructor.
          * intros i Hi. apply elem_of_cons in Hi as [-> | Hi]; [| by apply Hsub].
            apply (Hu id child). by left.
          * simpl. lia.
          * exists (visits1 ++ visits2). by constructor. }
    destruct (Hes (entries v)) as [visits Hv];
      [intros id child; apply entries_in_universe |].
    eexists. constructor. exact Hv.
Qed.

(** The listing is determined by the value and the path. *)
Lemma preorder_unique v path visits :
  Preorder v path visits ->
  forall visits', Preorder v path visits' -> visits' = visits.
Proof.
  revert v path visits.
  apply (Preorder_mut V _
    (fun v path visits =>
       forall visits', Preorder v path visits' -> visits' = visits)
    (fun es path visits =>
       forall visits', PreorderEntries es path visits' -> visits' = visits)).
  - intros v path visits _ IH visits' Hp. inversion Hp; subst.
    f_equal. by apply IH.
  - intros path visits' Hp. by inversion Hp.
  - intros id child rest path visits Hin _ IH visits' Hp.
    inversion Hp; subst; [by apply IH | done].
  - intros id child rest path visits1 visits2 Hni _ IH1 _ IH2 visits' Hp.
    inversion Hp; subst; [done |]. f_equal; [by apply IH1 | by apply IH2].
Qed.

(** No identity occurs twice on the path of a visited value. *)
Lemma preorder_paths v path visits :
  Preorder v path visits -> NoDup path ->
  Forall (fun visit => NoDup (snd visit)) visits.
Proof.
  revert v path visits.
  apply (Preorder_mut V _
    (fun v path visits =>
       NoDup path -> Forall (fun visit => NoDup (snd visit)) visits)
    (fun es path visits =>
       NoDup path -> Forall (fun visit => NoDup (snd visit)) visits)).
  - intros v path visits _ IH Hnd. constructor; [exact Hnd | by apply IH].
  - intros path _. constructor.
  - intros id child rest path visits _ _ IH Hnd. by apply IH.
  - intros id child rest path visits1 visits2 Hni _ IH1 _ IH2 Hnd.
    apply Forall_app. split; [apply IH1; by constructor | by apply IH2].
Qed.

(** With enough fuel [walkNode] calls the callback along the listing
    and hands the map of identities back as it received it. *)
Lemma walkNode_preorder v path visits :
  Preorder v path visits ->
  forall fuel depth seen s,
    seen = list_to_set path -> NoDup path ->
    (forall id, id ∈ path -> id ∈ universe) ->
    (size universe < fuel + length path)%nat ->
    walkNode callback fuel v depth seen s
    = Some (withSeen seen (runCallbacks callback (map fst visits) s)).
Proof.
  revert v path visits.
  apply (Preorder_mut V _
    (fun v path visits =>
       forall fuel depth seen s,
         seen = list_to_set path -> NoDup path ->
         (forall id, id ∈ path -> id ∈ universe) ->
         (size universe < fuel + length path)%nat ->
         walkNode callback fuel v depth seen s
         = Some (withSeen seen (runCallbacks callback (map fst visits) s)))
    (fun es path visits =>
       (forall id child, (id, child) ∈ es -> id ∈ universe) ->
       forall fuel depth seen s,
         seen = list_to_set path -> NoDup path ->
         (forall id, id ∈ path -> id ∈ universe) ->
         (size universe < Datatypes.S fuel + length path)%nat ->
         walkChildren (fun c => walkNode callback fuel c depth) es seen s
         = Some (withSeen seen (runCallbacks callback (map fst visits) s)))).
  - intros v path visits _ IH fuel depth seen s Hseen Hnd Hsub Hsize.
    pose proof (path_length_bound path Hnd Hsub) as Hlen.
    destruct fuel as [|fuel]; [simpl in Hsize; lia |].
    cbn [walkNode map fst runCallbacks].
    destruct (callback v s) as [s1 [e|]]; [reflexivity |].
    apply IH; auto. intros id child. apply entries_in_universe.
  - intros path _ fuel depth seen s _ _ _ _. reflexivity.
  - intros id child rest path visits Hin _ IH Hu fuel depth seen s
      Hseen Hnd Hsub Hsize.
    cbn [walkChildren].
    destruct (decide (id ∈ seen)) as [_ | Hni].
    + apply IH; auto. intros i c Hic. apply (Hu i c). by right.
    + exfalso. apply Hni. subst seen. by apply elem_of_list_to_set.
  - intros id child rest path visits1 visits2 Hni _ IH1 _ IH2 Hu
      fuel depth seen s Hseen Hnd Hsub Hsize.
    cbn [walkChildren].
    assert (Hns : id ∉ seen).
    { subst seen. by rewrite elem_of_list_to_set. }
    destruct (decide (id ∈ seen)) as [Hin | _]; [done |].
    rewrite (IH1 fuel depth ({[id]} ∪ seen) s).
    + assert (Hback : ({[id]} ∪ seen) ∖ {[id]} = seen).
      { rewrite difference_union_distr_l_L, difference_diag_L.
        rewrite (left_id_L ∅ (∪)). apply difference_disjoint_L.
        by apply disjoint_singleton_r. }
      unfold withSeen at 1. cbn [fst snd]. rewrite Hback.
      rewrite map_app, runCallbacks_app.
      destruct (runCallbacks callback (map fst visits1) s) as [s1 [e|]];
        cbn [fst snd]; [reflexivity |].
      apply IH2; auto. intros i c Hic. apply (Hu i c). by right.
    + subst seen. reflexivity.
    + by constructor.
    + intros i Hi. apply elem_of_cons in Hi as [-> | Hi]; [| by apply Hsub].
      apply (Hu id child). by left.
    + simpl. lia.
Qed.

(** C9: on a graph whose identities form a finite set, [walk] returns
    as soon as its fuel exceeds the number of identities: it terminates,
    also on cyclic and self-referential graphs.  It calls the callback
    along the pre-order listing of the graph in which an entry is
    skipped when its identity is on the current path (no identity occurs
    twice on the path of a visited value) and entered otherwise, so that
    a shared value is visited once per path; it stops at the first
    failure of the callback and returns that error. *)
Theorem walk_terminates_in_preorder (root : V) :
  exists visits,
    Preorder root [] visits
    /\ (forall visits', Preorder root [] visits' -> visits' = visits)
    /\ Forall (fun visit => NoDup (snd visit)) visits
    /\ forall fuel s,
         (size universe < fuel)%nat ->
         walk callback fuel root s
         = Some (runCallbacks callback (map fst visits) s).
Proof.
  destruct (preorder_exists (Datatypes.S (size universe)) root [])
    as [visits Hv].
  { constructor. }
  { intros id Hid. by apply elem_of_nil in Hid. }
  { simpl. lia. }
  exists visits. split; [exact Hv |].
  split; [by apply preorder_unique |].
  split; [apply (preorder_paths _ _ _ Hv); constructor |].
  intros fuel s Hfuel. unfold walk.
  rewrite (walkNode_preorder root [] visits Hv fuel 0 ∅ s).
  - unfold withSeen. by destruct (runCallbacks callback (map fst visits) s).
  - reflexivity.
  - constructor.
  - intros id Hid. by apply elem_of_nil in Hid.
  - simpl. lia.
Qed.
End WalkProperties.

Lemma sampleGraph_identities :
  forall v id child,
    (id, child) ∈ @entries nat sampleGraph v ->
    id ∈ ({[1%N; 2%N; 3%N]} : gset N).
Proof.
  intros v id child Hin.
  destruct v as [|[|[|[|v]]]]; cbn in Hin;
    repeat (apply elem_of_cons in Hin as [Heq | Hin];
            [inversion Heq; subst; set_solver |]);
    by apply elem_of_nil in Hin.
Qed.

Lemma walk_terminates_in_preorder_witness :
  (forall v id child,
     (id, child) ∈ @entries nat sampleGraph v ->
     id ∈ ({[1%N; 2%N; 3%N]} : gset N))
  /\ (exists visits,
        @Preorder nat sampleGraph 0%nat [] visits
        /\ map fst visits = [0; 1; 3; 2; 2; 3]%nat
        /\ @walk nat string (list nat) sampleGraph (recordUntil 9) 4
             0%nat []
           = Some (runCallbacks (recordUntil 9) (map fst visits) []))
  /\ @walk nat string (list nat) sampleGraph (recordUntil 9) 4 0%nat []
     = Some ([0; 1; 3; 2; 2; 3]%nat, None)
  /\ @walk nat string (list nat) sampleGraph (recordUntil 2) 4 0%nat []
     = Some ([0; 1; 3; 2]%nat, Some "stop").
Proof.
  split; [exact sampleGraph_identities |].
  split; [| split; vm_compute; reflexivity].
  destruct (@walk_terminates_in_preorder nat string (list nat) sampleGraph
              (recordUntil 9) {[1%N; 2%N; 3%N]} sampleGraph_identities 0%nat)
    as (visits & Hv & Huniq & Hnd & Hwalk).
  exists visits. split; [exact Hv |].
  assert (Hrun : @walk nat string (list nat) sampleGraph (recordUntil 9) 4
                   0%nat []
                 = Some (runCallbacks (recordUntil 9) (map fst visits) [])).
  { apply Hwalk. vm_compute. lia. }
  split; [| exact Hrun].
  assert (Hc : @walk nat string (list nat) sampleGraph (recordUntil 9) 4
                 0%nat [] = Some ([0; 1; 3; 2; 2; 3]%nat, None))
    by (vm_compute; reflexivity).
  rewrite Hc in Hrun. clear Hc Hwalk Hv Huniq Hnd.
  assert (Hgen : forall vs acc,
            fst (runCallbacks (recordUntil 9) vs acc) = acc ++ vs
            \/ snd (runCallbacks (recordUntil 9) vs acc) <> None).
  { induction vs as [|v vs IH]; intros acc; simpl.
    - left. by rewrite app_nil_r.
    - destruct (Nat.eqb v 9); [right; simpl; discriminate |].
      destruct (IH (acc ++ [v])) as [Hl | Hr]; [left | by right].
      rewrite Hl. by rewrite <- app_assoc. }
  destruct (Hgen (map fst visits) []) as [Hl | Hr].
  - inversion Hrun as [Heq]. rewrite <- Heq in Hl. simpl in Hl. by symmetry.
  - inversion Hrun as [Heq]. rewrite <- Heq in Hr. simpl in Hr. done.
Defined.

(** The root is given to [walk] without an identity: an entry that leads
    back to it is entered once, its identity being new on the path, and
    skipped from there on. *)
Example walk_self_reference :
  @walk nat string (list nat) selfGraph (recordUntil 9) 2 0%nat []
  = Some ([0; 0]%nat, None).
Proof. vm_compute. reflexivity. Qed.

(** ** Further properties of the line parser *)

Lemma digitsValue_lower s : forall acc, 0 <= acc -> allDigits s = true ->
  acc <= digitsValue s acc.
Proof.
  induction s as [|c r IH]; intros acc Hacc Hd; simpl; [lia |].
  simpl in Hd. apply andb_prop in Hd as [Hc Hr].
  assert (Hv : 0 <= digitValue c).
  { unfold isDigit in Hc. apply andb_prop in Hc as [Hlo _].
    apply N.leb_le in Hlo. unfold digitValue. lia. }
  pose proof (IH (acc * 10 + digitValue c) ltac:(lia) Hr). lia.
Qed.

Lemma ParseInt_digits_range s v :
  reDigits s = true -> ParseInt s = Some v ->
  v = digitsValue s 0 /\ 0 <= v <= maxInt64.
Proof.
  intros Hd Hp. rewrite (ParseInt_digits s Hd) in Hp.
  destruct (digitsValue s 0 <=? maxInt64) eqn:Hle; [| discriminate].
  inversion Hp; subst. apply Z.leb_le in Hle.
  pose proof (digitsValue_lower s 0 (Z.le_refl 0) (reDigits_all s Hd)). lia.
Qed.

Lemma take_drop_length (words : list Word) (n : nat) :
  (n <= length words)%nat ->
  words = take (length words - n) words ++ drop (length words - n) words
  /\ length (drop (length words - n) words) = n.
Proof.
  intros Hn. split; [by rewrite take_drop |]. rewrite length_drop. lia.
Qed.

Lemma wordAt_drop (words : list Word) (k i : nat) :
  wordAt (drop k words) i = wordAt words (k + i).
Proof.
  unfold wordAt. rewrite !nth_lookup, lookup_drop. reflexivity.
Qed.

Lemma list3 (l : list Word) :
  length l = 3%nat -> l = [wordAt l 0; wordAt l 1; wordAt l 2].
Proof. destruct l as [|a [|b [|c [|d l]]]]; simpl; intros; try lia; reflexivity. Qed.

Lemma list5 (l : list Word) :
  length l = 5%nat ->
  l = [wordAt l 0; wordAt l 1; wordAt l 2; wordAt l 3; wordAt l 4].
Proof.
  destruct l as [|a [|b [|c [|d [|e [|f l]]]]]]; simpl; intros; try lia;
    reflexivity.
Qed.

(** X1: what [stripValue] returns.  When it reports an amount, the words
    it returns are the given words less the last three or the last five,
    the amount is the number written by the digits of these (within the
    64-bit range), negative or zero when the first of them is in a column
    below 500 and positive or zero otherwise.  When it reports no amount
    it returns the words unchanged and the amount 0. *)
Theorem stripValue_sound (line : string) (words rest : list Word)
    (v : Z) (ok : bool) :
  stripValue line words = (rest, v, ok) ->
  if ok then
    exists tail,
      words = rest ++ tail
      /\ (length tail = 3%nat \/ length tail = 5%nat)
      /\ reDigits (amountDigits tail) = true
      /\ digitsValue (amountDigits tail) 0 <= maxInt64
      /\ v = (if Column (wordAt tail 0) <? 500
              then - digitsValue (amountDigits tail) 0
              else digitsValue (amountDigits tail) 0)
  else rest = words /\ v = 0.
Proof.
  unfold stripValue.
  destruct (length words <? 3)%nat eqn:Hlen;
    [intros Hs; inversion Hs; subst; by split |].
  apply Nat.ltb_ge in Hlen.
  set (lw := length words) in *.
  destruct (reDigits (Str (wordAt words (lw - 3)))
            && String.eqb (Str (wordAt words (lw - 2))) ","
            && reDigits (Str (wordAt words (lw - 1)))
            && (String.length (Str (wordAt words (lw - 1))) =? 2)%nat)
    eqn:Hpat; [| intros Hs; inversion Hs; subst; by split].
  apply andb_prop in Hpat as [Hpat Hl2].
  apply andb_prop in Hpat as [Hpat Ht].
  apply andb_prop in Hpat as [Hh Hc].
  destruct ((4 <? lw)%nat
            && String.eqb (Str (wordAt words (lw - 4))) "."
            && reDigits (Str (wordAt words (lw - 5)))) eqn:Hlong.
  - apply andb_prop in Hlong as [Hlong Hk].
    apply andb_prop in Hlong as [H4 Hd]. apply Nat.ltb_lt in H4.
    destruct (ParseInt _) as [n|] eqn:Hp;
      [| intros Hs; inversion Hs; subst; by split].
    intros Hs. inversion Hs; subst; clear Hs.
    destruct (take_drop_length words 5) as [Hsplit Hlt]; [unfold lw in H4; lia |].
    fold lw in Hsplit, Hlt.
    exists (drop (lw - 5) words). split; [exact Hsplit |].
    split; [by right |].
    rewrite (list5 _ Hlt). cbn [amountDigits wordAt nth].
    fold (wordAt (drop (lw - 5) words) 0) (wordAt (drop (lw - 5) words) 2)
         (wordAt (drop (lw - 5) words) 4).
    rewrite !wordAt_drop.
    replace (lw - 5 + 0)%nat with (lw - 5)%nat by lia.
    replace (lw - 5 + 2)%nat with (lw - 3)%nat by lia.
    replace (lw - 5 + 4)%nat with (lw - 1)%nat by lia.
    assert (Hnum : reDigits (Str (wordAt words (lw - 5))
                             +:+ (Str (wordAt words (lw - 3))
                                  +:+ Str (wordAt words (lw - 1)))) = true).
    { apply reDigits_app; [exact Hk |].
      rewrite allDigits_app. by rewrite !reDigits_all. }
    destruct (ParseInt_digits_range _ _ Hnum Hp) as [-> Hr].
    split; [exact Hnum |]. split; [lia |].
    destruct (Column (wordAt words (lw - 5)) <? 500); [| reflexivity].
    by apply wrap64_neg.
  - destruct (ParseInt _) as [n|] eqn:Hp;
      [| intros Hs; inversion Hs; subst; by split].
    intros Hs. inversion Hs; subst; clear Hs.
    destruct (take_drop_length words 3) as [Hsplit Hlt]; [unfold lw; lia |].
    fold lw in Hsplit, Hlt.
    exists (drop (lw - 3) words). split; [exact Hsplit |].
    split; [by left |].
    rewrite (list3 _ Hlt). cbn [amountDigits wordAt nth].
    fold (wordAt (drop (lw - 3) words) 0) (wordAt (drop (lw - 3) words) 2).
    rewrite !wordAt_drop.
    replace (lw - 3 + 0)%nat with (lw - 3)%nat by lia.
    replace (lw - 3 + 2)%nat with (lw - 1)%nat by lia.
    assert (Hnum : reDigits (Str (wordAt words (lw - 3))
                             +:+ Str (wordAt words (lw - 1))) = true).
    { apply reDigits_app; [exact Hh |]. by apply reDigits_all. }
    destruct (ParseInt_digits_range _ _ Hnum Hp) as [-> Hr].
    split; [exact Hnum |]. split; [lia |].
    destruct (Column (wordAt words (lw - 3)) <? 500); [| reflexivity].
    by apply wrap64_neg.
Qed.

Lemma stripValue_sound_witness :
  let words := [word 100 "CHEQUE"; word 420 "12"; word 430 ",";
                word 435 "50"] in
  stripValue "" words = ([word 100 "CHEQUE"], -1250, true)
  /\ exists tail,
      words = [word 100 "CHEQUE"] ++ tail
      /\ (length tail = 3%nat \/ length tail = 5%nat)
      /\ reDigits (amountDigits tail) = true
      /\ digitsValue (amountDigits tail) 0 <= maxInt64
      /\ -1250 = (if Column (wordAt tail 0) <? 500
                  then - digitsValue (amountDigits tail) 0
                  else digitsValue (amountDigits tail) 0).
Proof.
  split; [vm_compute; reflexivity |].
  apply (stripValue_sound ""
           [word 100 "CHEQUE"; word 420 "12"; word 430 ","; word 435 "50"]
           [word 100 "CHEQUE"] (-1250) true).
  vm_compute. reflexivity.
Defined.

Lemma dateChars_app s1 s2 :
  dateChars (s1 +:+ s2) = dateChars s1 && dateChars s2.
Proof.
  induction s1 as [|c s1 IH]; simpl; [reflexivity |].
  rewrite IH. by rewrite andb_assoc.
Qed.

Lemma allDigits_dateChars s : allDigits s = true -> dateChars s = true.
Proof.
  induction s as [|c s IH]; simpl; [reflexivity |].
  intros Hd. apply andb_prop in Hd as [Hc Hs]. by rewrite Hc, IH.
Qed.

Lemma reDigits_nonempty s : reDigits s = true -> s <> "".
Proof. destruct s; [discriminate | congruence]. Qed.

Lemma stripDate_cases line words rest date :
  stripDate line words = (rest, date) ->
  (startsWithDate words = false /\ rest = words /\ date = "")
  \/ (startsWithDate words = true
      /\ exists h d t, words = h :: d :: t :: rest
           /\ date = Str h +:+ Str d +:+ Str t
           /\ reDigits (Str h) = true /\ Str d = "."
           /\ reDigits (Str t) = true).
Proof.
  unfold stripDate, startsWithDate.
  destruct words as [|h [|d [|t r]]]; simpl;
    try (intros Hs; inversion Hs; subst; left; by repeat split).
  unfold wordAt. simpl.
  destruct (reDigits (Str h)) eqn:Hh; simpl;
    [| intros Hs; inversion Hs; subst; left; by repeat split].
  destruct (String.eqb (Str d) ".") eqn:Hd; simpl;
    [| intros Hs; inversion Hs; subst; left; by repeat split].
  destruct (reDigits (Str t)) eqn:Ht; simpl;
    intros Hs; inversion Hs; subst; [right | left; by repeat split].
  split; [reflexivity |]. exists h, d, t.
  apply String.eqb_eq in Hd. by repeat split.
Qed.

Lemma stripDate_date line words rest date :
  stripDate line words = (rest, date) ->
  dateChars date = true
  /\ (date <> "" <-> startsWithDate words = true).
Proof.
  intros Hs.
  destruct (stripDate_cases _ _ _ _ Hs)
    as [(Hn & _ & ->) | (Hy & h & d & t & _ & -> & Hh & Hd & Ht)].
  - split; [reflexivity |]. rewrite Hn. split; [done | discriminate].
  - split.
    + rewrite !dateChars_app, Hd.
      rewrite (allDigits_dateChars (Str h)) by (by apply reDigits_all).
      rewrite (allDigits_dateChars (Str t)) by (by apply reDigits_all).
      reflexivity.
    + split; [done |]. intros _ He.
      destruct (Str h); [discriminate | discriminate].
Qed.

(** X2: what [parseOpLine] returns.  It never fails.  It returns no
    operation exactly when, one amount removed, the line still ends with
    an amount.  The operation it returns is an account change; its date
    is made of digits and dots, and is present exactly when the line
    begins with a number, a dot and a number; its label is the remaining
    words joined by spaces, its column that of the first of them, or 0;
    its amount is within the 64-bit range, and 0 when absent. *)
Theorem parseOpLine_shape (line : Line) :
  exists r,
    parseOpLine line = (r, None)
    /\ (r = None
        <-> snd (stripValue (LineValue line) (remainingWords line)) = true)
    /\ forall op, r = Some op ->
         IsTotal op = false
         /\ dateChars (Date op) = true
         /\ (Date op <> "" <-> startsWithDate (Words line) = true)
         /\ Source op = joinWords (remainingWords line)
         /\ SourceCol op = match remainingWords line with
                           | w :: _ => Column w
                           | [] => 0
                           end
         /\ - maxInt64 <= Value op <= maxInt64
         /\ (HasValue op = false -> Value op = 0).
Proof.
  unfold parseOpLine, remainingWords.
  destruct (stripDate (LineValue line) (Words line)) as [w date] eqn:Hd.
  destruct (stripDate_date _ _ _ _ Hd) as [Hchars Hdate].
  destruct (stripValue (LineValue line) w) as [[w1 v] offset] eqn:Hv.
  pose proof (stripValue_sound _ _ _ _ _ Hv) as Hsound.
  destruct (stripValue (LineValue line) w1) as [[w2 v2] offset2] eqn:Hv2.
  cbn [snd].
  destruct offset2.
  { exists None. split; [reflexivity |]. split; [done | discriminate]. }
  eexists. split; [reflexivity |]. split; [split; discriminate |].
  intros op Hop.
  assert (Hfields :
    IsTotal op = false /\ Date op = date /\ Source op = joinWords w1
    /\ SourceCol op = match w1 with w0 :: _ => Column w0 | [] => 0 end
    /\ Value op = (if offset then v else 0) /\ HasValue op = offset).
  { inversion Hop; subst op; clear Hop.
    destruct (String.eqb_spec date "") as [-> | Hne];
      destruct offset, w1 as [|w0 w1]; cbn; repeat split; reflexivity. }
  destruct Hfields as (Htot & Hdt & Hsrc & Hcol & Hval & Hhas).
  rewrite Htot, Hdt, Hsrc, Hcol, Hval, Hhas.
  split; [reflexivity |]. split; [exact Hchars |]. split; [exact Hdate |].
  split; [reflexivity |]. split; [reflexivity |].
  destruct offset; [| split; [unfold maxInt64; lia | done]].
  destruct Hsound as (tail & _ & _ & Hnum & Hmax & ->).
  pose proof (digitsValue_lower _ 0 (Z.le_refl 0) (reDigits_all _ Hnum)).
  split; [| discriminate].
  destruct (Column (wordAt tail 0) <? 500); lia.
Qed.

Lemma dateAtStart_shape s :
  dateAtStart s = true ->
  dateAtStart (substring 0 10 s) = true
  /\ String.length (substring 0 10 s) = 10%nat
  /\ dateChars (substring 0 10 s) = true.
Proof.
  destruct s as [|c1 [|c2 [|c3 [|c4 [|c5 [|c6 [|c7 [|c8 [|c9 [|c10 s]]]]]]]]]];
    try discriminate.
  cbn [dateAtStart]. intros Hd.
  do 9 (apply andb_prop in Hd as [Hd ?]).
  assert (Hs : substring 0 0 s = "") by (destruct s; reflexivity).
  cbn [substring dateAtStart String.length dateChars]. rewrite Hs.
  repeat match goal with
         | H : isDigit _ = true |- _ => rewrite H; clear H
         | H : Ascii.eqb _ _ = true |- _ => rewrite H; clear H
         end.
  cbn. rewrite !orb_true_r. by repeat split.
Qed.

Lemma lastDate_shape s : forall d,
  lastDate s = Some d ->
  dateAtStart d = true /\ String.length d = 10%nat /\ dateChars d = true.
Proof.
  induction s as [|c s IH]; intros d; [discriminate |].
  cbn [lastDate]. destruct (lastDate s) as [d'|].
  - intros Hd. apply IH. congruence.
  - destruct (dateAtStart (String c s)) eqn:Hs; [| discriminate].
    intros Hd. injection Hd as <-.
    exact (dateAtStart_shape (String c s) Hs).
Qed.

Lemma reStartFind_shape s d :
  reStartFind s = Some d ->
  HasPrefix s "SOLDE" = true
  /\ dateAtStart d = true /\ String.length d = 10%nat
  /\ dateChars d = true.
Proof.
  unfold reStartFind. destruct (HasPrefix s "SOLDE"); [| discriminate].
  destruct (substring 5 (String.length s - 5) s) as [|c r]; [discriminate |].
  destruct (isSpace c); [| discriminate].
  intros Hl. split; [reflexivity |]. by apply lastDate_shape in Hl.
Qed.

(** X3: what [parseTotalLine] returns.  A line that does not match the
    account state pattern gives neither operation nor error.  A line that
    matches gives an error when it does not end with an amount, and
    otherwise an account state whose date is the ten characters
    dd.dd.dddd found by the pattern, with an amount within the 64-bit
    range and the column -1. *)
Theorem parseTotalLine_shape (line : Line) :
  match reStartFind (LineValue line) with
  | None => parseTotalLine line = (None, None)
  | Some date =>
      dateAtStart date = true /\ String.length date = 10%nat
      /\ if snd (stripValue (LineValue line) (Words line))
         then exists op,
                parseTotalLine line = (Some op, None)
                /\ IsTotal op = true /\ HasValue op = true
                /\ SourceCol op = -1 /\ Date op = date
                /\ - maxInt64 <= Value op <= maxInt64
         else parseTotalLine line
              = (None, Some (ErrTotalLine (LineValue line)))
  end.
Proof.
  unfold parseTotalLine.
  destruct (reStartFind (LineValue line)) as [date|] eqn:Hre; [| reflexivity].
  destruct (reStartFind_shape _ _ Hre) as (_ & Hd & Hl & _).
  split; [exact Hd |]. split; [exact Hl |].
  destruct (stripValue (LineValue line) (Words line)) as [[w v] ok] eqn:Hv.
  pose proof (stripValue_sound _ _ _ _ _ Hv) as Hsound.
  cbn [snd]. destruct ok; cbn [negb]; [| reflexivity].
  eexists. split; [reflexivity |]. cbn. repeat split; try reflexivity;
    destruct Hsound as (tail & _ & _ & Hnum & Hmax & ->);
    pose proof (digitsValue_lower _ 0 (Z.le_refl 0) (reDigits_all _ Hnum));
    destruct (Column (wordAt tail 0) <? 500); lia.
Qed.

Lemma parseLine_wellformed line op :
  parseLine line = (Some op, None) ->
  dateChars (Date op) = true
  /\ - maxInt64 <= Value op <= maxInt64
  /\ (HasValue op = false -> Value op = 0)
  /\ (IsTotal op = true ->
      SourceCol op = -1 /\ HasValue op = true
      /\ String.length (Date op) = 10%nat).
Proof.
  unfold parseLine.
  pose proof (parseTotalLine_shape line) as Ht.
  destruct (reStartFind (LineValue line)) as [date|] eqn:Hre.
  - destruct Ht as (Hd & Hl & Ht).
    destruct (reStartFind_shape _ _ Hre) as (_ & _ & _ & Hc).
    destruct (snd (stripValue (LineValue line) (Words line))).
    + destruct Ht as (o & -> & Htot & Hhas & Hcol & Hdate & Hr).
      intros Hp. inversion Hp; subst op.
      rewrite Hdate, Hhas, Hcol.
      split; [exact Hc |]. split; [exact Hr |]. split; [discriminate |].
      intros _. by repeat split.
    + rewrite Ht. discriminate.
  - rewrite Ht.
    destruct (parseOpLine_shape line) as (r & -> & _ & Hop).
    intros Hp. inversion Hp; subst r.
    destruct (Hop op eq_refl) as (Htot & Hc & _ & _ & _ & Hr & Hz).
    rewrite Htot.
    split; [exact Hc |]. split; [exact Hr |]. split; [exact Hz |].
    discriminate.
Qed.

Lemma last_split (ops : list Op) prev :
  last ops = Some prev -> ops = removelast ops ++ [prev].
Proof.
  intros Hl. destruct ops as [|o ops] using rev_ind; [discriminate |].
  rewrite last_snoc in Hl. inversion Hl; subst.
  by rewrite removelast_last.
Qed.

Lemma consolidate_cases ops op :
  (hasDate op = true /\ consolidate ops op = ops ++ [op])
  \/ (hasDate op = false /\ ops = [] /\ consolidate ops op = [])
  \/ (hasDate op = false
      /\ exists prev prev',
           last ops = Some prev
           /\ consolidate ops op = removelast ops ++ [prev']
           /\ opFrame prev' = opFrame prev
           /\ (Value prev' = Value prev /\ HasValue prev' = HasValue prev
               \/ HasValue op = true /\ Value prev' = Value op
                  /\ HasValue prev' = true)).
Proof.
  unfold consolidate, hasDate.
  destruct (negb (String.eqb (Date op) "")); [by left | right].
  destruct (last ops) as [prev|] eqn:Hl.
  - right. split; [reflexivity |].
    destruct (HasValue op) eqn:Hv; cbn [orb].
    + eexists prev, _. split; [reflexivity |]. split; [reflexivity |].
      destruct (negb (String.eqb (Source op) "") && _);
        (split; [reflexivity | right; by repeat split]).
    + destruct (negb (String.eqb (Source op) "")) eqn:Hs; cbn [andb].
      * eexists prev, _. split; [reflexivity |]. split; [reflexivity |].
        destruct (SourceCol op =? SourceCol prev);
          (split; [reflexivity | left; by split]).
      * exists prev, prev. split; [reflexivity |].
        split; [by apply last_split |]. split; [reflexivity | left; by split].
  - left. apply last_None in Hl. by subst.
Qed.

Lemma consolidate_wellformed ops op :
  Forall wellFormedOp ops ->
  dateChars (Date op) = true ->
  - maxInt64 <= Value op <= maxInt64 ->
  (HasValue op = false -> Value op = 0) ->
  (IsTotal op = true ->
   SourceCol op = -1 /\ HasValue op = true
   /\ String.length (Date op) = 10%nat) ->
  Forall wellFormedOp (consolidate ops op)
  /\ (length (consolidate ops op) <= Datatypes.S (length ops))%nat.
Proof.
  intros Hall Hc Hr Hz Ht.
  destruct (consolidate_cases ops op)
    as [[Hd ->] | [(Hd & -> & ->) | (Hd & prev & prev' & Hl & -> & Hf & Hv)]].
  - split; [| rewrite length_app; simpl; lia].
    apply Forall_app. split; [exact Hall |]. constructor; [| constructor].
    unfold hasDate in Hd. apply negb_true_iff, String.eqb_neq in Hd.
    unfold wellFormedOp. tauto.
  - split; [constructor | simpl; lia].
  - pose proof (last_split _ _ Hl) as Hsplit.
    rewrite Hsplit in Hall. apply Forall_app in Hall as [Hinit Hlast].
    apply Forall_cons in Hlast as [(Hp1 & Hp2 & Hp3 & Hp4 & Hp5) _].
    split.
    + apply Forall_app. split; [exact Hinit |]. constructor; [| constructor].
      unfold opFrame in Hf. inversion Hf as [[Hfd Hfc Hft]].
      unfold wellFormedOp. rewrite Hfd, Hfc, Hft.
      destruct Hv as [[-> ->] | (Hov & -> & ->)]; [tauto |].
      split; [exact Hp1 |]. split; [exact Hp2 |]. split; [exact Hr |].
      split; [discriminate |].
      intros Htot. destruct (Hp5 Htot) as (? & ? & ?). by repeat split.
    + rewrite Hsplit at 2. rewrite !length_app. simpl. lia.
Qed.

Lemma parseOpsFrom_wellformed lines : forall acc ops err,
  Forall wellFormedOp acc ->
  parseOpsFrom lines acc = (ops, err) ->
  Forall wellFormedOp ops
  /\ (length ops <= length acc + length lines)%nat
  /\ (err <> None -> ops = []).
Proof.
  induction lines as [|line rest IH]; intros acc ops err Hacc; cbn [parseOpsFrom].
  - intros Hp. inversion Hp; subst. split; [exact Hacc |].
    split; [simpl; lia | done].
  - destruct (HasPrefix (LineValue line) "TOTAL DES MONTANTS").
    { intros Hp. destruct (IH _ _ _ Hacc Hp) as (? & ? & ?).
      split; [done |]. split; [simpl; lia | done]. }
    destruct (_ || _).
    { intros Hp. inversion Hp; subst. split; [exact Hacc |].
      split; [simpl; lia | done]. }
    destruct (parseLine line) as [[op|] [e|]] eqn:Hl.
    + intros Hp. inversion Hp; subst. split; [constructor |].
      split; [simpl; lia | done].
    + destruct (parseLine_wellformed _ _ Hl) as (Hc & Hr & Hz & Ht).
      destruct (consolidate_wellformed acc op Hacc Hc Hr Hz Ht) as [Hw Hlen].
      intros Hp. destruct (IH _ _ _ Hw Hp) as (? & ? & ?).
      split; [done |]. split; [simpl; lia | done].
    + intros Hp. inversion Hp; subst. split; [constructor |].
      split; [simpl; lia | done].
    + intros Hp. destruct (IH _ _ _ Hacc Hp) as (? & ? & ?).
      split; [done |]. split; [simpl; lia | done].
Qed.

(** X4: what [parseOps] guarantees.  Every operation it returns has a
    date, made of digits and dots, and an amount within the 64-bit range
    (0 when absent); an account state has the column -1, an amount and a
    date of ten characters.  There are at most as many operations as
    lines, and none when an error is returned. *)
Theorem parseOps_wellformed (lines : list Line) :
  Forall wellFormedOp (fst (parseOps lines))
  /\ (length (fst (parseOps lines)) <= length lines)%nat
  /\ (snd (parseOps lines) <> None -> fst (parseOps lines) = []).
Proof.
  unfold parseOps.
  destruct (parseOpsFrom lines []) as [ops err] eqn:Hp.
  destruct (parseOpsFrom_wellformed lines [] ops err) as (? & ? & ?);
    [constructor | exact Hp |].
  cbn [fst snd]. by repeat split.
Qed.

Lemma parseOpsFrom_frames lines : forall acc ops,
  parseOpsFrom lines acc = (ops, None) ->
  map opFrame ops
  = map opFrame acc ++ map opFrame (List.filter hasDate (lineOps lines)).
Proof.
  induction lines as [|line rest IH]; intros acc ops;
    cbn [parseOpsFrom lineOps].
  - intros Hp. inversion Hp; subst. by rewrite app_nil_r.
  - unfold isSummary, isFooter.
    destruct (HasPrefix (LineValue line) "TOTAL DES MONTANTS"); [apply IH |].
    destruct (_ || _).
    { intros Hp. inversion Hp; subst. by rewrite app_nil_r. }
    destruct (parseLine line) as [[op|] [e|]] eqn:Hl; try discriminate;
      [| apply IH].
    intros Hp. rewrite (IH _ _ Hp). cbn [List.filter].
    destruct (consolidate_cases acc op)
      as [[Hd ->] | [(Hd & -> & ->) | (Hd & prev & prev' & Hlast & -> & Hf & _)]];
      rewrite Hd.
    + rewrite map_app. cbn [map]. by rewrite <- app_assoc.
    + reflexivity.
    + f_equal. rewrite (last_split _ _ Hlast) at 2.
      rewrite !map_app. cbn [map]. by rewrite Hf.
Qed.

(** X5: consolidation in [parseOps] creates an operation for each line
    that has a date and for no other line, and never changes the date,
    the column or the kind of an operation: the operations returned are,
    in order and up to their labels and amounts, the operations of the
    lines that have a date. *)
Theorem parseOps_frames (lines : list Line) (ops : list Op) :
  parseOps lines = (ops, None) ->
  map opFrame ops = map opFrame (List.filter hasDate (lineOps lines)).
Proof. intros Hp. exact (parseOpsFrom_frames lines [] ops Hp). Qed.

Lemma parseOps_frames_witness :
  let l1 := lineOf [word 40 "05"; word 45 "."; word 50 "03";
                    word 100 "CARTE"] in
  let l2 := lineOf [word 100 "SUITE";
                    word 520 "20"; word 530 ","; word 535 "00"] in
  let l3 := lineOf [word 40 "06"; word 45 "."; word 50 "03";
                    word 100 "CHEQUE";
                    word 420 "5"; word 430 ","; word 435 "00"] in
  let ops := [ {| Date := "05.03"; Source := "CARTESUITE"; SourceCol := 100;
                  Value := 2000; HasValue := true; IsTotal := false |};
               {| Date := "06.03"; Source := "CHEQUE"; SourceCol := 100;
                  Value := -500; HasValue := true; IsTotal := false |} ] in
  parseOps [l1; l2; l3] = (ops, None)
  /\ map opFrame ops
     = map opFrame (List.filter hasDate (lineOps [l1; l2; l3])).
Proof.
  intros l1 l2 l3 ops.
  assert (Hp : parseOps [l1; l2; l3] = (ops, None))
    by (vm_compute; reflexivity).
  split; [exact Hp |]. exact (parseOps_frames _ _ Hp).
Defined.

Lemma footer_not_summary line : isFooter line = true -> isSummary line = false.
Proof.
  unfold isFooter, isSummary, HasPrefix.
  destruct (LineValue line) as [|c s]; [reflexivity |].
  cbn [String.prefix].
  destruct (ascii_dec "T" c) as [<- |]; [| reflexivity].
  cbn. discriminate.
Qed.

Lemma parseOpsFrom_footer line l2 l1 : forall acc,
  isFooter line = true ->
  parseOpsFrom (l1 ++ line :: l2) acc = parseOpsFrom l1 acc.
Proof.
  intros acc Hf. revert acc.
  induction l1 as [|l rest IH]; intros acc; cbn [app parseOpsFrom].
  - pose proof (footer_not_summary line Hf) as Hs.
    unfold isFooter in Hf. unfold isSummary in Hs. by rewrite Hs, Hf.
  - destruct (HasPrefix (LineValue l) "TOTAL DES MONTANTS"); [apply IH |].
    destruct (_ || _); [reflexivity |].
    destruct (parseLine l) as [[op|] [e|]]; try reflexivity; apply IH.
Qed.

Lemma parseOpsFrom_summary line l2 l1 : forall acc,
  isSummary line = true ->
  parseOpsFrom (l1 ++ line :: l2) acc = parseOpsFrom (l1 ++ l2) acc.
Proof.
  intros acc Hs. revert acc.
  induction l1 as [|l rest IH]; intros acc; cbn [app parseOpsFrom].
  - unfold isSummary in Hs. by rewrite Hs.
  - destruct (HasPrefix (LineValue l) "TOTAL DES MONTANTS"); [apply IH |].
    destruct (_ || _); [reflexivity |].
    destruct (parseLine l) as [[op|] [e|]]; try reflexivity; apply IH.
Qed.

(** X6: for [parseOps] a page ends at its first footer line ("BNP PARIBAS
    SA : capital de", "Montant de votre autorisation"): the lines after
    it, whatever they are, have no effect; and a summary line ("TOTAL DES
    MONTANTS") has no effect wherever it stands. *)
Theorem parseOps_boilerplate (l1 l2 : list Line) (line : Line) :
  (isFooter line = true -> parseOps (l1 ++ line :: l2) = parseOps l1)
  /\ (isSummary line = true ->
      parseOps (l1 ++ line :: l2) = parseOps (l1 ++ l2)).
Proof.
  split; intros Hl; unfold parseOps.
  - by apply parseOpsFrom_footer.
  - by apply parseOpsFrom_summary.
Qed.

Lemma parseOps_boilerplate_witness :
  let l1 := lineOf [word 40 "05"; word 45 "."; word 50 "03";
                    word 100 "CARTE";
                    word 520 "20"; word 530 ","; word 535 "00"] in
  let footer := lineOf [word 40 "BNP PARIBAS SA : capital de 2 499 597 122"] in
  let summary := lineOf [word 40 "TOTAL DES MONTANTS";
                         word 420 "5"; word 430 ","; word 435 "00";
                         word 520 "20"; word 530 ","; word 535 "00"] in
  isFooter footer = true /\ isSummary summary = true
  /\ parseOps ([l1] ++ footer :: [l1; l1]) = parseOps [l1]
  /\ parseOps ([l1] ++ summary :: [l1]) = parseOps ([l1] ++ [l1]).
Proof.
  intros l1 footer summary.
  split; [vm_compute; reflexivity |]. split; [vm_compute; reflexivity |].
  destruct (parseOps_boilerplate [l1] [l1; l1] footer) as [Hf _].
  destruct (parseOps_boilerplate [l1] [l1] summary) as [_ Hs].
  split; [apply Hf | apply Hs]; vm_compute; reflexivity.
Defined.

(** ** Further properties of the column filter *)

Lemma dominant_cases ops :
  (noColumn ops /\ dominantColumn ops = -1)
  \/ (0 <= dominantColumn ops
      /\ exists op, In op ops /\ SourceCol op = dominantColumn ops).
Proof.
  pose proof (vote_inv ops) as Hinv. unfold dominantColumn.
  destruct (vote ops) as [[cols maxCol] maxCount]. cbn [fst snd].
  destruct Hinv as [_ [(Hno & -> & _) | (Hm0 & Hm1 & Hmc & _)]].
  - by left.
  - right. split; [exact Hm0 |]. apply countCol_pos_In. lia.
Qed.

Lemma filter_kept ops op :
  In op (filterOnSourceColumn ops)
  <-> In op ops /\ keptBy (dominantColumn ops) op = true.
Proof. unfold filterOnSourceColumn. apply filter_In. Qed.

Lemma filter_all (f : Op -> bool) l :
  (forall op, In op l -> f op = true) -> List.filter f l = l.
Proof.
  induction l as [|o l IH]; intros Hall; [reflexivity |]. simpl.
  rewrite (Hall o) by (by left). f_equal. apply IH.
  intros op Hin. apply Hall. by right.
Qed.

(** X7: what [filterOnSourceColumn] leaves.  The operations kept that
    have a column (a non-negative one) are all in the same column; a
    page that is not empty is not emptied; and filtering again changes
    nothing. *)
Theorem filter_uniform (ops : list Op) :
  (forall a b,
     In a (filterOnSourceColumn ops) -> In b (filterOnSourceColumn ops) ->
     0 <= SourceCol a -> 0 <= SourceCol b -> SourceCol a = SourceCol b)
  /\ (ops <> [] -> filterOnSourceColumn ops <> [])
  /\ filterOnSourceColumn (filterOnSourceColumn ops)
     = filterOnSourceColumn ops.
Proof.
  assert (Hcol : forall a, In a (filterOnSourceColumn ops) ->
                   0 <= SourceCol a -> SourceCol a = dominantColumn ops).
  { intros a Ha Hdef. apply filter_kept in Ha as [_ Hk]. unfold keptBy in Hk.
    apply orb_prop in Hk as [Hk | Hk]; [apply Z.ltb_lt in Hk; lia |].
    by apply Z.eqb_eq. }
  split; [| split].
  - intros a b Ha Hb Hda Hdb. rewrite (Hcol a), (Hcol b); auto.
  - intros Hne Hnil.
    destruct (dominant_cases ops) as [[Hno Hd] | (Hd & op & Hin & Hc)].
    + destruct ops as [|o ops]; [done |].
      assert (Hk : In o (filterOnSourceColumn (o :: ops))).
      { apply filter_kept. split; [by left |]. unfold keptBy.
        assert (SourceCol o < 0) by (apply Hno; by left).
        apply orb_true_iff. left. by apply Z.ltb_lt. }
      by rewrite Hnil in Hk.
    + assert (Hk : In op (filterOnSourceColumn ops)).
      { apply filter_kept. split; [exact Hin |]. unfold keptBy.
        apply orb_true_iff. right. by apply Z.eqb_eq. }
      by rewrite Hnil in Hk.
  - set (kept := filterOnSourceColumn ops).
    unfold filterOnSourceColumn at 1. fold kept. apply filter_all.
    intros op Hin. unfold keptBy.
    destruct (SourceCol op <? 0) eqn:Hneg; [reflexivity |].
    apply Z.ltb_ge in Hneg. cbn [orb]. apply Z.eqb_eq.
    destruct (dominant_cases kept) as [[Hno _] | (_ & o & Ho & Hc)].
    + specialize (Hno op Hin). lia.
    + rewrite <- Hc. rewrite (Hcol op Hin Hneg).
      symmetry. apply Hcol; [exact Ho |].
      destruct (dominant_cases kept) as [[Hno _] | (Hd & _)];
        [specialize (Hno op Hin); lia |]. lia.
Qed.

Lemma filter_uniform_witness :
  let op c s := {| Date := "05.03"; Source := s; SourceCol := c;
                   Value := 0; HasValue := false; IsTotal := false |} in
  let ops := [op 250 "A"; op 100 "B"; op 100 "C";
              accountState "31.03.2021" 0] in
  ops <> [] /\ filterOnSourceColumn ops <> []
  /\ filterOnSourceColumn (filterOnSourceColumn ops)
     = filterOnSourceColumn ops.
Proof.
  intros op ops. split; [discriminate |].
  destruct (filter_uniform ops) as (_ & Hne & Hidem).
  split; [apply Hne; discriminate | exact Hidem].
Defined.

(** ** Further properties of the deduplication *)

Lemma chars_app s1 s2 :
  list_ascii_of_string (s1 +:+ s2)
  = list_ascii_of_string s1 ++ list_ascii_of_string s2.
Proof. induction s1 as [|c s1 IH]; simpl; [reflexivity | by rewrite IH]. Qed.

Lemma chars_inj s1 s2 :
  list_ascii_of_string s1 = list_ascii_of_string s2 -> s1 = s2.
Proof.
  intros He. rewrite <- (string_of_list_ascii_of_string s1).
  rewrite <- (string_of_list_ascii_of_string s2). by rewrite He.
Qed.

(** A text is cut in one way only at the first occurrence of a
    character, and at the last. *)
Lemma cut_first (P : ascii -> bool) (sep : ascii) (a : list ascii) :
  forall b x y,
    P sep = false -> forallb P a = true -> forallb P b = true ->
    a ++ sep :: x = b ++ sep :: y -> a = b /\ x = y.
Proof.
  induction a as [|c a IH]; intros [|d b] x y Hsep Ha Hb He; simpl in *.
  - by inversion He.
  - inversion He; subst. apply andb_prop in Hb as [Hd _]. congruence.
  - inversion He; subst. apply andb_prop in Ha as [Hc _]. congruence.
  - inversion He; subst.
    apply andb_prop in Ha as [_ Ha]. apply andb_prop in Hb as [_ Hb].
    destruct (IH b x y Hsep Ha Hb H1) as [-> ->]. by split.
Qed.

Lemma cut_last (P : ascii -> bool) (sep : ascii) (a b x y : list ascii) :
  P sep = false -> forallb P a = true -> forallb P b = true ->
  x ++ sep :: a = y ++ sep :: b -> x = y /\ a = b.
Proof.
  intros Hsep Ha Hb He.
  apply (f_equal (@rev ascii)) in He.
  rewrite !rev_app_distr in He. cbn [rev] in He.
  rewrite <- !app_assoc in He. cbn [app] in He.
  destruct (cut_first P sep (rev a) (rev b) (rev x) (rev y)) as [H1 H2];
    auto.
  - rewrite forallb_forall in *. intros c Hc. apply Ha. by apply in_rev.
  - rewrite forallb_forall in *. intros c Hc. apply Hb. by apply in_rev.
  - split.
    + rewrite <- (rev_involutive x), <- (rev_involutive y). by rewrite H2.
    + rewrite <- (rev_involutive a), <- (rev_involutive b). by rewrite H1.
Qed.

Lemma itoa_negative z : z < 0 -> itoa z = "-" +:+ itoa (- z).
Proof.
  intros Hz. unfold itoa.
  destruct (z <? 0) eqn:H1; [| lia].
  destruct (- z <? 0) eqn:H2; [lia | reflexivity].
Qed.

Lemma itoa_inj z1 z2 : itoa z1 = itoa z2 -> z1 = z2.
Proof.
  intros He.
  destruct (Z.lt_ge_cases z1 0) as [H1 | H1];
    destruct (Z.lt_ge_cases z2 0) as [H2 | H2].
  - rewrite (itoa_negative z1 H1), (itoa_negative z2 H2) in He.
    inversion He as [Hi]. change (itoa (- z1) = itoa (- z2)) in Hi.
    assert (Hv : - z1 = - z2).
    { transitivity (digitsValue (itoa (- z1)) 0);
        [symmetry; apply itoa_value; lia |].
      rewrite Hi. apply itoa_value. lia. }
    lia.
  - rewrite (itoa_negative z1 H1) in He.
    pose proof (itoa_digits z2 H2) as Hd. rewrite <- He in Hd. discriminate.
  - rewrite (itoa_negative z2 H2) in He.
    pose proof (itoa_digits z1 H1) as Hd. rewrite He in Hd. discriminate.
  - transitivity (digitsValue (itoa z1) 0);
      [symmetry; by apply itoa_value |].
    rewrite He. by apply itoa_value.
Qed.

Lemma allDigits_numberChars s :
  allDigits s = true -> forallb numberChar (list_ascii_of_string s) = true.
Proof.
  induction s as [|c s IH]; simpl; [reflexivity |].
  intros Hd. apply andb_prop in Hd as [Hc Hs].
  unfold numberChar at 1. by rewrite Hc, IH.
Qed.

Lemma itoa_numberChars z :
  forallb numberChar (list_ascii_of_string (itoa z +:+ ")")) = true.
Proof.
  rewrite chars_app, forallb_app.
  replace (forallb numberChar (list_ascii_of_string ")")) with true
    by reflexivity.
  rewrite andb_true_r.
  destruct (Z.lt_ge_cases z 0) as [Hz | Hz].
  - rewrite (itoa_negative z Hz), chars_app, forallb_app.
    replace (forallb numberChar (list_ascii_of_string "-")) with true
      by reflexivity.
    cbn [andb].
    apply allDigits_numberChars, reDigits_all, itoa_digits. lia.
  - apply allDigits_numberChars, reDigits_all, itoa_digits. lia.
Qed.

Lemma noDash_chars s :
  noDash s = true
  -> forallb (fun c => negb (Ascii.eqb c "-")) (list_ascii_of_string s)
     = true.
Proof.
  induction s as [|c s IH]; simpl; [reflexivity |].
  intros Hn. apply andb_prop in Hn as [Hc Hs]. by rewrite Hc, IH.
Qed.

Lemma dateChars_noDash s : dateChars s = true -> noDash s = true.
Proof.
  induction s as [|c s IH]; simpl; [reflexivity |].
  intros Hd. apply andb_prop in Hd as [Hc Hs]. rewrite (IH Hs), andb_true_r.
  destruct (Ascii.eqb_spec c "-") as [-> |]; [discriminate | reflexivity].
Qed.

Lemma hashOp_cut (a b : Op) :
  noDash (Date a) = true -> noDash (Date b) = true ->
  hashOp a = hashOp b ->
  Date a = Date b /\ Source a = Source b
  /\ itoa (Value a) = itoa (Value b).
Proof.
  intros Ha Hb He. unfold hashOp in He.
  apply (f_equal list_ascii_of_string) in He.
  rewrite !chars_app in He. cbn [list_ascii_of_string app] in He.
  destruct (cut_first (fun c => negb (Ascii.eqb c "-")) "-"
              _ _ _ _ eq_refl (noDash_chars _ Ha) (noDash_chars _ Hb) He)
    as [Hd Hrest].
  clear He.
  set (na := list_ascii_of_string (itoa (Value a))) in *.
  set (nb := list_ascii_of_string (itoa (Value b))) in *.
  set (sa := list_ascii_of_string (Source a)) in *.
  set (sb := list_ascii_of_string (Source b)) in *.
  assert (He : (sa ++ list_ascii_of_string "-%!f(int64")
                 ++ "="%char :: (na ++ [")"%char])
               = (sb ++ list_ascii_of_string "-%!f(int64")
                 ++ "="%char :: (nb ++ [")"%char])).
  { rewrite <- !app_assoc. exact Hrest. }
  destruct (cut_last numberChar "=" (na ++ [")"%char]) (nb ++ [")"%char])
              (sa ++ list_ascii_of_string "-%!f(int64")
              (sb ++ list_ascii_of_string "-%!f(int64") eq_refl)
    as [Hs Hn]; [| | exact He |].
  - pose proof (itoa_numberChars (Value a)) as Hq.
    by rewrite chars_app in Hq.
  - pose proof (itoa_numberChars (Value b)) as Hq.
    by rewrite chars_app in Hq.
  - apply app_inv_tail in Hs. apply app_inv_tail in Hn.
    split; [by apply chars_inj |]. split; by apply chars_inj.
Qed.

(** X8: the key [hashOp] tells operations apart.  For two operations
    whose dates have no hyphen, as those of the parser, equal keys mean
    equal dates, equal labels and equal amounts. *)
Theorem hashOp_injective (a b : Op) :
  noDash (Date a) = true -> noDash (Date b) = true ->
  hashOp a = hashOp b -> opTriple a = opTriple b.
Proof.
  intros Ha Hb He.
  destruct (hashOp_cut a b Ha Hb He) as (Hd & Hs & Hv).
  apply itoa_inj in Hv. unfold opTriple. by rewrite Hd, Hs, Hv.
Qed.

Lemma hashOp_injective_witness :
  let a := accountChange "05.03" "CARTE-A" (-1500) in
  let b := {| Date := "05.03"; Source := "CARTE-A"; SourceCol := 40;
              Value := -1500; HasValue := false; IsTotal := true |} in
  noDash (Date a) = true /\ noDash (Date b) = true
  /\ hashOp a = hashOp b /\ opTriple a = opTriple b.
Proof.
  intros a b.
  split; [reflexivity |]. split; [reflexivity |].
  split; [vm_compute; reflexivity |].
  apply hashOp_injective; vm_compute; reflexivity.
Defined.

(** Without the condition on the dates two different operations can have
    the same key. *)
Example hashOp_collision :
  let a := accountChange "05.03-X" "Y" 0 in
  let b := accountChange "05.03" "X-Y" 0 in
  hashOp a = hashOp b /\ opTriple a <> opTriple b.
Proof. split; [vm_compute; reflexivity | discriminate]. Qed.

Lemma hashOp_same_triple (a b : Op) :
  noDash (Date a) = true -> noDash (Date b) = true ->
  hashOp a = hashOp b
  <-> Date a = Date b /\ Source a = Source b /\ Value a = Value b.
Proof.
  intros Ha Hb. split.
  - intros He. destruct (hashOp_cut a b Ha Hb He) as (Hd & Hs & Hv).
    apply itoa_inj in Hv. by repeat split.
  - intros (Hd & Hs & Hv). unfold hashOp. by rewrite Hd, Hs, Hv.
Qed.

Lemma parsed_dates_noDash lines op :
  In op (fst (parseOps lines)) -> noDash (Date op) = true.
Proof.
  unfold parseOps. intros Hin.
  destruct (parseOpsFrom lines []) as [ops err] eqn:Hp.
  destruct (parseOpsFrom_wellformed lines [] ops err) as (Hwf & _ & _);
    [constructor | exact Hp |].
  cbn [fst] in Hin. apply list_elem_of_In in Hin.
  rewrite Forall_forall in Hwf. destruct (Hwf op Hin) as (_ & Hd & _).
  by apply dateChars_noDash.
Qed.

Lemma triples_NoDup_keys (l : list Op) :
  (forall op, In op l -> noDash (Date op) = true) ->
  NoDup (map opTriple l) -> NoDup (map hashOp l).
Proof.
  intros Hdash. induction l as [|a l IH]; intros Hnd; [constructor |].
  cbn [map] in *. apply NoDup_cons in Hnd as [Hni Hnd].
  apply NoDup_cons. split.
  - intros Hin. apply Hni.
    apply list_elem_of_In in Hin. apply in_map_iff in Hin as (b & Hkey & Hb).
    apply list_elem_of_In. apply in_map_iff. exists b. split; [| exact Hb].
    apply (hashOp_same_triple b a) in Hkey as (Hd & Hs & Hv);
      [| apply Hdash; by right | apply Hdash; by left].
    unfold opTriple. by rewrite Hd, Hs, Hv.
  - apply IH; [| exact Hnd]. intros op Hin. apply Hdash. by right.
Qed.

(** C8: over the pages of a document, [extractPDFOps] returns the
    operations in their order of appearance, one for each key [hashOp]:
    an operation is kept exactly when no operation before it, on this
    page or on an earlier one, has the same key.  When the operations of
    a second page all appear on the first page, whose keys are distinct,
    the result is the first page.  The key is the date, the source label
    and the amount, written one after the other with a hyphen between
    them.  The dates of the operations of the parser have no hyphen; on
    pages of such operations two operations have the same key exactly
    when they have the same date, the same source label and the same
    amount, so that the result has one operation for each date, source
    label and amount that occurs, an operation is dropped exactly when
    an operation before it has its date, its source label and its
    amount, and a second page that repeats operations of a first page
    without repetitions adds nothing. *)
Theorem dedup_keeps_first_occurrences (pages : list (list Op)) :
  exists out,
    extractPDFOps (okPages pages) = (out, None)
    /\ sublist out (concat pages)
    /\ NoDup (map hashOp out)
    /\ (forall op, In op (concat pages) -> In (hashOp op) (map hashOp out))
    /\ (forall l1 op l2, concat pages = l1 ++ op :: l2 ->
          exists out1 out2,
            extractPDFOps (okPages [l1]) = (out1, None)
            /\ sublist out1 l1 /\ sublist out2 l2
            /\ out = out1
                     ++ (if decide (hashOp op ∈ map hashOp l1)
                         then [] else [op])
                     ++ out2)
    /\ (forall p1 p2, pages = [p1; p2] ->
          NoDup (map hashOp p1) -> (forall op, In op p2 -> In op p1) ->
          out = p1)
    /\ (forall op,
          hashOp op
          = Date op +:+ "-" +:+ Source op +:+ "-"
            +:+ ("%!f(int64=" +:+ itoa (Value op) +:+ ")"))
    /\ (forall lines op,
          In op (fst (parseOps lines)) -> noDash (Date op) = true)
    /\ ((forall op, In op (concat pages) -> noDash (Date op) = true) ->
        (forall a b, In a (concat pages) -> In b (concat pages) ->
           (hashOp a = hashOp b
            <-> Date a = Date b /\ Source a = Source b
                /\ Value a = Value b))
        /\ NoDup (map opTriple out)
        /\ (forall op, In op (concat pages) ->
              In (opTriple op) (map opTriple out))
        /\ (forall l1 op l2, concat pages = l1 ++ op :: l2 ->
              (hashOp op ∈ map hashOp l1
               <-> exists o, In o l1 /\ Date o = Date op
                     /\ Source o = Source op /\ Value o = Value op))
        /\ (forall p1 p2, pages = [p1; p2] ->
              NoDup (map opTriple p1) -> (forall op, In op p2 -> In op p1) ->
              out = p1)).
Proof.
  assert (Hrep : forall p1 p2, pages = [p1; p2] ->
            NoDup (map hashOp p1) -> (forall op, In op p2 -> In op p1) ->
            newOps ∅ (concat pages) = p1).
  { intros p1 p2 -> Hnd Hsub. simpl. rewrite app_nil_r, newOps_app.
    rewrite newOps_fresh by (auto using isSeen_empty).
    rewrite newOps_all_seen; [by rewrite app_nil_r |].
    intros op Hin. apply isSeen_markAll. right. apply in_map. by apply Hsub. }
  assert (Hcov : forall op, In op (concat pages) ->
            In (hashOp op) (map hashOp (newOps ∅ (concat pages)))).
  { intros op Hin.
    destruct (newOps_covers _ ∅ op Hin) as [Hs | Hk]; [| exact Hk].
    rewrite isSeen_empty in Hs. discriminate. }
  exists (newOps ∅ (concat pages)).
  split; [apply extractPDFOps_ok |].
  split; [apply newOps_sublist |].
  split; [apply newOps_NoDup |].
  split; [exact Hcov |].
  split; [| split; [exact Hrep |]].
  - intros l1 op l2 ->.
    exists (newOps ∅ l1), (newOps (markAll ∅ (l1 ++ [op])) l2).
    split; [rewrite extractPDFOps_ok; simpl; by rewrite app_nil_r |].
    split; [apply newOps_sublist |]. split; [apply newOps_sublist |].
    rewrite newOps_app. f_equal.
    change (op :: l2) with ([op] ++ l2).
    rewrite newOps_app. f_equal.
    + simpl. destruct (decide (hashOp op ∈ map hashOp l1)) as [Hin | Hni].
      * assert (Hs : isSeen (markAll ∅ l1) (hashOp op) = true)
          by (apply isSeen_markAll; right; by apply list_elem_of_In).
        by rewrite Hs.
      * destruct (isSeen (markAll ∅ l1) (hashOp op)) eqn:Hs; [| reflexivity].
        apply isSeen_markAll in Hs as [Hs | Hs];
          [| by apply list_elem_of_In in Hs].
        rewrite isSeen_empty in Hs. discriminate.
    + unfold markAll. by rewrite !fold_left_app.
  - split; [intros op; reflexivity |].
    split; [exact parsed_dates_noDash |].
    intros Hdash.
    split; [intros a b Ha Hb; apply hashOp_same_triple; by apply Hdash |].
    split; [| split; [| split]].
    + apply (NoDup_fmap_1 tripleKey).
      change (NoDup (map tripleKey
                       (map opTriple (newOps ∅ (concat pages))))).
      rewrite map_map. exact (newOps_NoDup (concat pages) ∅).
    + intros op Hin.
      destruct (proj1 (in_map_iff _ _ _) (Hcov op Hin)) as (o & Hkey & Ho).
      apply in_map_iff. exists o. split; [| exact Ho].
      assert (Hdo : noDash (Date o) = true).
      { apply Hdash. apply list_elem_of_In.
        eapply elem_of_sublist; [| apply (newOps_sublist (concat pages) ∅)].
        by apply list_elem_of_In. }
      apply (hashOp_same_triple o op Hdo (Hdash op Hin)) in Hkey
        as (Hd & Hs & Hv).
      unfold opTriple. by rewrite Hd, Hs, Hv.
    + intros l1 op l2 Hcat.
      assert (Hop : noDash (Date op) = true).
      { apply Hdash. rewrite Hcat. apply in_or_app. right. by left. }
      assert (Hl1 : forall o, In o l1 -> noDash (Date o) = true).
      { intros o Ho. apply Hdash. rewrite Hcat. apply in_or_app. by left. }
      rewrite list_elem_of_In, in_map_iff. split.
      * intros (o & Hkey & Ho). exists o. split; [exact Ho |].
        by apply (hashOp_same_triple o op (Hl1 o Ho) Hop).
      * intros (o & Ho & Hsame). exists o. split; [| exact Ho].
        by apply (hashOp_same_triple o op (Hl1 o Ho) Hop).
    + intros p1 p2 Hp Hnd Hsub. apply (Hrep p1 p2 Hp); [| exact Hsub].
      apply triples_NoDup_keys; [| exact Hnd].
      intros op Hin. apply Hdash. rewrite Hp. simpl.
      apply in_or_app. by left.
Qed.

Lemma dedup_keeps_first_occurrences_witness :
  let a := accountState "01.03.2021" 10000 in
  let b := accountChange "02.03" "CARTE" (-1500) in
  let c := accountChange "04.03" "CHEQUE-BANQUE" (-500) in
  let d := accountChange "05.03" "VIREMENT" 2000 in
  let p1 := [a; b; c; d] in
  let p2 := [b; c; d] in
  NoDup (map hashOp p1) /\ (forall op, In op p2 -> In op p1)
  /\ (forall op, In op (concat [p1; p2]) -> noDash (Date op) = true)
  /\ NoDup (map opTriple p1)
  /\ extractPDFOps (okPages [p1; p2]) = (p1, None).
Proof.
  intros a b c d p1 p2.
  assert (Hnd : NoDup (map hashOp p1)).
  { vm_compute.
    repeat (apply NoDup_cons_2;
            [rewrite list_elem_of_In; simpl; intuition discriminate |]).
    constructor. }
  assert (Hsub : forall op, In op p2 -> In op p1).
  { intros op Hin. by right. }
  assert (Hdash : forall op, In op (concat [p1; p2]) ->
                    noDash (Date op) = true).
  { intros op Hin. simpl in Hin.
    repeat (destruct Hin as [<- | Hin]; [reflexivity |]). destruct Hin. }
  destruct (dedup_keeps_first_occurrences [p1; p2])
    as (out & Hout & _ & _ & _ & _ & _ & _ & _ & Htriples).
  destruct (Htriples Hdash) as (_ & _ & _ & _ & Hrep).
  assert (Hnt : NoDup (map opTriple p1)).
  { vm_compute.
    repeat (apply NoDup_cons_2;
            [rewrite list_elem_of_In; simpl; intuition discriminate |]).
    constructor. }
  split; [exact Hnd |]. split; [exact Hsub |].
  split; [exact Hdash |]. split; [exact Hnt |].
  rewrite Hout. f_equal. by apply (Hrep p1 p2).
Defined.

(** X9: on pages whose dates have no hyphen, as those of the parser,
    [extractPDFOps] returns, in the order of the pages, exactly one
    operation for each date, label and amount that occurs: no operation
    is dropped for another one that differs from it in one of these. *)
Theorem dedup_by_triple (pages : list (list Op)) :
  (forall op, In op (concat pages) -> noDash (Date op) = true) ->
  exists out,
    extractPDFOps (okPages pages) = (out, None)
    /\ sublist out (concat pages)
    /\ NoDup (map opTriple out)
    /\ forall op, In op (concat pages) ->
         In (opTriple op) (map opTriple out).
Proof.
  intros Hdash. exists (newOps ∅ (concat pages)).
  split; [apply extractPDFOps_ok |].
  split; [apply newOps_sublist |]. split.
  - apply (NoDup_fmap_1 tripleKey).
    change (NoDup (map tripleKey (map opTriple (newOps ∅ (concat pages))))).
    rewrite map_map. exact (newOps_NoDup (concat pages) ∅).
  - intros op Hin.
    destruct (newOps_covers _ ∅ op Hin) as [Hs | Hk].
    { rewrite isSeen_empty in Hs. discriminate. }
    apply in_map_iff in Hk as (o & Hkey & Ho).
    apply in_map_iff. exists o. split; [| exact Ho].
    assert (Hdo : noDash (Date o) = true).
    { apply Hdash. apply list_elem_of_In.
      eapply elem_of_sublist; [| apply (newOps_sublist (concat pages) ∅)].
      by apply list_elem_of_In. }
    destruct (hashOp_cut o op Hdo (Hdash op Hin) Hkey) as (Hd & Hs & Hv).
    apply itoa_inj in Hv. unfold opTriple. by rewrite Hd, Hs, Hv.
Qed.

Lemma dedup_by_triple_witness :
  let a := accountState "01.03.2021" 10000 in
  let b := accountChange "02.03" "CARTE" (-1500) in
  let c := accountChange "02.03" "CARTE" (-1600) in
  let pages := [[a; b; c]; [b; c]] in
  (forall op, In op (concat pages) -> noDash (Date op) = true)
  /\ exists out,
       extractPDFOps (okPages pages) = (out, None)
       /\ sublist out (concat pages)
       /\ NoDup (map opTriple out)
       /\ forall op, In op (concat pages) ->
            In (opTriple op) (map opTriple out).
Proof.
  intros a b c pages.
  assert (Hd : forall op, In op (concat pages) -> noDash (Date op) = true).
  { intros op Hin. simpl in Hin.
    repeat (destruct Hin as [<- | Hin]; [reflexivity |]). destruct Hin. }
  split; [exact Hd |]. exact (dedup_by_triple pages Hd).
Defined.

Lemma extractPDFOpsFrom_error ps ops e rest : forall seen acc,
  extractPDFOpsFrom (okPages ps ++ (ops, Some e) :: rest) seen acc
  = ([], Some e).
Proof.
  induction ps as [|p ps IH]; intros seen acc; cbn; [reflexivity |].
  destruct (dedupPage p seen acc) as [seen1 acc1]. apply IH.
Qed.

(** X10: [extractPDFOps] on failures and on its own result.  When
    [extractOps] fails on a page, the error of the first such page is
    returned and no operation is, whatever the pages before it gave.  The
    operations returned for a document, given again as a one-page
    document, are returned unchanged. *)
Theorem extractPDFOps_pages (pages : list (list Op)) :
  (forall ops e rest,
     extractPDFOps (okPages pages ++ (ops, Some e) :: rest) = ([], Some e))
  /\ extractPDFOps (okPages [fst (extractPDFOps (okPages pages))])
     = extractPDFOps (okPages pages).
Proof.
  split.
  - intros ops e rest. apply extractPDFOpsFrom_error.
  - rewrite !extractPDFOps_ok. cbn [fst concat]. rewrite app_nil_r.
    f_equal. apply newOps_fresh; [| apply newOps_NoDup].
    intros op _. apply isSeen_empty.
Qed.

(** ** Further properties of the conversion into account values *)

Lemma digitChar_digitValue c :
  isDigit c = true -> digitChar (digitValue c) = c /\ 0 <= digitValue c <= 9.
Proof.
  unfold isDigit, digitChar, digitValue. intros Hd.
  apply andb_prop in Hd as [Hlo Hhi].
  apply N.leb_le in Hlo. apply N.leb_le in Hhi.
  split; [| lia].
  replace (Z.to_N (48 + (Z.of_N (N_of_ascii c) - 48))) with (N_of_ascii c)
    by lia.
  apply ascii_N_embedding.
Qed.

Lemma pad2_digits a b :
  isDigit a = true -> isDigit b = true ->
  pad2 (digitValue a * 10 + digitValue b) = String a (String b "").
Proof.
  intros Ha Hb.
  destruct (digitChar_digitValue a Ha) as [Ea Ra].
  destruct (digitChar_digitValue b Hb) as [Eb Rb].
  unfold pad2.
  replace ((digitValue a * 10 + digitValue b) / 10) with (digitValue a)
    by (apply Z.div_unique with (r := digitValue b); lia).
  replace ((digitValue a * 10 + digitValue b) mod 10) with (digitValue b)
    by (apply Z.mod_unique with (q := digitValue a); lia).
  by rewrite Ea, Eb.
Qed.

Lemma pad4_digits a b c d :
  isDigit a = true -> isDigit b = true -> isDigit c = true ->
  isDigit d = true ->
  let n := digitsValue (String a (String b (String c (String d "")))) 0 in
  pad4 n = String a (String b (String c (String d ""))) /\ 0 <= n <= 9999.
Proof.
  intros Ha Hb Hc Hd. cbn [digitsValue].
  destruct (digitChar_digitValue a Ha) as [Ea Ra].
  destruct (digitChar_digitValue b Hb) as [Eb Rb].
  destruct (digitChar_digitValue c Hc) as [Ec Rc].
  destruct (digitChar_digitValue d Hd) as [Ed Rd].
  set (n := ((0 * 10 + digitValue a) * 10 + digitValue b) * 10
            + digitValue c).
  split; [| lia]. unfold pad4, pad3.
  replace ((n * 10 + digitValue d) / 1000) with (digitValue a)
    by (apply Z.div_unique
          with (r := digitValue b * 100 + digitValue c * 10 + digitValue d);
        lia).
  replace ((n * 10 + digitValue d) mod 1000)
    with (digitValue b * 100 + digitValue c * 10 + digitValue d)
    by (apply Z.mod_unique with (q := digitValue a); lia).
  replace ((digitValue b * 100 + digitValue c * 10 + digitValue d) / 100)
    with (digitValue b)
    by (apply Z.div_unique with (r := digitValue c * 10 + digitValue d);
        lia).
  replace ((digitValue b * 100 + digitValue c * 10 + digitValue d) mod 100)
    with (digitValue c * 10 + digitValue d)
    by (apply Z.mod_unique with (q := digitValue b); lia).
  rewrite (pad2_digits c d Hc Hd). by rewrite Ea, Eb.
Qed.

(** [timeParse] accepts the texts dd.mm.yyyy of the calendar dates, and
    no other text. *)
Lemma timeParse_inv s t :
  timeParse s = Some t -> validDate t /\ s = formatDate t.
Proof.
  unfold timeParse.
  destruct s as [|d1 [|d2 s]]; try discriminate. cbn [getnum2].
  destruct (isDigit d1 && isDigit d2) eqn:Hd; [| discriminate].
  apply andb_prop in Hd as [Hd1 Hd2].
  destruct s as [|p1 s]; [discriminate |]. cbn [skipDot].
  destruct (Ascii.eqb_spec p1 ".") as [-> |]; [| discriminate].
  destruct s as [|m1 [|m2 s]]; try discriminate. cbn [getnum2].
  destruct (isDigit m1 && isDigit m2) eqn:Hm; [| discriminate].
  apply andb_prop in Hm as [Hm1 Hm2].
  destruct ((digitValue m1 * 10 + digitValue m2 <=? 0)
            || (12 <? digitValue m1 * 10 + digitValue m2)) eqn:Hmr;
    [discriminate |].
  apply orb_false_elim in Hmr as [Hmlo Hmhi].
  apply Z.leb_gt in Hmlo. apply Z.ltb_ge in Hmhi.
  destruct s as [|p2 s]; [discriminate |]. cbn [skipDot].
  destruct (Ascii.eqb_spec p2 ".") as [-> |]; [| discriminate].
  destruct s as [|y1 [|y2 [|y3 [|y4 s]]]]; try discriminate.
  cbn [getyear4].
  destruct (isDigit y1 && isDigit y2 && isDigit y3 && isDigit y4) eqn:Hy;
    [| discriminate].
  apply andb_prop in Hy as [Hy Hy4]. apply andb_prop in Hy as [Hy Hy3].
  apply andb_prop in Hy as [Hy1 Hy2].
  destruct s; [| discriminate].
  destruct ((digitValue d1 * 10 + digitValue d2 <? 1) || _) eqn:Hdr;
    [discriminate |].
  apply orb_false_elim in Hdr as [Hdlo Hdhi].
  apply Z.ltb_ge in Hdlo. apply Z.ltb_ge in Hdhi.
  intros Ht. injection Ht as <-.
  destruct (pad4_digits y1 y2 y3 y4 Hy1 Hy2 Hy3 Hy4) as [Hp4 Hyr].
  cbn [digitsValue] in *.
  split.
  - unfold validDate. cbn [year month day]. lia.
  - unfold formatDate. cbn [year month day].
    rewrite Hp4, (pad2_digits d1 d2 Hd1 Hd2), (pad2_digits m1 m2 Hm1 Hm2).
    reflexivity.
Qed.

Lemma pad4_value n :
  0 <= n <= 9999 ->
  allDigits (pad4 n) = true /\ digitsValue (pad4 n) 0 = n.
Proof.
  intros Hn. unfold pad4.
  destruct (digitChar_spec (n / 1000)) as [Hd1 Hv1].
  { split; [apply Z.div_pos; lia |].
    apply Z.lt_succ_r, Z.div_lt_upper_bound; lia. }
  destruct (pad3_spec (n mod 1000) (0 * 10 + n / 1000)) as (Ha & Hv).
  { pose proof (Z.mod_pos_bound n 1000). lia. }
  split.
  - cbn [allDigits]. rewrite Hd1. by apply reDigits_all.
  - cbn [digitsValue]. rewrite Hv1, Hv.
    pose proof (Z.div_mod n 1000). lia.
Qed.

Lemma forallb_digits s :
  allDigits s = true <-> forallb isDigit (list_ascii_of_string s) = true.
Proof.
  induction s as [|c s IH]; simpl; [tauto |].
  rewrite !andb_true_iff, IH. tauto.
Qed.

(** A date read from a day and month followed by a year: the year is
    that year, the day and month are the ones written. *)
Lemma timeParse_suffix d y t :
  0 <= y -> timeParse (d +:+ "." +:+ itoa y) = Some t ->
  validDate t /\ year t = y
  /\ d = pad2 (day t) +:+ "." +:+ pad2 (month t).
Proof.
  intros Hy Hp. destruct (timeParse_inv _ _ Hp) as [Hvalid Hs].
  split; [exact Hvalid |]. destruct Hvalid as (Hyr & _).
  destruct (pad4_value (year t) Hyr) as [Hda Hdv].
  unfold formatDate in Hs.
  apply (f_equal list_ascii_of_string) in Hs.
  rewrite !chars_app in Hs.
  change (list_ascii_of_string ".") with ["."%char] in Hs.
  rewrite !app_assoc in Hs. rewrite <- !(app_assoc _ ["."%char]) in Hs.
  cbn [app] in Hs.
  destruct (cut_last isDigit "." _ _ _ _ eq_refl
              (proj1 (forallb_digits _) (reDigits_all _ (itoa_digits y Hy)))
              (proj1 (forallb_digits _) Hda) Hs) as [Hpre He].
  apply chars_inj in He. split.
  - rewrite <- Hdv, <- He. by apply itoa_value.
  - apply chars_inj. rewrite Hpre, !chars_app. reflexivity.
Qed.

Lemma pad2_inj a b :
  0 <= a < 100 -> 0 <= b < 100 -> pad2 a = pad2 b -> a = b.
Proof.
  intros Ha Hb He.
  destruct (pad2_spec a 0 Ha) as (_ & _ & Hva).
  destruct (pad2_spec b 0 Hb) as (_ & _ & Hvb).
  rewrite He in Hva. lia.
Qed.

Lemma daysIn_bound m y : daysIn m y <= 31.
Proof.
  unfold daysIn.
  destruct ((m =? 2) && isLeap y); [lia |].
  destruct (m =? 2); [lia |]. destruct (_ || _); lia.
Qed.

Lemma day_month_inj t u :
  validDate t -> validDate u ->
  pad2 (day t) +:+ "." +:+ pad2 (month t)
  = pad2 (day u) +:+ "." +:+ pad2 (month u) ->
  day t = day u /\ month t = month u.
Proof.
  intros (_ & Hmt & Hdt) (_ & Hmu & Hdu) He.
  pose proof (daysIn_bound (month t) (year t)).
  pose proof (daysIn_bound (month u) (year u)).
  unfold pad2 at 1 3 in He. inversion He as [[H1 H2 H3 H4]].
  split.
  - apply pad2_inj; [lia | lia |]. unfold pad2. by rewrite H1, H2.
  - apply pad2_inj; [lia | lia |]. unfold pad2. by rewrite H3, H4.
Qed.

(** What [resolveDate] returns: a date with the day and month written,
    in the year of the previous date or in the next one, and not before
    the previous date. *)
Lemma resolveDate_inv d prev t :
  0 <= year prev -> resolveDate d prev = inl t ->
  validDate t
  /\ d = pad2 (day t) +:+ "." +:+ pad2 (month t)
  /\ After prev t = false
  /\ (year t = year prev
      \/ year t = year prev + 1
         /\ After prev {| year := year prev; month := month t;
                          day := day t |} = true).
Proof.
  intros Hy. unfold resolveDate.
  destruct (timeParse (d +:+ "." +:+ itoa (year prev))) as [t0|] eqn:H0;
    [| discriminate].
  destruct (timeParse_suffix _ _ _ Hy H0) as (Hv0 & Hy0 & Hd0).
  destruct (After prev t0) eqn:Ha.
  - destruct (timeParse (d +:+ "." +:+ itoa (year prev + 1))) as [t1|] eqn:H1;
      [| discriminate].
    intros Ht. injection Ht as <-.
    assert (Hy' : 0 <= year prev + 1) by lia.
    destruct (timeParse_suffix _ _ _ Hy' H1) as (Hv1 & Hy1 & Hd1).
    split; [exact Hv1 |]. split; [exact Hd1 |]. split.
    + unfold After. rewrite Hy1.
      destruct (year prev + 1 <? year prev) eqn:Hlt; [lia |].
      destruct (year prev + 1 =? year prev) eqn:Heq; [lia | reflexivity].
    + right. split; [exact Hy1 |].
      destruct (day_month_inj t0 t1 Hv0 Hv1) as [Hday Hmonth];
        [by rewrite <- Hd0, <- Hd1 |].
      rewrite <- Hday, <- Hmonth, <- Hy0. by destruct t0.
  - intros Ht. injection Ht as <-.
    split; [exact Hv0 |]. split; [exact Hd0 |]. split; [exact Ha |].
    by left.
Qed.

Lemma follows_dates ops : forall prev total vals,
  (forall pv, prev = Some pv -> validDate (VDate pv)) ->
  follows prev total ops vals ->
  map VSource vals = map Source ops
  /\ Forall (fun v => validDate (VDate v)) vals.
Proof.
  induction ops as [|op ops IH]; intros prev total [|v vals] Hprev Hf;
    simpl in Hf; try done.
  destruct Hf as [[Hsrc Hstep] Hf].
  assert (Hv : validDate (VDate v)).
  { destruct (IsTotal op).
    - destruct Hstep as (_ & _ & Hp). by apply timeParse_inv in Hp as [? _].
    - destruct Hstep as (_ & pv & -> & Hr).
      assert (Hpv : validDate (VDate pv)) by (by apply Hprev).
      apply resolveDate_inv in Hr as [? _]; [done |].
      destruct Hpv as [? _]. lia. }
  destruct (IH (Some v) (VValue v) vals) as [Hs Hall]; [| exact Hf |].
  { intros pv Hpv. by inversion Hpv; subst. }
  split; [cbn [map]; by rewrite Hsrc, Hs | by constructor].
Qed.

(** X11: what [convertOpsToValues] emits.  For an accepted sequence the
    values carry the labels of the operations, in order; every date is a
    calendar date of the years 0 to 9999; the date of the value of an
    account state is the date written in it. *)
Theorem convert_labels_dates (ops : list Op) (values : list AccountValue) :
  convertOpsToValues ops = (values, None) ->
  map VSource values = map Source ops
  /\ Forall (fun v => validDate (VDate v)) values
  /\ forall i op v,
       ops !! i = Some op -> values !! i = Some v -> IsTotal op = true ->
       Date op = formatDate (VDate v).
Proof.
  intros Hc.
  destruct (convert_accepted _ _ Hc) as (first & Hh & Hft & _ & _ & Hf).
  destruct (follows_dates ops None (Value first) values) as [Hs Hall];
    [discriminate | exact Hf |].
  split; [exact Hs |]. split; [exact Hall |].
  intros i op v Ho Hv Htot.
  destruct i as [|i].
  - destruct ops as [|o ops], values as [|w values]; simpl in *; try done.
    inversion Ho; inversion Hv; subst.
    destruct Hf as [[_ Hstep] _]. rewrite Htot in Hstep.
    destruct Hstep as (_ & _ & Hp). by apply timeParse_inv in Hp as [_ ?].
  - destruct (lookup_lt_is_Some_2 values i) as [pv Hpv].
    { apply lookup_lt_Some in Hv. lia. }
    pose proof (follows_lookup _ _ _ _ _ _ _ _ Hf Ho Hpv Hv) as [_ Hstep].
    rewrite Htot in Hstep. destruct Hstep as (_ & _ & Hp).
    by apply timeParse_inv in Hp as [_ ?].
Qed.

Lemma convert_labels_dates_witness :
  let ops := [accountState "31.12.2020" 10000;
              accountChange "02.01" "VIREMENT" (-2500);
              accountState "03.01.2021" 7500] in
  let values := [{| VDate := civil 2020 12 31;
                    VSource := "SOLDE CREDITEUR AU"; VValue := 10000 |};
                 {| VDate := civil 2021 1 2;
                    VSource := "VIREMENT"; VValue := 7500 |};
                 {| VDate := civil 2021 1 3;
                    VSource := "SOLDE CREDITEUR AU"; VValue := 7500 |}] in
  convertOpsToValues ops = (values, None)
  /\ map VSource values = map Source ops
  /\ Forall (fun v => validDate (VDate v)) values
  /\ forall i op v,
       ops !! i = Some op -> values !! i = Some v -> IsTotal op = true ->
       Date op = formatDate (VDate v).
Proof.
  split; [vm_compute; reflexivity |].
  apply convert_labels_dates. vm_compute. reflexivity.
Defined.

(** X12: how [convertOpsToValues] dates an account change.  In an
    accepted sequence the value of an account change has the day and the
    month written in the operation; it is not before the previous value;
    its year is the year of the previous value, or the next year when the
    day and month fall before the previous value in that year. *)
Theorem convert_change_dates (ops : list Op) (values : list AccountValue)
    (i : nat) (op : Op) (pv v : AccountValue) :
  convertOpsToValues ops = (values, None) ->
  ops !! (Datatypes.S i) = Some op -> IsTotal op = false ->
  values !! i = Some pv -> values !! (Datatypes.S i) = Some v ->
  Date op = pad2 (day (VDate v)) +:+ "." +:+ pad2 (month (VDate v))
  /\ After (VDate pv) (VDate v) = false
  /\ (year (VDate v) = year (VDate pv)
      \/ year (VDate v) = year (VDate pv) + 1
         /\ After (VDate pv)
              {| year := year (VDate pv); month := month (VDate v);
                 day := day (VDate v) |} = true).
Proof.
  intros Hc Ho Hchg Hp Hv.
  destruct (convert_accepted _ _ Hc) as (first & _ & _ & _ & _ & Hf).
  destruct (follows_dates ops None (Value first) values) as [_ Hall];
    [discriminate | exact Hf |].
  pose proof (follows_lookup _ _ _ _ _ _ _ _ Hf Ho Hp Hv) as [_ Hs].
  rewrite Hchg in Hs. destruct Hs as (_ & pv' & Heq & Hr).
  inversion Heq; subst pv'; clear Heq.
  assert (Hpv : validDate (VDate pv)).
  { rewrite Forall_forall in Hall. apply Hall.
    by eapply list_elem_of_lookup_2. }
  destruct Hpv as [Hyr _].
  assert (Hy0 : 0 <= year (VDate pv)) by lia.
  destruct (resolveDate_inv _ _ _ Hy0 Hr) as (_ & Hd & Ha & Hy).
  by repeat split.
Qed.

Lemma convert_change_dates_witness :
  let ops := [accountState "31.12.2020" 10000;
              accountChange "02.01" "VIREMENT" (-2500);
              accountState "03.01.2021" 7500] in
  let pv := {| VDate := civil 2020 12 31;
               VSource := "SOLDE CREDITEUR AU"; VValue := 10000 |} in
  let v := {| VDate := civil 2021 1 2;
              VSource := "VIREMENT"; VValue := 7500 |} in
  let values := [pv; v; {| VDate := civil 2021 1 3;
                    VSource := "SOLDE CREDITEUR AU"; VValue := 7500 |}] in
  convertOpsToValues ops = (values, None)
  /\ "02.01" = pad2 (day (VDate v)) +:+ "." +:+ pad2 (month (VDate v))
  /\ After (VDate pv) (VDate v) = false
  /\ (year (VDate v) = year (VDate pv)
      \/ year (VDate v) = year (VDate pv) + 1
         /\ After (VDate pv)
              {| year := year (VDate pv); month := month (VDate v);
                 day := day (VDate v) |} = true).
Proof.
  intros ops pv v values.
  split; [vm_compute; reflexivity |].
  apply (convert_change_dates ops values 0%nat
           (accountChange "02.01" "VIREMENT" (-2500)) pv v);
    vm_compute; reflexivity.
Defined.

Lemma convertFrom_errors ops : forall values total out e,
  convertFrom ops values total = (out, Some e) ->
  values <> [] \/ (exists op rest, ops = op :: rest /\ IsTotal op = true) ->
  out = []
  /\ ((exists op t, e = ErrTotalMismatch op t /\ In op ops
         /\ IsTotal op = true /\ Value op <> t)
      \/ exists s, e = ErrTimeParse s).
Proof.
  induction ops as [|op rest IH]; intros values total out e Hc Hstart;
    cbn [convertFrom] in Hc; [discriminate |].
  assert (Hnext : forall v, values ++ [v] <> []
                   \/ (exists o r, rest = o :: r /\ IsTotal o = true)).
  { intros v. left. intros Hnil. by apply app_eq_nil in Hnil as [_ ?]. }
  assert (Hlift : forall out : list AccountValue,
            out = []
            /\ ((exists o t, e = ErrTotalMismatch o t /\ In o rest
                   /\ IsTotal o = true /\ Value o <> t)
                \/ exists s, e = ErrTimeParse s) ->
            out = []
            /\ ((exists o t, e = ErrTotalMismatch o t /\ In o (op :: rest)
                   /\ IsTotal o = true /\ Value o <> t)
                \/ exists s, e = ErrTimeParse s)).
  { intros o [-> [(x & t & He & Hin & Ht & Hv) | Hs]];
      (split; [reflexivity |]); [| by right].
    left. exists x, t. repeat split; auto. by right. }
  destruct (IsTotal op) eqn:Htot.
  - destruct (Value op =? total) eqn:Hv; cbn [negb] in Hc.
    + destruct (timeParse (Date op)) as [date|].
      * apply Hlift. eapply IH; [exact Hc | apply Hnext].
      * inversion Hc; subst. split; [reflexivity |]. right. eauto.
    + inversion Hc; subst. split; [reflexivity |]. left.
      exists op, total. apply Z.eqb_neq in Hv. repeat split; auto. by left.
  - destruct (last values) as [prev|] eqn:Hl.
    + destruct (resolveDate (Date op) (VDate prev)) as [date | err] eqn:Hr.
      * apply Hlift. eapply IH; [exact Hc | apply Hnext].
      * inversion Hc; subst. split; [reflexivity |]. right.
        unfold resolveDate in Hr.
        destruct (timeParse _); [| inversion Hr; eauto].
        destruct (After _ _); [| discriminate].
        destruct (timeParse _); [discriminate | inversion Hr; eauto].
    + exfalso. apply last_None in Hl. subst values.
      destruct Hstart as [Hne | (o & r & Ho & Hot)]; [done |].
      inversion Ho; subst. congruence.
Qed.

(** X13: the errors of [convertOpsToValues].  A failure returns no value.
    The error is one of the three raised before the loop, or an account
    state whose amount differs from the running total, or a date that
    cannot be read; the error for an account change without a previous
    value is never returned, the first operation being an account
    state. *)
Theorem convert_errors (ops : list Op) (values : list AccountValue)
    (e : Err) :
  convertOpsToValues ops = (values, Some e) ->
  values = []
  /\ (boundaryError e
      \/ (exists op t, e = ErrTotalMismatch op t /\ In op ops
            /\ IsTotal op = true /\ Value op <> t)
      \/ exists s, e = ErrTimeParse s).
Proof.
  unfold convertOpsToValues.
  destruct (length ops <? 2)%nat eqn:Hlen.
  { intros Hc. inversion Hc; subst. split; [reflexivity |]. by left. }
  destruct (IsTotal (opAt ops 0)) eqn:Hfirst; cbn [negb].
  2:{ intros Hc. inversion Hc; subst. split; [reflexivity |]. by left. }
  destruct (IsTotal (opAt ops (length ops - 1))) eqn:Hlast; cbn [negb].
  2:{ intros Hc. inversion Hc; subst. split; [reflexivity |]. by left. }
  intros Hc.
  destruct (convertFrom_errors ops [] (Value (opAt ops 0)) values e Hc)
    as [Hnil Hcases].
  - right. destruct ops as [|op rest]; [discriminate |].
    exists op, rest. split; [reflexivity | exact Hfirst].
  - split; [exact Hnil |]. by right.
Qed.

Lemma convert_errors_witness :
  let ops := [accountState "31.12.2020" 10000;
              accountChange "02.01" "VIREMENT" (-2500);
              accountState "03.01.2021" 7000] in
  let e := ErrTotalMismatch (accountState "03.01.2021" 7000) 7500 in
  convertOpsToValues ops = ([], Some e)
  /\ (boundaryError e
      \/ (exists op t, e = ErrTotalMismatch op t /\ In op ops
            /\ IsTotal op = true /\ Value op <> t)
      \/ exists s, e = ErrTimeParse s).
Proof.
  intros ops e. split; [vm_compute; reflexivity |].
  destruct (convert_errors ops [] e) as [_ Hcases];
    [vm_compute; reflexivity | exact Hcases].
Defined.

Lemma wrap64_congruent z : exists k, wrap64 z = z + k * 2 ^ 64.
Proof.
  exists (- ((z + 2 ^ 63) / 2 ^ 64)). unfold wrap64.
  pose proof (Z.div_mod (z + 2 ^ 63) (2 ^ 64)). lia.
Qed.

Lemma follows_prefix_sum ops : forall prev total vals i v,
  follows prev total ops vals -> vals !! i = Some v ->
  exists k, VValue v = total + sumChanges (take (Datatypes.S i) ops)
                       + k * 2 ^ 64.
Proof.
  induction ops as [|op rest IH]; intros prev total [|v0 vals] i v Hf Hv;
    simpl in Hf; try done.
  destruct Hf as [[_ Hstep] Hf].
  assert (H0 : exists k, VValue v0
                 = total + (if IsTotal op then 0 else Value op) + k * 2 ^ 64).
  { destruct (IsTotal op).
    - destruct Hstep as (_ & -> & _). exists 0. lia.
    - destruct Hstep as (-> & _). apply wrap64_congruent. }
  destruct H0 as [k0 Hk0].
  destruct i as [|i]; cbn [take sumChanges].
  - inversion Hv; subst. exists k0.
    destruct rest; simpl; lia.
  - destruct (IH _ _ _ _ _ Hf Hv) as [k Hk]. exists (k0 + k). lia.
Qed.

(** X14: the balances of [convertOpsToValues] add up.  In an accepted
    sequence every balance is the amount of the first account state plus
    the amounts of the account changes up to there, modulo 2^64, and
    exactly when both are within the 64-bit range; at an account state it
    is the amount stated. *)
Theorem convert_running_sum (ops : list Op) (values : list AccountValue)
    (first op : Op) (i : nat) (v : AccountValue) :
  convertOpsToValues ops = (values, None) ->
  head ops = Some first -> ops !! i = Some op -> values !! i = Some v ->
  (exists k, VValue v
             = Value first + sumChanges (take (Datatypes.S i) ops)
               + k * 2 ^ 64)
  /\ (inInt64 (VValue v) ->
      inInt64 (Value first + sumChanges (take (Datatypes.S i) ops)) ->
      VValue v = Value first + sumChanges (take (Datatypes.S i) ops))
  /\ (IsTotal op = true -> Value op = VValue v).
Proof.
  intros Hc Hh Ho Hv.
  destruct (convert_accepted _ _ Hc) as (first' & Hh' & _ & _ & _ & Hf).
  rewrite Hh in Hh'. inversion Hh'; subst first'; clear Hh'.
  destruct (follows_prefix_sum _ _ _ _ _ _ Hf Hv) as [k Hk].
  split; [by exists k |]. split.
  - unfold inInt64, minInt64, maxInt64. intros Hr1 Hr2. lia.
  - intros Htot. destruct i as [|i].
    + destruct ops as [|o ops], values as [|w values]; simpl in *; try done.
      inversion Ho; inversion Hv; subst.
      destruct Hf as [[_ Hstep] _]. rewrite Htot in Hstep.
      destruct Hstep as (-> & -> & _). reflexivity.
    + destruct (lookup_lt_is_Some_2 values i) as [pv Hpv].
      { apply lookup_lt_Some in Hv. lia. }
      pose proof (follows_lookup _ _ _ _ _ _ _ _ Hf Ho Hpv Hv) as [_ Hstep].
      rewrite Htot in Hstep. destruct Hstep as (-> & -> & _). reflexivity.
Qed.

Lemma convert_running_sum_witness :
  let ops := [accountState "31.12.2020" 10000;
              accountChange "02.01" "VIREMENT" (-2500);
              accountChange "02.01" "CARTE" (-500);
              accountState "03.01.2021" 7000] in
  let values := [{| VDate := civil 2020 12 31;
                    VSource := "SOLDE CREDITEUR AU"; VValue := 10000 |};
                 {| VDate := civil 2021 1 2;
                    VSource := "VIREMENT"; VValue := 7500 |};
                 {| VDate := civil 2021 1 2;
                    VSource := "CARTE"; VValue := 7000 |};
                 {| VDate := civil 2021 1 3;
                    VSource := "SOLDE CREDITEUR AU"; VValue := 7000 |}] in
  convertOpsToValues ops = (values, None)
  /\ (exists k, 7000 = 10000 + sumChanges (take 4 ops) + k * 2 ^ 64)
  /\ (inInt64 7000 -> inInt64 (10000 + sumChanges (take 4 ops)) ->
      7000 = 10000 + sumChanges (take 4 ops))
  /\ (IsTotal (accountState "03.01.2021" 7000) = true -> 7000 = 7000).
Proof.
  intros ops values. split; [vm_compute; reflexivity |].
  apply (convert_running_sum ops values
           (accountState "31.12.2020" 10000)
           (accountState "03.01.2021" 7000) 3
           {| VDate := civil 2021 1 3;
              VSource := "SOLDE CREDITEUR AU"; VValue := 7000 |});
    vm_compute; reflexivity.
Defined.


(* ================================================================== *)
(** ** Charts *)

Lemma wrap64_range z : inInt64 (wrap64 z).
Proof.
  unfold inInt64, wrap64, minInt64, maxInt64.
  pose proof (Z.mod_pos_bound (z + 2 ^ 63) (2 ^ 64) ltac:(lia)). lia.
Qed.

Lemma wrap64_eq a b k : a = b + k * 2 ^ 64 -> wrap64 a = wrap64 b.
Proof.
  intros ->. unfold wrap64. f_equal.
  replace (b + k * 2 ^ 64 + 2 ^ 63) with (b + 2 ^ 63 + k * 2 ^ 64) by lia.
  apply Z_mod_plus_full.
Qed.

Lemma wrap64_rebase k v p :
  wrap64 (wrap64 (k + wrap64 (v - p)) - k) = wrap64 (v - p).
Proof.
  destruct (wrap64_congruent (v - p)) as [k1 H1].
  destruct (wrap64_congruent (k + wrap64 (v - p))) as [k2 H2].
  apply (wrap64_eq _ _ (k1 + k2)). lia.
Qed.

Lemma wrap64_back k v :
  inInt64 v -> wrap64 (k + wrap64 (v - k)) = v.
Proof.
  intros Hv. rewrite <- (wrap64_small v Hv) at 2.
  destruct (wrap64_congruent (v - k)) as [k1 H1].
  apply (wrap64_eq _ _ k1). lia.
Qed.

Lemma lookup_last_done {A} (done todo : list A) j :
  length done = Datatypes.S j -> (done ++ todo) !! j = last done.
Proof.
  intros Hl. destruct (last done) as [x|] eqn:Hlast.
  - apply last_Some in Hlast as [l' ->].
    rewrite length_app in Hl. simpl in Hl.
    rewrite <- app_assoc. simpl. apply list_lookup_middle. lia.
  - apply last_None in Hlast. subst done. discriminate.
Qed.

Lemma websLoop_websAfter Unix values : forall todo done webs,
  values = done ++ todo ->
  websLoop Unix values (length done) todo webs
  = Some (webs ++ websAfter Unix (VValue <$> last done) todo).
Proof.
  induction todo as [|v rest IH]; intros done webs Hv; cbn [websLoop websAfter].
  - by rewrite app_nil_r.
  - assert (Hd : match length done with
                 | O => Some 0
                 | Datatypes.S j =>
                     match values !! j with
                     | None => None
                     | Some p => Some (wrap64 (VValue v - VValue p))
                     end
                 end
                 = Some match VValue <$> last done with
                        | None => 0
                        | Some p => wrap64 (VValue v - p)
                        end).
    { destruct (length done) as [|j] eqn:Hl.
      - destruct done; [reflexivity | discriminate].
      - rewrite Hv, (lookup_last_done done _ j Hl).
        destruct (last done) as [p|] eqn:Hlast; [reflexivity |].
        apply last_None in Hlast. subst done. discriminate. }
    rewrite Hd.
    specialize (IH (done ++ [v])
                  (webs ++ [{| WX := Unix (VDate v); WY := VValue v;
                               WSource := VSource v;
                               WDelta := match VValue <$> last done with
                                         | None => 0
                                         | Some p => wrap64 (VValue v - p)
                                         end |}])).
    rewrite length_app, Nat.add_1_r, last_snoc in IH.
    rewrite IH by (rewrite <- app_assoc; exact Hv).
    by rewrite <- app_assoc.
Qed.

Lemma webValues_websAfter Unix values :
  webValues Unix values = Some (websAfter Unix None values).
Proof.
  unfold webValues.
  exact (websLoop_websAfter Unix values values [] [] eq_refl).
Qed.

Lemma filterLoop_rebase m values : forall todo done kept,
  values = done ++ todo ->
  (kept <> [] -> done <> []) ->
  filterLoop m values (length done) todo kept
  = Some (kept ++ rebase m (default 0 (VValue <$> last done))
                          (VValue <$> last kept) todo).
Proof.
  induction todo as [|v rest IH]; intros done kept Hv Hk;
    cbn [filterLoop rebase].
  - by rewrite app_nil_r.
  - assert (Hnext : values = (done ++ [v]) ++ rest)
      by (rewrite <- app_assoc; exact Hv).
    assert (Hdone : done ++ [v] <> [])
      by (intros Hnil; by apply app_eq_nil in Hnil as [_ ?]).
    destruct (m (VSource v)) eqn:Hm.
    + specialize (IH (done ++ [v]) kept Hnext (fun _ => Hdone)).
      rewrite length_app, Nat.add_1_r, last_snoc in IH. exact IH.
    + destruct (last kept) as [k|] eqn:Hlast.
      * assert (Hne : done <> []).
        { apply Hk. intros ->. discriminate. }
        destruct (length done) as [|j] eqn:Hl;
          [destruct done; [done | discriminate] |].
        rewrite Hv, (lookup_last_done done _ j Hl).
        destruct (last done) as [p|] eqn:Hp;
          [| apply last_None in Hp; done].
        cbn [fmap option_fmap option_map default].
        set (v' := {| VDate := VDate v; VSource := VSource v;
                      VValue := wrap64 (VValue k + wrap64 (VValue v - VValue p)) |}).
        specialize (IH (done ++ [v]) (kept ++ [v']) Hnext (fun _ => Hdone)).
        rewrite length_app, Nat.add_1_r, !last_snoc, Hl in IH.
        rewrite <- Hv, IH. by rewrite <- app_assoc.
      * specialize (IH (done ++ [v]) (kept ++ [v]) Hnext (fun _ => Hdone)).
        rewrite length_app, Nat.add_1_r, !last_snoc in IH.
        rewrite IH. by rewrite <- app_assoc.
Qed.

Lemma filterValues_rebase m values :
  filterValues values m = Some (rebase m 0 None values).
Proof.
  unfold filterValues. destruct values as [|v rest]; [reflexivity |].
  cbn [length Nat.eqb].
  exact (filterLoop_rebase m (v :: rest) (v :: rest) [] [] eq_refl
           (fun H => False_ind _ (H eq_refl))).
Qed.

Lemma rebase_charts Unix m : forall todo p k,
  map chartPoint (websAfter Unix (Some k) (rebase m p (Some k) todo))
  = map chartPoint (List.filter (shown m) (websAfter Unix (Some p) todo)).
Proof.
  induction todo as [|v rest IH]; intros p k; cbn [rebase websAfter];
    [reflexivity |].
  cbn [List.filter].
  set (w := {| WX := Unix (VDate v); WY := VValue v; WSource := VSource v;
               WDelta := wrap64 (VValue v - p) |}).
  assert (Hs : shown m w = negb (m (VSource v))) by reflexivity.
  rewrite Hs. destruct (m (VSource v)); cbn [negb].
  - apply IH.
  - cbn [websAfter map VValue VDate VSource]. f_equal.
    + unfold chartPoint, w. cbn. by rewrite wrap64_rebase.
    + apply IH.
Qed.

Lemma rebase_charts_first Unix m : forall todo p prev,
  map chartPoint (websAfter Unix None (rebase m p None todo))
  = map chartPoint
      (resetFirst (List.filter (shown m) (websAfter Unix prev todo)))
  /\ head (websAfter Unix None (rebase m p None todo))
     = head (resetFirst (List.filter (shown m) (websAfter Unix prev todo))).
Proof.
  induction todo as [|v rest IH]; intros p prev; cbn [rebase websAfter];
    [split; reflexivity |].
  cbn [List.filter].
  set (w := {| WX := Unix (VDate v); WY := VValue v; WSource := VSource v;
               WDelta := match prev with
                         | Some p => wrap64 (VValue v - p)
                         | None => 0
                         end |}).
  assert (Hs : shown m w = negb (m (VSource v))) by reflexivity.
  rewrite !Hs. destruct (m (VSource v)); cbn [negb].
  - apply IH.
  - cbn [websAfter resetFirst map head WX WY WSource]. split; [| reflexivity].
    f_equal. apply rebase_charts.
Qed.

(** X15: what [filterValues] leaves of a chart.  For every matcher and
    every sequence of values, [filterValues] and the loop of [embedJson]
    stay within their slices; the chart of the filtered values has the
    points of the chart of all values whose source is not matched, in
    order, each with its time, its source and its change, except that
    the first point has no change; the first point keeps its balance. *)
Theorem filter_preserves_changes (Unix : Time -> Z) (m : Matcher)
    (values : list AccountValue) :
  exists kept webs webs',
    filterValues values m = Some kept
    /\ webValues Unix values = Some webs
    /\ webValues Unix kept = Some webs'
    /\ map chartPoint webs'
       = map chartPoint (resetFirst (List.filter (shown m) webs))
    /\ head webs' = head (resetFirst (List.filter (shown m) webs)).
Proof.
  exists (rebase m 0 None values), (websAfter Unix None values),
    (websAfter Unix None (rebase m 0 None values)).
  split; [apply filterValues_rebase |].
  split; [apply webValues_websAfter |].
  split; [apply webValues_websAfter |].
  apply rebase_charts_first.
Qed.

Lemma rebase_unchanged m : forall todo k,
  Forall (fun v => inInt64 (VValue v)) todo ->
  Forall (fun v => m (VSource v) = false) todo ->
  rebase m k (Some k) todo = todo.
Proof.
  induction todo as [|v rest IH]; intros k Hr Hm; [reflexivity |].
  inversion Hr as [|? ? Hv Hr']; inversion Hm as [|? ? Hmv Hm']; subst.
  cbn [rebase]. rewrite Hmv. rewrite (wrap64_back k _ Hv).
  cbn [VValue]. rewrite (IH _ Hr' Hm'). by destruct v.
Qed.

Lemma rebase_unchanged_first m : forall todo p,
  Forall (fun v => inInt64 (VValue v)) todo ->
  Forall (fun v => m (VSource v) = false) todo ->
  rebase m p None todo = todo.
Proof.
  intros [|v rest] p Hr Hm; [reflexivity |].
  inversion Hr as [|? ? Hv Hr']; inversion Hm as [|? ? Hmv Hm']; subst.
  cbn [rebase]. rewrite Hmv. f_equal. by apply rebase_unchanged.
Qed.

Lemma rebase_kept m : forall todo p k,
  Forall (fun v => inInt64 (VValue v)) (rebase m p (Some k) todo)
  /\ Forall (fun v => m (VSource v) = false) (rebase m p (Some k) todo).
Proof.
  induction todo as [|v rest IH]; intros p k; cbn [rebase];
    [split; constructor |].
  destruct (m (VSource v)) eqn:Hm; [apply IH |].
  destruct (IH (VValue v)
              (VValue {| VDate := VDate v; VSource := VSource v;
                         VValue := wrap64 (k + wrap64 (VValue v - p)) |}))
    as [H1 H2].
  split; constructor; auto. cbn. apply wrap64_range.
Qed.

Lemma rebase_kept_first m : forall todo p,
  Forall (fun v => inInt64 (VValue v)) todo ->
  Forall (fun v => inInt64 (VValue v)) (rebase m p None todo)
  /\ Forall (fun v => m (VSource v) = false) (rebase m p None todo).
Proof.
  induction todo as [|v rest IH]; intros p Hr; cbn [rebase];
    [split; constructor |].
  inversion Hr as [|? ? Hv Hr']; subst.
  destruct (m (VSource v)) eqn:Hm; [by apply IH |].
  destruct (rebase_kept m rest (VValue v) (VValue v)) as [H1 H2].
  split; constructor; auto.
Qed.

(** X16: [filterValues] applied twice.  When the balances are within the
    64-bit range, filtering the filtered values again with the same
    matcher changes nothing, and values none of whose sources is matched
    are returned as they are. *)
Theorem filter_values_stable (m : Matcher) (values : list AccountValue) :
  Forall (fun v => inInt64 (VValue v)) values ->
  exists kept,
    filterValues values m = Some kept
    /\ filterValues kept m = Some kept
    /\ (Forall (fun v => m (VSource v) = false) values -> kept = values).
Proof.
  intros Hr. exists (rebase m 0 None values).
  destruct (rebase_kept_first m values 0 Hr) as [Hr' Hm'].
  split; [apply filterValues_rebase |]. split.
  - rewrite filterValues_rebase. f_equal.
    by apply rebase_unchanged_first.
  - intros Hm. by apply rebase_unchanged_first.
Qed.

Lemma filter_values_stable_witness :
  let m := fun s => String.eqb s "CARTE" in
  let values := [{| VDate := civil 2020 12 31;
                    VSource := "SOLDE CREDITEUR AU"; VValue := 10000 |};
                 {| VDate := civil 2021 1 2;
                    VSource := "CARTE"; VValue := 9500 |};
                 {| VDate := civil 2021 1 2;
                    VSource := "VIREMENT"; VValue := 7000 |}] in
  let kept := [{| VDate := civil 2020 12 31;
                  VSource := "SOLDE CREDITEUR AU"; VValue := 10000 |};
               {| VDate := civil 2021 1 2;
                  VSource := "VIREMENT"; VValue := 7500 |}] in
  Forall (fun v => inInt64 (VValue v)) values
  /\ filterValues values m = Some kept
  /\ exists kept',
       filterValues values m = Some kept'
       /\ filterValues kept' m = Some kept'
       /\ (Forall (fun v => m (VSource v) = false) values -> kept' = values).
Proof.
  intros m values kept.
  assert (Hr : Forall (fun v => inInt64 (VValue v)) values).
  { repeat constructor; cbn; unfold minInt64, maxInt64; lia. }
  split; [exact Hr |]. split; [vm_compute; reflexivity |].
  exact (filter_values_stable m values Hr).
Defined.

Lemma follows_charts Unix ops : forall pv vals,
  follows (Some pv) (VValue pv) ops vals ->
  Forall2 chartChange ops (websAfter Unix (Some (VValue pv)) vals).
Proof.
  induction ops as [|op rest IH]; intros pv [|v vals] Hf; simpl in Hf;
    try done; try (by constructor).
  destruct Hf as [[Hsrc Hstep] Hf]. cbn [websAfter].
  constructor; [| by apply IH].
  split; [exact Hsrc |]. cbn [WDelta].
  destruct (IsTotal op).
  - destruct Hstep as (_ & -> & _). by rewrite Z.sub_diag.
  - destruct Hstep as (-> & _).
    destruct (wrap64_congruent (VValue pv + Value op)) as [k Hk].
    apply (wrap64_eq _ _ k). lia.
Qed.

(** X17: the chart of a report.  For an accepted sequence of operations
    the loop of [embedJson] gives one point per operation, with the
    source of the operation; the change shown is the amount of an
    account change, reduced to 64 bits, and 0 for an account state. *)
Theorem chart_shows_changes (Unix : Time -> Z) (ops : list Op)
    (values : list AccountValue) :
  convertOpsToValues ops = (values, None) ->
  exists webs,
    webValues Unix values = Some webs
    /\ Forall2 chartChange ops webs
    /\ map WY webs = map VValue values.
Proof.
  intros Hc. exists (websAfter Unix None values).
  split; [apply webValues_websAfter |].
  destruct (convert_accepted _ _ Hc) as (first & Hh & Htot & _ & _ & Hf).
  split.
  - destruct ops as [|op rest], values as [|v vals]; simpl in Hf; try done.
    destruct Hf as [[Hsrc Hstep] Hf]. cbn [websAfter].
    inversion Hh; subst first. constructor.
    + split; [exact Hsrc |]. by rewrite Htot.
    + by apply follows_charts.
  - clear. generalize (@None Z).
    induction values as [|v vals IH]; intros prev; [reflexivity |].
    cbn [websAfter map WY]. f_equal. apply IH.
Qed.

Lemma chart_shows_changes_witness :
  let Unix := fun t : Time => 0 in
  let ops := [accountState "31.12.2020" 10000;
              accountChange "02.01" "VIREMENT" (-2500);
              accountState "03.01.2021" 7500] in
  let values := [{| VDate := civil 2020 12 31;
                    VSource := "SOLDE CREDITEUR AU"; VValue := 10000 |};
                 {| VDate := civil 2021 1 2;
                    VSource := "VIREMENT"; VValue := 7500 |};
                 {| VDate := civil 2021 1 3;
                    VSource := "SOLDE CREDITEUR AU"; VValue := 7500 |}] in
  convertOpsToValues ops = (values, None)
  /\ exists webs,
       webValues Unix values = Some webs
       /\ Forall2 chartChange ops webs
       /\ map WY webs = map VValue values.
Proof.
  intros Unix ops values.
  assert (Hc : convertOpsToValues ops = (values, None))
    by (vm_compute; reflexivity).
  split; [exact Hc |].
  exact (chart_shows_changes Unix ops values Hc).
Defined.


(* ================================================================== *)
(** ** Stream filters *)

Lemma closeLoop_all {R E} (CloseOf : R -> option E) :
  forall readers closed err,
    closeLoop CloseOf readers closed err
    = (closed ++ readers,
       match last (omap CloseOf readers) with
       | Some e => Some e
       | None => err
       end).
Proof.
  induction readers as [|r rest IH]; intros closed err; cbn [closeLoop].
  - by rewrite app_nil_r.
  - change (omap CloseOf (r :: rest))
      with (match CloseOf r with
            | Some e => e :: omap CloseOf rest
            | None => omap CloseOf rest
            end).
    destruct (CloseOf r) as [e|]; rewrite IH, <- app_assoc; cbn [app];
      [| reflexivity].
    f_equal. rewrite last_cons. by destruct (last (omap CloseOf rest)).
Qed.

Lemma extractStreamFrom_stack {R} (NewReader : R -> R) (r0 : R) :
  forall filters n readers,
    extractStreamFrom NewReader (stacked NewReader r0 n) readers filters
    = match List.find (fun f => negb (String.eqb f "FlateDecode")) filters with
      | Some f => inr (ErrPage ("unknown stream filter: " +:+ f))
      | None =>
          inl {| Readers :=
                   readers ++ map (stacked NewReader r0)
                                (seq (Datatypes.S n) (length filters)) |}
      end.
Proof.
  induction filters as [|f rest IH]; intros n readers;
    cbn [extractStreamFrom List.find].
  - by rewrite app_nil_r.
  - destruct (String.eqb f "FlateDecode"); cbn [negb]; [| reflexivity].
    change (NewReader (stacked NewReader r0 n))
      with (stacked NewReader r0 (Datatypes.S n)).
    rewrite IH. destruct (List.find _ rest); [reflexivity |].
    cbn [length seq map]. by rewrite <- app_assoc.
Qed.

(** X18: the reader [extractStream] builds.  If a filter is not
    "FlateDecode", the error names the first such filter.  Otherwise the
    readers are the stream itself and one decoder per filter, each on
    top of the one before; [Read] reads from the last decoder, and
    [Close] closes all of them, the stream first, also after one of them
    has failed, and returns the error of the last one that failed. *)
Theorem extractStream_stack {R E : Type} (NewReader : R -> R)
    (CloseOf : R -> option E) (r : R) (filters : list string) :
  match List.find (fun f => negb (String.eqb f "FlateDecode")) filters with
  | Some f =>
      extractStream NewReader r filters
      = inr (ErrPage ("unknown stream filter: " +:+ f))
  | None =>
      exists mc,
        extractStream NewReader r filters = inl mc
        /\ Readers mc
           = map (stacked NewReader r) (seq 0 (Datatypes.S (length filters)))
        /\ MultiCloser_Read mc
           = Some (stacked NewReader r (length filters))
        /\ MultiCloser_Close CloseOf mc
           = (Readers mc, last (omap CloseOf (Readers mc)))
  end.
Proof.
  unfold extractStream.
  pose proof (extractStreamFrom_stack NewReader r filters 0 [r]) as Hs.
  change (stacked NewReader r 0) with r in Hs at 1.
  destruct (List.find _ filters) as [f|]; [exact Hs |].
  eexists. split; [exact Hs |]. cbn [Readers].
  split; [reflexivity |]. split.
  - unfold MultiCloser_Read. cbn [Readers app length].
    rewrite length_map, length_seq.
    change (r :: map (stacked NewReader r) (seq 1 (length filters)))
      with (map (stacked NewReader r) (seq 0 (Datatypes.S (length filters)))).
    rewrite list_lookup_fmap, lookup_seq_lt by lia. reflexivity.
  - unfold MultiCloser_Close. rewrite closeLoop_all. cbn [Readers app].
    f_equal. by destruct (last _).
Qed.

(* ================================================================== *)
(** ** Actions of a stream *)

Section TokenizeProperties.
Context {A S E : Type}.
Variable asString : A -> option string.
Variable callback : string -> list A -> S -> S * option E.

Lemma tokenizeLoop_operands (operands rest : list (Token A)) :
  Forall isOperand operands ->
  forall args s,
    tokenizeLoop asString callback (operands ++ rest) args s
    = tokenizeLoop asString callback rest (args ++ map TValue operands) s.
Proof.
  induction 1 as [|t operands Ht _ IH]; intros args s; cbn [app map].
  - by rewrite app_nil_r.
  - cbn [tokenizeLoop]. apply String.eqb_neq in Ht. rewrite Ht.
    rewrite IH, <- app_assoc. reflexivity.
Qed.

Lemma tokenizeLoop_trailing (trailing : list (Token A)) :
  Forall isOperand trailing ->
  forall args s,
    tokenizeLoop asString callback trailing args s = Some (s, None).
Proof.
  induction 1 as [|t trailing Ht _ IH]; intros args s; cbn [tokenizeLoop];
    [reflexivity |].
  apply String.eqb_neq in Ht. rewrite Ht. apply IH.
Qed.

(** X19: [tokenize] groups the tokens into actions.  On the tokens of a
    list of actions followed by operands, the callback is called once
    per action, in order, with the name of the keyword and the values of
    its own operands, up to the first call that fails, whose error is
    returned; the operands after the last keyword are dropped, and a
    keyword whose value is not a string stops the program. *)
Theorem tokenize_actions (actions : list (list (Token A) * Token A))
    (trailing : list (Token A)) (s : S) :
  Forall isAction actions -> Forall isOperand trailing ->
  tokenize asString callback (actionTokens actions ++ trailing) s
  = runActions asString callback actions s.
Proof.
  intros Ha Ht. unfold tokenize. revert s.
  induction Ha as [|[operands keyword] rest [Hops Hkw] _ IH]; intros s.
  - cbn [actionTokens flat_map app runActions].
    by apply tokenizeLoop_trailing.
  - cbn [fst snd] in Hops, Hkw.
    unfold actionTokens in *. cbn [flat_map fst snd runActions].
    rewrite <- !app_assoc, (tokenizeLoop_operands _ _ Hops).
    cbn [app tokenizeLoop]. rewrite Hkw. cbn [String.eqb].
    replace ("keyword" =? "keyword")%string with true by reflexivity.
    destruct (asString (TValue keyword)) as [name|]; [| reflexivity].
    destruct (callback name (map TValue operands) s) as [s1 [e|]];
      [reflexivity | apply IH].
Qed.
End TokenizeProperties.

Lemma tokenize_actions_witness :
  let asString := fun v : string + Z =>
    match v with inl s => Some s | inr _ => None end in
  let callback := fun (k : string) (args : list (string + Z))
                      (s : list (string * nat)) =>
    (s ++ [(k, length args)], @None string) in
  let tm := ([{| TKind := "integer"; TValue := inr 1 |};
              {| TKind := "integer"; TValue := inr 2 |}],
             {| TKind := "keyword"; TValue := inl "Tm" |}) in
  let tj := ([{| TKind := "string"; TValue := inl "SOLDE" |}],
             {| TKind := "keyword"; TValue := inl "Tj" |}) in
  let trailing := [{| TKind := "integer"; TValue := inr 3 |}] in
  Forall isAction [tm; tj] /\ Forall isOperand trailing
  /\ tokenize asString callback (actionTokens [tm; tj] ++ trailing) []
     = runActions asString callback [tm; tj] []
  /\ runActions asString callback [tm; tj] []
     = Some ([("Tm", 2%nat); ("Tj", 1%nat)], None).
Proof.
  intros asString callback tm tj trailing.
  assert (Ha : Forall isAction [tm; tj]).
  { repeat constructor; cbn; discriminate. }
  assert (Ht : Forall isOperand trailing).
  { repeat constructor; cbn; discriminate. }
  split; [exact Ha |]. split; [exact Ht |].
  split; [| vm_compute; reflexivity].
  exact (tokenize_actions asString callback [tm; tj] trailing [] Ha Ht).
Defined.


(* ================================================================== *)
(** ** Reports *)

Lemma omap_failure_cons f rest :
  omap failure (f :: rest)
  = match failure f with
    | Some y => y :: omap failure rest
    | None => omap failure rest
    end.
Proof. reflexivity. Qed.

Lemma extractFilesFrom_report file pages rest failed stderr stdout allValues :
  extractFilesFrom ((file, inr pages) :: rest) failed stderr stdout allValues
  = match reportValues pages with
    | (_, Some e) =>
        extractFilesFrom rest (Datatypes.S failed) (stderr ++ [(file, e)])
          stdout allValues
    | (values, None) =>
        extractFilesFrom rest failed stderr
          (stdout ++ reportLines values (-1)) (allValues ++ values)
    end.
Proof.
  cbn [extractFilesFrom]. unfold reportValues.
  destruct (extractPDFOps pages) as [ops [e1|]]; [reflexivity |].
  by destruct (convertOpsToValues ops) as [values [e2|]].
Qed.

Lemma failure_report file pages :
  failure (file, inr pages)
  = match snd (reportValues pages) with
    | Some e => Some (file, e)
    | None => None
    end.
Proof. reflexivity. Qed.

Lemma extractFilesFrom_opened files :
  Forall opens files ->
  forall failed stderr stdout allValues,
    let n := (failed + length (omap failure files))%nat in
    let out := extractFilesFrom files failed stderr stdout allValues in
    FStderr out = stderr ++ omap failure files
    /\ (n = 0%nat ->
        FErr out = None
        /\ FValues out = allValues ++ flat_map fileValues files)
    /\ ((0 < n)%nat ->
        FErr out = Some (ErrPage (itoa (Z.of_nat n)
                                  +:+ " reports failed" +:+ newline))
        /\ FValues out = []).
Proof.
  induction 1 as [|[file [e|pages]] rest Hopen _ IH];
    intros failed stderr stdout allValues; cbn zeta.
  - cbn [extractFilesFrom omap list_omap length flat_map].
    rewrite !app_nil_r, Nat.add_0_r.
    destruct (0 <? failed)%nat eqn:Hf; cbn.
    + apply Nat.ltb_lt in Hf. split; [reflexivity |].
      split; [intros ?; exfalso; lia | intros _; split; reflexivity].
    + apply Nat.ltb_ge in Hf. split; [reflexivity |].
      split; [intros _; split; reflexivity | intros ?; exfalso; lia].
  - destruct Hopen.
  - rewrite omap_failure_cons, failure_report, extractFilesFrom_report.
    cbn [flat_map]. unfold fileValues at 1. cbn [snd].
    destruct (reportValues pages) as [values [e1|]]; cbn [snd fst].
    + destruct (IH (Datatypes.S failed) (stderr ++ [(file, e1)]) stdout
                  allValues) as (Hlog & Hok & Hko).
      cbn [length]. rewrite <- app_assoc in Hlog. cbn [app] in Hlog.
      replace (failed + Datatypes.S (length (omap failure rest)))%nat
        with (Datatypes.S failed + length (omap failure rest))%nat by lia.
      split; [exact Hlog |].
      split; [intros ?; exfalso; lia | exact Hko].
    + destruct (IH failed stderr (stdout ++ reportLines values (-1))
                  (allValues ++ values)) as (Hlog & Hok & Hko).
      split; [exact Hlog |]. split; [| exact Hko].
      intros Hn. destruct (Hok Hn) as [He Hv].
      split; [exact He |]. by rewrite Hv, <- app_assoc.
Qed.

Lemma extractFilesFrom_open_error files :
  forall pre name e post failed stderr stdout allValues,
    files = pre ++ (name, inl e) :: post -> Forall opens pre ->
    let out := extractFilesFrom files failed stderr stdout allValues in
    FErr out = Some e /\ FValues out = []
    /\ FStderr out = stderr ++ omap failure pre.
Proof.
  intros pre name e post failed stderr stdout allValues -> Hpre.
  revert failed stderr stdout allValues.
  induction Hpre as [|[file [e0|pages]] rest Hopen _ IH];
    intros failed stderr stdout allValues; cbn zeta.
  - cbn. by rewrite app_nil_r.
  - destruct Hopen.
  - rewrite omap_failure_cons, failure_report. cbn [app].
    rewrite extractFilesFrom_report.
    destruct (reportValues pages) as [values [e1|]]; cbn [snd fst].
    + destruct (IH (Datatypes.S failed) (stderr ++ [(file, e1)]) stdout
                  allValues) as (He & Hv & Hlog).
      rewrite <- app_assoc in Hlog. by cbn [app] in Hlog.
    + apply IH.
Qed.

Lemma accepted_no_failure files :
  Forall opens files ->
  Forall accepted files <-> omap failure files = [].
Proof.
  induction 1 as [|[file [e|pages]] rest Hopen _ IH].
  - split; [reflexivity | constructor].
  - destruct Hopen.
  - rewrite omap_failure_cons, failure_report.
    split.
    + intros Ha. inversion Ha as [|? ? Hf Hr]; subst.
      unfold accepted in Hf. cbn [snd] in Hf. rewrite Hf. by apply IH.
    + destruct (snd (reportValues pages)) eqn:He; [discriminate |].
      intros Hnil. constructor; [exact He | by apply IH].
Qed.

(** X20: [extractFileValues] returns all values or none.  When every file
    opens, the values of all reports are returned, in the order of the
    files, if every report is extracted and converted; otherwise no
    value is returned and the error counts the reports that failed.  In
    both cases the reports that failed are those reported on the
    standard error, each with its own error.  A file that does not open
    ends the function with its error and no value, whatever the files
    after it are. *)
Theorem extractFileValues_all_or_nothing (files : list File) :
  let out := extractFileValues files in
  (Forall opens files ->
     FStderr out = omap failure files
     /\ (Forall accepted files ->
         FErr out = None /\ FValues out = flat_map fileValues files)
     /\ (~ Forall accepted files ->
         FValues out = []
         /\ FErr out
            = Some (ErrPage (itoa (Z.of_nat (length (omap failure files)))
                             +:+ " reports failed" +:+ newline))))
  /\ (forall pre name e post,
        files = pre ++ (name, inl e) :: post -> Forall opens pre ->
        FErr out = Some e /\ FValues out = []
        /\ FStderr out = omap failure pre).
Proof.
  intros out. split.
  - intros Hopen.
    destruct (extractFilesFrom_opened files Hopen 0 [] [] [])
      as (Hlog & Hok & Hko).
    pose proof (accepted_no_failure files Hopen) as Hacc.
    split; [exact Hlog |]. split.
    + intros Ha. apply Hok. apply Hacc in Ha. by rewrite Ha.
    + intros Hna. destruct Hko as [He Hv]; [| by split].
      destruct (omap failure files) eqn:Hf; [| cbn; lia].
      exfalso. apply Hna. by apply Hacc.
  - intros pre name e post Hfiles Hpre.
    exact (extractFilesFrom_open_error files pre name e post 0 [] [] []
             Hfiles Hpre).
Qed.

Lemma extractFileValues_all_or_nothing_witness :
  let good := [([accountState "31.12.2020" 10000;
                 accountChange "02.01" "VIREMENT" (-2500);
                 accountState "03.01.2021" 7500], @None Err)] in
  let bad := [([accountState "31.12.2020" 10000;
                accountChange "02.01" "VIREMENT" (-2500)], @None Err)] in
  let files : list File := [("a.pdf", inr good); ("b.pdf", inr bad)] in
  let e := ErrLastNotTotal (accountChange "02.01" "VIREMENT" (-2500)) in
  Forall opens files /\ ~ Forall accepted files
  /\ FStderr (extractFileValues files) = [("b.pdf", e)]
  /\ FValues (extractFileValues files) = []
  /\ FErr (extractFileValues files)
     = Some (ErrPage ("1 reports failed" +:+ newline)).
Proof.
  intros good bad files e.
  assert (Hopen : Forall opens files) by (repeat constructor).
  assert (Hbad : ~ Forall accepted files).
  { intros Ha. inversion Ha as [|? ? _ Hb]; subst.
    inversion Hb as [|? ? Hf _]; subst. vm_compute in Hf. discriminate. }
  destruct (extractFileValues_all_or_nothing files) as [Hall _].
  destruct (Hall Hopen) as (Hlog & _ & Hko).
  destruct (Hko Hbad) as [Hv He].
  split; [exact Hopen |]. split; [exact Hbad |].
  split; [rewrite Hlog; vm_compute; reflexivity |].
  split; [exact Hv |]. rewrite He. vm_compute. reflexivity.
Defined.




(* ================================================================== *)
(** ** Operations of a page *)

Section ExtractOpsProperties.
Context {V R : Type} `{PdfValue V}.
Variable Name : V -> string.
Variable Reader : V -> R.
Variable NewReader : R -> R.
Variable extractStreamLines : MultiCloser R -> list Line * option Err.
Variable parseError : Err -> V -> Err.

Variable universe : gset N.
Hypothesis entries_in_universe :
  forall v id child, (id, child) ∈ entries v -> id ∈ universe.

Local Abbreviation collect :=
  (collectOps Name Reader NewReader extractStreamLines parseError).
Local Abbreviation contribution :=
  (streamOps Name Reader NewReader extractStreamLines parseError).
Local Abbreviation isParsed :=
  (parsed Name Reader NewReader extractStreamLines parseError).

Lemma collectOps_appends v allOps :
  collect v allOps
  = (allOps ++ fst (contribution v), snd (contribution v))
  /\ (snd (contribution v) <> None -> fst (contribution v) = []).
Proof.
  unfold streamOps, collectOps.
  destruct (Kind v); try (split; [by rewrite app_nil_r | done]).
  destruct (streamFilters Name v (Keys v) []) as [filters|];
    [| split; [by rewrite app_nil_r | done]].
  destruct (extractStream NewReader (Reader v) filters) as [r | e];
    [| split; [by rewrite app_nil_r | done]].
  destruct (extractStreamLines r) as [lines [e|]];
    [split; [by rewrite app_nil_r | done] |].
  destruct (parseOps lines) as [ops [e|]];
    [split; [by rewrite app_nil_r | done] |].
  split; [reflexivity | done].
Qed.

Lemma runCallbacks_parsed vs :
  Forall isParsed vs ->
  forall allOps,
    runCallbacks collect vs allOps
    = (allOps ++ flat_map (fun v => fst (contribution v)) vs, None).
Proof.
  induction 1 as [|v vs Hv _ IH]; intros allOps; cbn [runCallbacks flat_map].
  - by rewrite app_nil_r.
  - destruct (collectOps_appends v allOps) as [-> _].
    unfold parsed in Hv. rewrite Hv, IH. by rewrite <- app_assoc.
Qed.

Lemma runCallbacks_failure pre v post e allOps :
  Forall isParsed pre -> snd (contribution v) = Some e ->
  runCallbacks collect (pre ++ v :: post) allOps
  = (allOps ++ flat_map (fun v => fst (contribution v)) pre, Some e).
Proof.
  intros Hpre Hv. rewrite runCallbacks_app, (runCallbacks_parsed pre Hpre).
  cbn [runCallbacks]. destruct (collectOps_appends v
    (allOps ++ flat_map (fun v => fst (contribution v)) pre)) as [-> Hnil].
  rewrite Hv, Hnil by (rewrite Hv; discriminate). by rewrite app_nil_r.
Qed.

(** X22: the operations of a page.  On a page whose identities form a
    finite set, [extractOps] returns as soon as its fuel exceeds their
    number.  It goes through the values of the page in the pre-order of
    [walk]; if every one of them is parsed, it returns the operations of
    all of them, in that order, filtered on the column of the source as
    a whole; otherwise it returns the error of the first value that is
    not, with the operations of the values before it, filtered. *)
Theorem extractOps_page (root : V) :
  exists visits,
    Preorder root [] visits
    /\ forall fuel,
         (size universe < fuel)%nat ->
         let vs := map fst visits in
         (Forall isParsed vs ->
            extractOps Name Reader NewReader extractStreamLines parseError
              fuel root
            = Some (filterOnSourceColumn
                      (flat_map (fun v => fst (contribution v)) vs), None))
         /\ (forall pre v post e,
               vs = pre ++ v :: post -> Forall isParsed pre ->
               snd (contribution v) = Some e ->
               extractOps Name Reader NewReader extractStreamLines parseError
                 fuel root
               = Some (filterOnSourceColumn
                         (flat_map (fun v => fst (contribution v)) pre),
                       Some e)).
Proof.
  destruct (preorder_exists universe entries_in_universe
              (Datatypes.S (size universe)) root [])
    as [visits Hv].
  { constructor. }
  { intros id Hid. by apply elem_of_nil in Hid. }
  { simpl. lia. }
  exists visits. split; [exact Hv |].
  intros fuel Hfuel vs.
  assert (Hwalk : walk collect fuel root []
                  = Some (runCallbacks collect vs [])).
  { unfold walk.
    rewrite (walkNode_preorder collect universe entries_in_universe
               root [] visits Hv fuel 0 ∅ []).
    - unfold withSeen, vs. cbn [fst snd].
      by destruct (runCallbacks collect (map fst visits) []).
    - reflexivity.
    - constructor.
    - intros id Hid. by apply elem_of_nil in Hid.
    - simpl. lia. }
  unfold extractOps. rewrite Hwalk. split.
  - intros Hall. by rewrite (runCallbacks_parsed vs Hall).
  - intros pre v post e -> Hpre He.
    by rewrite (runCallbacks_failure pre v post e [] Hpre He).
Qed.
End ExtractOpsProperties.

Lemma samplePage_identities :
  forall v id child,
    (id, child) ∈ @entries nat samplePage v ->
    id ∈ ({[1%N; 2%N]} : gset N).
Proof.
  intros v id child Hin.
  destruct v as [|[|v]]; cbn in Hin;
    repeat (apply elem_of_cons in Hin as [Heq | Hin];
            [inversion Heq; subst; set_solver |]);
    by apply elem_of_nil in Hin.
Qed.

Lemma extractOps_page_witness :
  let lines := [lineOf [word 40 "05"; word 45 "."; word 50 "03";
                        word 100 "CARTE";
                        word 420 "5"; word 430 ","; word 435 "00"]] in
  let Name := fun _ : nat => "" in
  let Reader := fun v : nat => v in
  let NewReader := fun r : nat => r in
  let extractStreamLines := fun _ : MultiCloser nat => (lines, @None Err) in
  let parseError := fun (e : Err) (_ : nat) => e in
  (forall v id child,
     (id, child) ∈ @entries nat samplePage v ->
     id ∈ ({[1%N; 2%N]} : gset N))
  /\ @extractOps nat nat samplePage Name Reader NewReader extractStreamLines
       parseError 3 0%nat
     = Some ([ {| Date := "05.03"; Source := "CARTE"; SourceCol := 100;
                  Value := -500; HasValue := true; IsTotal := false |} ],
             None).
Proof.
  intros lines Name Reader NewReader extractStreamLines parseError.
  split; [exact samplePage_identities |].
  destruct (@extractOps_page nat nat samplePage Name Reader NewReader
              extractStreamLines parseError {[1%N; 2%N]}
              samplePage_identities 0%nat) as (visits & Hv & Hrun).
  assert (Hvs : visits = [(0%nat, []); (1%nat, [1%N]); (2%nat, [2%N])]).
  { refine (@preorder_unique nat samplePage 0%nat []
              [(0%nat, []); (1%nat, [1%N]); (2%nat, [2%N])] _ visits Hv).
    apply preorder_node. cbn.
    apply (preorder_descend 1%N 1%nat _ [] [(1%nat, [1%N])]
             [(2%nat, [2%N])]).
    - apply not_elem_of_nil.
    - apply preorder_node. cbn. apply preorder_done.
    - apply (preorder_descend 2%N 2%nat _ [] [(2%nat, [2%N])] []).
      + apply not_elem_of_nil.
      + apply preorder_node. cbn. apply preorder_done.
      + apply preorder_done. }
  destruct (Hrun 3%nat) as [Hall _].
  { vm_compute. lia. }
  rewrite Hall; subst visits.
  - vm_compute. reflexivity.
  - repeat constructor.
Defined.
